(** * Pentatonic guitar trainer: synthesis, pitch detection, scoring, progression

    A shallow embedding of [pentatonic_trainer.py] and of the analysis path of
    [pentatonic_gui.py].

    Number model.  Python floats are read as the exact numbers they denote:
    times, envelopes and accuracies are rationals ([Q]), waveform samples and
    frequencies are reals ([R]) because they go through [sin], [cos], [exp]
    and [log2].  Rounding of IEEE arithmetic is not modelled; the one IEEE
    effect that decides control flow in the source, the quiet NaN produced by
    [0/0] when a silent segment is normalised, is modelled ([npfloat]).
    Lengths, indices, tempi and the progress record are integers, lists and
    strings, and compute.

    Sample counts taken with [int] are the exact truncated quotients.  They
    are the values of the float computation for every tempo from 1 to 734 BPM
    (so on the 40 to 300 of the GUI) and for durations that are dyadic
    fractions; at 735 BPM and at a few larger tempi
    [int(60.0 / bpm * 44100)] is one less than [2646000 / bpm]. *)

From Stdlib Require Import String Ascii Bool ZArith QArith Qreals Reals List.
From Stdlib Require Import DecimalString.
From Stdlib Require Import Sorted.
From Stdlib Require DecimalZ.
From Stdlib Require Import Lia Psatz.
Import ListNotations.
Local Open Scope string_scope.
Local Open Scope list_scope.
Local Open Scope Z_scope.

(** ** Python and numpy primitives used by the source *)

Inductive exn : Type :=
| ValueError
| NameError
| OverflowError
| KeyError
| IndexError
| ZeroDivisionError.

Inductive result (A : Type) : Type :=
| Ok (a : A)
| Raise (e : exn).
Arguments Ok {A} a.
Arguments Raise {A} e.

Definition bind {A B : Type} (m : result A) (k : A -> result B) : result B :=
  match m with
  | Ok a => k a
  | Raise e => Raise e
  end.

Notation "x <- m ;; k" := (bind m (fun x => k))
  (at level 61, m at next level, right associativity).

(** [int(x)] on a float: truncation toward zero. *)
Definition int_of_float (q : Q) : Z := Z.quot (Qnum q) (Z.pos (Qden q)).

Fixpoint zip_with {A B C : Type} (f : A -> B -> C) (xs : list A) (ys : list B)
  : list C :=
  match xs, ys with
  | x :: xs', y :: ys' => f x y :: zip_with f xs' ys'
  | _, _ => []
  end.

(** [enumerate(xs, start)]. *)
Fixpoint enumerate {A : Type} (xs : list A) (start : Z) : list (Z * A) :=
  match xs with
  | [] => []
  | x :: xs' => (start, x) :: enumerate xs' (start + 1)
  end.

(** A slice bound of [a[start:stop]] on a sequence of length [n]: a negative
    bound counts from the end, and bounds are clamped to [0, n]. *)
Definition slice_index (n default : Z) (i : option Z) : Z :=
  match i with
  | None => default
  | Some i => if i <? 0 then Z.max 0 (i + n) else Z.min i n
  end.

Definition slice_bounds {A : Type} (xs : list A) (start stop : option Z)
  : nat * nat :=
  let n := Z.of_nat (length xs) in
  let lo := slice_index n 0 start in
  let hi := Z.max lo (slice_index n n stop) in
  (Z.to_nat lo, Z.to_nat hi).

Definition get_slice {A : Type} (xs : list A) (start stop : option Z) : list A :=
  let '(lo, hi) := slice_bounds xs start stop in
  firstn (hi - lo) (skipn lo xs).

(** [a[start:stop] = vals] on a numpy array: the shapes must agree, except that
    a one-element array broadcasts; otherwise numpy raises [ValueError]
    ("could not broadcast input array"). *)
Definition set_slice {A : Type} (xs : list A) (start stop : option Z)
  (vals : list A) : result (list A) :=
  let '(lo, hi) := slice_bounds xs start stop in
  if Nat.eqb (length vals) (hi - lo)
  then Ok (firstn lo xs ++ vals ++ skipn hi xs)
  else match vals with
       | [v] => Ok (firstn lo xs ++ repeat v (hi - lo) ++ skipn hi xs)
       | _ => Raise ValueError
       end.

(** The samples [start + i * step] of [np.linspace] for [num] other than 1,
    with [step = (stop - start) / (num - 1)]. *)
Definition ramp (start stop : Q) (num : Z) : list Q :=
  let step := ((stop - start) / inject_Z (num - 1))%Q in
  map (fun i => (start + inject_Z (Z.of_nat i) * step)%Q) (seq 0 (Z.to_nat num)).

(** [np.linspace(start, stop, num)], endpoint included. *)
Definition linspace (start stop : Q) (num : Z) : result (list Q) :=
  if num <? 0 then Raise ValueError
  else if num =? 1 then Ok [start]
  else Ok (ramp start stop num).

(** ** Constants of [PentatonicTrainer.__init__] *)

Definition SAMPLE_RATE : Z := 44100.
Definition CHUNK_SIZE : Z := 1024.
Definition FREQUENCY_TOLERANCE : R := 0.5%R.

(** ** [generate_note] *)

Definition harmonics : list R := [1.0; 0.5; 0.3; 0.2]%R.

(** One turn of the loop [for i, amplitude in enumerate(harmonics[1:], 2)]:
    [note += amplitude * np.sin(2 * np.pi * frequency * i * t)]. *)
Definition add_harmonic (frequency : R) (t : list Q) (note : list R)
  (ia : Z * R) : list R :=
  zip_with Rplus note
    (map (fun ti => (snd ia * sin (2 * PI * frequency * IZR (fst ia) * Q2R ti))%R) t).

Definition note_waveform (frequency : R) (t : list Q) : list R :=
  let note := map (fun ti => sin (2 * PI * frequency * Q2R ti)%R) t in
  fold_left (add_harmonic frequency t) (enumerate (tl harmonics) 2) note.

Definition attack : Q := 0.02.
Definition decay : Q := 0.1.
Definition sustain_level : Q := 0.7.
Definition release : Q := 0.3.

Definition attack_samples : Z := int_of_float (attack * inject_Z SAMPLE_RATE).
Definition decay_samples : Z := int_of_float (decay * inject_Z SAMPLE_RATE).
Definition release_samples : Z := int_of_float (release * inject_Z SAMPLE_RATE).

(** The "Apply envelope" block: [envelope = np.ones_like(t)] followed by the
    three slice assignments, in the source's order. *)
Definition note_envelope (t : list Q) : result (list Q) :=
  let envelope := map (fun _ => 1%Q) t in
  ramp <- linspace 0 1 attack_samples ;;
  envelope <- set_slice envelope None (Some attack_samples) ramp ;;
  ramp <- linspace 1 sustain_level decay_samples ;;
  envelope <- set_slice envelope (Some attack_samples)
                (Some (attack_samples + decay_samples)) ramp ;;
  ramp <- linspace sustain_level 0 release_samples ;;
  envelope <- set_slice envelope (Some (- release_samples)) None ramp ;;
  Ok envelope.

Definition note_times (duration : Q) : result (list Q) :=
  linspace 0 duration (int_of_float (inject_Z SAMPLE_RATE * duration)).

Definition generate_note (frequency : R) (duration : Q) : result (list R) :=
  t <- note_times duration ;;
  let note := note_waveform frequency t in
  envelope <- note_envelope t ;;
  Ok (zip_with (fun n e => (n * Q2R e * 0.3)%R) note envelope).


(** ** [generate_metronome] *)

(** [np.pad(a, (0, k))]: a negative pad width raises. *)
Definition np_pad_right (a : list R) (k : Z) : result (list R) :=
  if k <? 0 then Raise ValueError else Ok (a ++ repeat 0%R (Z.to_nat k)).

(** [np.zeros(n)]: a negative dimension raises. *)
Definition np_zeros (n : Z) : result (list R) :=
  if n <? 0 then Raise ValueError else Ok (repeat 0%R (Z.to_nat n)).

(** [a[start:stop] += v], in place: [v] must have the shape of the slice or
    be a single element. *)
Definition add_slice (a : list R) (start stop : Z) (v : list R)
  : result (list R) :=
  let '(lo, hi) := slice_bounds a (Some start) (Some stop) in
  let old := firstn (hi - lo) (skipn lo a) in
  if Nat.eqb (length v) (hi - lo)
  then Ok (firstn lo a ++ zip_with Rplus old v ++ skipn hi a)
  else match v with
       | [c] => Ok (firstn lo a ++ map (fun x => (x + c)%R) old ++ skipn hi a)
       | _ => Raise ValueError
       end.

(** [range(n)]. *)
Definition py_range (n : Z) : list Z := map Z.of_nat (seq 0 (Z.to_nat n)).

(** A [for] loop whose body may raise. *)
Fixpoint for_each {A S : Type} (xs : list A) (body : S -> A -> result S) (s : S)
  : result S :=
  match xs with
  | [] => Ok s
  | x :: xs' => s' <- body s x ;; for_each xs' body s'
  end.

(** [int(60.0 / bpm * self.SAMPLE_RATE)]. *)
Definition samples_per_beat_of (bpm : Z) : result Z :=
  if bpm =? 0 then Raise ZeroDivisionError
  else Ok (int_of_float (60 / inject_Z bpm * inject_Z SAMPLE_RATE)).

Definition click_samples : Z := int_of_float (0.05 * inject_Z SAMPLE_RATE).

(** [np.sin(2 * np.pi * 1000 * t) * np.exp(-10 * t)], as written in
    [generate_metronome]. *)
Definition metronome_click (t : list Q) : list R :=
  map (fun ti => (sin (2 * PI * 1000 * Q2R ti) * exp (-10 * Q2R ti))%R) t.

(** One turn of [for i in range(num_beats)]:
    [metronome[start:end] += click]. *)
Definition metronome_turn (click : list R) (samples_per_beat : Z)
  (metronome : list R) (i : Z) : result (list R) :=
  let start := i * samples_per_beat in
  let end_ := start + Z.of_nat (length click) in
  add_slice metronome start end_ click.

Definition generate_metronome (bpm num_beats : Z) : result (list R) :=
  samples_per_beat <- samples_per_beat_of bpm ;;
  let total_samples := num_beats * samples_per_beat in
  t <- linspace 0 0.05 click_samples ;;
  let click := metronome_click t in
  click <- np_pad_right click (samples_per_beat - Z.of_nat (length click)) ;;
  metronome <- np_zeros total_samples ;;
  for_each (py_range num_beats) (metronome_turn click samples_per_beat)
    metronome.

(** The click of [play_demonstration] and of the GUI's [run_demo]: the same
    expression followed by [* 0.3]. *)
Definition demonstration_click (t : list Q) : list R :=
  map (fun ti => (sin (2 * PI * 1000 * Q2R ti) * exp (-10 * Q2R ti) * 0.3)%R) t.

(** ** numpy floats

    Reals extended with the IEEE special values.  Only the operations met in
    [detect_fundamental_frequency] are defined.  A zero divisor is the [+0.0]
    returned by [np.max(np.abs(...))]; numpy warns on [x / 0.0] and carries on
    with [nan] or an infinity, it does not raise. *)

Inductive npfloat : Type :=
| Fin (x : R)
| PInf
| NInf
| NaN.

Definition np_divide (x y : R) : npfloat :=
  if Req_dec_T y 0 then
    if Req_dec_T x 0 then NaN
    else if Rlt_dec 0 x then PInf else NInf
  else Fin (x / y).

Definition fmul (a b : npfloat) : npfloat :=
  match a, b with
  | NaN, _ | _, NaN => NaN
  | Fin x, Fin y => Fin (x * y)
  | Fin x, PInf | PInf, Fin x =>
      if Req_dec_T x 0 then NaN else if Rlt_dec 0 x then PInf else NInf
  | Fin x, NInf | NInf, Fin x =>
      if Req_dec_T x 0 then NaN else if Rlt_dec 0 x then NInf else PInf
  | PInf, PInf | NInf, NInf => PInf
  | PInf, NInf | NInf, PInf => NInf
  end.

Definition fadd (a b : npfloat) : npfloat :=
  match a, b with
  | NaN, _ | _, NaN => NaN
  | Fin x, Fin y => Fin (x + y)
  | PInf, NInf | NInf, PInf => NaN
  | PInf, _ | _, PInf => PInf
  | NInf, _ | _, NInf => NInf
  end.

(** Comparisons with a [nan] operand are false. *)
Definition flt (a b : npfloat) : bool :=
  match a, b with
  | NaN, _ | _, NaN => false
  | Fin x, Fin y => if Rlt_dec x y then true else false
  | NInf, Fin _ | NInf, PInf | Fin _, PInf => true
  | _, _ => false
  end.

Definition feq (a b : npfloat) : bool :=
  match a, b with
  | Fin x, Fin y => if Req_dec_T x y then true else false
  | PInf, PInf | NInf, NInf => true
  | _, _ => false
  end.

Definition fle (a b : npfloat) : bool := flt a b || feq a b.

(** ** [detect_fundamental_frequency] and the library calls it makes *)

(** [np.max(np.abs(a))]; [np.max] of an empty array raises. *)
Definition np_max_abs (a : list R) : result R :=
  match a with
  | [] => Raise ValueError
  | x :: a' => Ok (fold_left Rmax (map Rabs a') (Rabs x))
  end.

(** [np.hanning(M)]: [0.5 - 0.5 cos(2 pi n / (M - 1))] for [0 <= n < M]. *)
Definition hanning (M : Z) : list R :=
  if M <? 1 then []
  else if M =? 1 then [1%R]
  else map (fun n => (0.5 - 0.5 * cos (2 * PI * INR n / IZR (M - 1)))%R)
         (seq 0 (Z.to_nat M)).

Definition fsum (xs : list npfloat) : npfloat := fold_left fadd xs (Fin 0).

(** The term of [np.correlate(a, v)] at lag [k]: the sum of [a[n+k] * v[n]]
    over the [n] for which both indices exist. *)
Definition correlate_lag (a v : list npfloat) (k : Z) : npfloat :=
  if k <? 0 then fsum (zip_with fmul a (skipn (Z.to_nat (- k)) v))
  else fsum (zip_with fmul (skipn (Z.to_nat k) a) v).

(** [np.correlate(a, v, mode='full')]: lags [-(len(v)-1) .. len(a)-1]; empty
    operands raise. *)
Definition correlate_full (a v : list npfloat) : result (list npfloat) :=
  match a, v with
  | [], _ | _, [] => Raise ValueError
  | _, _ =>
      let n := Z.of_nat (length a) in
      let m := Z.of_nat (length v) in
      Ok (map (fun j => correlate_lag a v (j - (m - 1))) (py_range (n + m - 1)))
  end.

(** The inner loop of scipy's [_local_maxima_1d]:
    [while i_ahead < i_max and x[i_ahead] == x[i]: i_ahead += 1]. *)
Fixpoint plateau_end (x : list npfloat) (i_max : nat) (xi : npfloat)
  (i_ahead fuel : nat) : nat :=
  match fuel with
  | O => i_ahead
  | S fuel' =>
      if (i_ahead <? i_max)%nat && feq (nth i_ahead x NaN) xi
      then plateau_end x i_max xi (S i_ahead) fuel'
      else i_ahead
  end.

(** The outer loop of [_local_maxima_1d], [while i < i_max], from index [i].
    The index grows at every turn, so [length x] turns of fuel are enough. *)
Fixpoint local_maxima_from (x : list npfloat) (i_max i fuel : nat) : list nat :=
  match fuel with
  | O => []
  | S fuel' =>
      if (i <? i_max)%nat then
        if flt (nth (i - 1) x NaN) (nth i x NaN) then
          let i_ahead := plateau_end x i_max (nth i x NaN) (i + 1) (length x) in
          if flt (nth i_ahead x NaN) (nth i x NaN)
          then ((i + (i_ahead - 1)) / 2)%nat
               :: local_maxima_from x i_max (i_ahead + 1) fuel'
          else local_maxima_from x i_max (i + 1) fuel'
        else local_maxima_from x i_max (i + 1) fuel'
      else []
  end.

Definition local_maxima_1d (x : list npfloat) : list nat :=
  local_maxima_from x (length x - 1) 1 (length x).

(** [scipy.signal.find_peaks(x, height=h)[0]]: the local maxima whose value
    is at least [h]. *)
Definition find_peaks (x : list npfloat) (height : R) : list nat :=
  filter (fun p => fle (Fin height) (nth p x NaN)) (local_maxima_1d x).

Definition detect_fundamental_frequency (audio_data : list R)
  : result (option R) :=
  if Z.of_nat (length audio_data) <? CHUNK_SIZE then Ok None
  else
    peak <- np_max_abs audio_data ;;
    let audio_data := map (fun x => np_divide x peak) audio_data in
    let window := hanning (Z.of_nat (length audio_data)) in
    let audio_data := zip_with fmul audio_data (map Fin window) in
    correlation <- correlate_full audio_data audio_data ;;
    let correlation := skipn (length correlation / 2) correlation in
    let peaks := find_peaks correlation 0.1 in
    match peaks with
    | first_peak :: _ => Ok (Some (IZR SAMPLE_RATE / INR first_peak)%R)
    | [] => Ok None
    end.

(** ** [find_closest_note] *)

Definition log2 (x : R) : R := (ln x / ln 2)%R.

(** [round(x)] on a float: nearest integer, ties to the even one. *)
Definition py_round (x : R) : Z :=
  let lo := Int_part x in
  let d := frac_part x in
  if Rlt_dec d (1 / 2) then lo
  else if Rlt_dec (1 / 2) d then lo + 1
  else if Z.even lo then lo else lo + 1.

Definition str_of_Z (z : Z) : string := NilZero.string_of_int (Z.to_int z).

(** The list [notes] of [find_closest_note], "starting from A". *)
Definition note_table : list string :=
  ["A"; "A#"; "B"; "C"; "C#"; "D"; "D#"; "E"; "F"; "F#"; "G"; "G#"].

(** [np.log2] of a non-positive number is [-inf] or [nan], on which [round]
    raises. *)
Definition find_closest_note (frequency : R) : result string :=
  if Req_dec_T frequency 0 then Raise OverflowError
  else if Rlt_dec frequency 0 then Raise ValueError
  else
    let semitones := (12 * log2 (frequency / 440.0))%R in
    let semitones := py_round semitones in
    let notes := note_table in
    let octave := 4 + (semitones + 9) / 12 in
    let note_idx := (semitones + 9) mod 12 in
    Ok (nth (Z.to_nat note_idx) notes "" ++ str_of_Z octave)%string.

(** ** Strings, dictionaries and ranges *)

Definition is_space (c : ascii) : bool :=
  let n := nat_of_ascii c in
  (Nat.eqb n 32 || (Nat.leb 9 n && Nat.leb n 13))%bool.

(** [s.split()]: the maximal runs of non-whitespace characters. *)
Fixpoint split_from (s word : string) : list string :=
  match s with
  | EmptyString => if String.eqb word "" then [] else [word]
  | String c s' =>
      if is_space c
      then if String.eqb word "" then split_from s' ""
           else word :: split_from s' ""
      else split_from s' (word ++ String c "")%string
  end.

Definition py_split (s : string) : list string := split_from s "".

(** [xs[-1]]. *)
Definition last_item {A : Type} (xs : list A) : result A :=
  match rev xs with
  | [] => Raise IndexError
  | x :: _ => Ok x
  end.

(** [s[-1]] on a string. *)
Definition last_char (s : string) : result string :=
  c <- last_item (list_ascii_of_string s) ;; Ok (String c "").

(** [int(s)] on a string: an optional minus sign and decimal digits (the
    surrounding blanks, the plus sign and the underscores Python also accepts
    do not occur in the source's uses). *)
Definition int_of_str (s : string) : result Z :=
  match NilZero.int_of_string s with
  | Some d => Ok (Z.of_int d)
  | None => Raise ValueError
  end.

Fixpoint dict_find {V : Type} (d : list (string * V)) (k : string) : option V :=
  match d with
  | [] => None
  | (k', v) :: d' => if String.eqb k k' then Some v else dict_find d' k
  end.

(** [d[k]]. *)
Definition dict_get {V : Type} (d : list (string * V)) (k : string) : result V :=
  match dict_find d k with
  | Some v => Ok v
  | None => Raise KeyError
  end.

(** [d[k] = v], keeping the insertion order of the keys. *)
Fixpoint dict_set {V : Type} (d : list (string * V)) (k : string) (v : V)
  : list (string * V) :=
  match d with
  | [] => [(k, v)]
  | (k', v') :: d' =>
      if String.eqb k k' then (k, v) :: d' else (k', v') :: dict_set d' k v
  end.

Definition str_in (x : string) (xs : list string) : bool :=
  existsb (String.eqb x) xs.
Arguments str_in : simpl never.

(** [range(start, stop, step)]. *)
Definition py_range3 (start stop step : Z) : result (list Z) :=
  if step =? 0 then Raise ValueError
  else
    let n := if 0 <? step then (stop - start + step - 1) / step
             else (start - stop - step - 1) / (- step) in
    Ok (map (fun k => start + Z.of_nat k * step) (seq 0 (Z.to_nat n))).

(** ** Notes and scale positions *)

Record Note : Type := mkNote {
  Note_fret : Z;
  Note_string : Z;
  Note_frequency : R;
  Note_name : string
}.

Record ScalePosition : Type := mkScalePosition {
  Scale_name : string;
  Scale_notes : list Note;
  Scale_description : string;
  Scale_tab : string
}.

Definition string_frequencies (gstring : Z) : result R :=
  match gstring with
  | 6 => Ok 82.41%R
  | 5 => Ok 110.00%R
  | 4 => Ok 146.83%R
  | 3 => Ok 196.00%R
  | 2 => Ok 246.94%R
  | 1 => Ok 329.63%R
  | _ => Raise KeyError
  end.

Definition note_names (gstring : Z) : result (list string) :=
  match gstring with
  | 6 => Ok ["E"; "F"; "F#"; "G"; "G#"; "A"; "A#"; "B"; "C"; "C#"; "D"; "D#"]
  | 5 => Ok ["A"; "A#"; "B"; "C"; "C#"; "D"; "D#"; "E"; "F"; "F#"; "G"; "G#"]
  | 4 => Ok ["D"; "D#"; "E"; "F"; "F#"; "G"; "G#"; "A"; "A#"; "B"; "C"; "C#"]
  | 3 => Ok ["G"; "G#"; "A"; "A#"; "B"; "C"; "C#"; "D"; "D#"; "E"; "F"; "F#"]
  | 2 => Ok ["B"; "C"; "C#"; "D"; "D#"; "E"; "F"; "F#"; "G"; "G#"; "A"; "A#"]
  | 1 => Ok ["E"; "F"; "F#"; "G"; "G#"; "A"; "A#"; "B"; "C"; "C#"; "D"; "D#"]
  | _ => Raise KeyError
  end.

Definition calculate_note_frequency (gstring fret : Z) : result R :=
  base_freq <- string_frequencies gstring ;;
  Ok (base_freq * Rpower 2 (IZR fret / 12))%R.

Definition get_note_name (gstring fret : Z) : result string :=
  names <- note_names gstring ;;
  Ok (nth (Z.to_nat (fret mod 12)) names "").

(** [Note(fret, string, self.calculate_note_frequency(string, fret),
    self.get_note_name(string, fret))]. *)
Definition note_at (fret gstring : Z) : result Note :=
  frequency <- calculate_note_frequency gstring fret ;;
  name <- get_note_name gstring fret ;;
  Ok (mkNote fret gstring frequency name).

Fixpoint notes_at (frets_strings : list (Z * Z)) : result (list Note) :=
  match frets_strings with
  | [] => Ok []
  | (fret, gstring) :: rest =>
      note <- note_at fret gstring ;;
      notes <- notes_at rest ;;
      Ok (note :: notes)
  end.

Definition create_scale_position1 : result ScalePosition :=
  notes <- notes_at [(5, 6); (8, 6); (5, 5); (7, 5); (5, 4); (7, 4);
                     (5, 3); (7, 3); (5, 2); (8, 2); (5, 1); (8, 1)] ;;
  Ok (mkScalePosition "Position 1 - A Minor Pentatonic" notes
        "The foundation position starting on the root note A"
        "
e|---5--8-------------------------
b|---5--8-------------------------
G|---5--7-------------------------
D|---5--7-------------------------
A|---5--7-------------------------
E|---5--8-------------------------").

Definition create_scale_position2 : result ScalePosition :=
  notes <- notes_at [(8, 6); (10, 6); (7, 5); (10, 5); (7, 4); (10, 4);
                     (7, 3); (9, 3); (8, 2); (10, 2); (8, 1); (10, 1)] ;;
  Ok (mkScalePosition "Position 2 - A Minor Pentatonic" notes
        "The second position, starting on C"
        "
e|---8--10------------------------
b|---8--10------------------------
G|---7--9-------------------------
D|---7--10------------------------
A|---7--10------------------------
E|---8--10------------------------").

Definition create_scale_position3 : result ScalePosition :=
  notes <- notes_at [(10, 6); (12, 6); (10, 5); (12, 5); (10, 4); (12, 4);
                     (9, 3); (12, 3); (10, 2); (12, 2); (10, 1); (12, 1)] ;;
  Ok (mkScalePosition "Position 3 - A Minor Pentatonic" notes
        "The third position, starting on D"
        "
e|---10-12------------------------
b|---10-12------------------------
G|---9--12------------------------
D|---10-12------------------------
A|---10-12------------------------
E|---10-12------------------------").

Definition create_scale_position4 : result ScalePosition :=
  notes <- notes_at [(12, 6); (15, 6); (12, 5); (15, 5); (12, 4); (14, 4);
                     (12, 3); (14, 3); (12, 2); (15, 2); (12, 1); (15, 1)] ;;
  Ok (mkScalePosition "Position 4 - A Minor Pentatonic" notes
        "The fourth position, starting on E"
        "
e|---12-15------------------------
b|---12-15------------------------
G|---12-14------------------------
D|---12-14------------------------
A|---12-15------------------------
E|---12-15------------------------").

Definition create_scale_position5 : result ScalePosition :=
  notes <- notes_at [(15, 6); (17, 6); (15, 5); (17, 5); (14, 4); (17, 4);
                     (14, 3); (17, 3); (15, 2); (17, 2); (15, 1); (17, 1)] ;;
  Ok (mkScalePosition "Position 5 - A Minor Pentatonic" notes
        "The fifth position, starting on G"
        "
e|---15-17------------------------
b|---15-17------------------------
G|---14-17------------------------
D|---14-17------------------------
A|---15-17------------------------
E|---15-17------------------------").

Definition scale_positions : result (list (string * ScalePosition)) :=
  p1 <- create_scale_position1 ;;
  p2 <- create_scale_position2 ;;
  p3 <- create_scale_position3 ;;
  p4 <- create_scale_position4 ;;
  p5 <- create_scale_position5 ;;
  Ok [("position1", p1); ("position2", p2); ("position3", p3);
      ("position4", p4); ("position5", p5)].

(** ** The trainer's state *)

Record Progress : Type := mkProgress {
  total_score : Z;
  games_won : list string;
  target_bpm : Z;
  level_accuracies : list (string * list Q);
  highest_bpm : Z;
  positions_unlocked : list string
}.

(** What [json.load] would return for ["pentatonic_progress.json"]: an object
    in which any key may be missing. *)
Record SavedProgress : Type := mkSavedProgress {
  saved_total_score : option Z;
  saved_games_won : option (list string);
  saved_target_bpm : option Z;
  saved_level_accuracies : option (list (string * list Q));
  saved_highest_bpm : option Z;
  saved_positions_unlocked : option (list string)
}.

Inductive file_content : Type :=
| Malformed
| Json (saved : SavedProgress).

(** The attributes of a [PentatonicTrainer] that the modelled methods read or
    write, and the progress file ([None]: the file does not exist). *)
Record Trainer : Type := mkTrainer {
  starting_bpm : Z;
  current_bpm : Z;
  self_target_bpm : Z;
  progress : Progress;
  progress_file : option file_content
}.

Definition set_current_bpm (bpm : Z) (self : Trainer) : Trainer :=
  mkTrainer (starting_bpm self) bpm (self_target_bpm self) (progress self)
    (progress_file self).

Definition set_progress (p : Progress) (self : Trainer) : Trainer :=
  mkTrainer (starting_bpm self) (current_bpm self) (self_target_bpm self) p
    (progress_file self).

Definition set_progress_file (f : option file_content) (self : Trainer)
  : Trainer :=
  mkTrainer (starting_bpm self) (current_bpm self) (self_target_bpm self)
    (progress self) f.

Definition set_games_won (g : list string) (p : Progress) : Progress :=
  mkProgress (total_score p) g (target_bpm p) (level_accuracies p)
    (highest_bpm p) (positions_unlocked p).

Definition set_level_accuracies (l : list (string * list Q)) (p : Progress)
  : Progress :=
  mkProgress (total_score p) (games_won p) (target_bpm p) l (highest_bpm p)
    (positions_unlocked p).

Definition set_highest_bpm (b : Z) (p : Progress) : Progress :=
  mkProgress (total_score p) (games_won p) (target_bpm p) (level_accuracies p)
    b (positions_unlocked p).

Definition set_positions_unlocked (u : list string) (p : Progress) : Progress :=
  mkProgress (total_score p) (games_won p) (target_bpm p) (level_accuracies p)
    (highest_bpm p) u.

(** The dictionary literal of [__init__]. *)
Definition default_progress (self_target_bpm starting_bpm : Z) : Progress :=
  mkProgress 0 [] self_target_bpm [] starting_bpm ["position1"].

Definition initial_trainer (file : option file_content) : Trainer :=
  mkTrainer 120 120 240 (default_progress 240 120) file.

(** ** [save_progress] and [load_progress] *)

Definition to_saved (p : Progress) : SavedProgress :=
  mkSavedProgress (Some (total_score p)) (Some (games_won p))
    (Some (target_bpm p)) (Some (level_accuracies p)) (Some (highest_bpm p))
    (Some (positions_unlocked p)).

Definition save_progress (self : Trainer) : Trainer :=
  set_progress_file (Some (Json (to_saved (progress self)))) self.

(** [d.get(key, default)]. *)
Definition saved_get {A : Type} (field : option A) (default : A) : A :=
  match field with
  | Some v => v
  | None => default
  end.

(** The dictionaries a name can denote inside the [with] block of
    [load_progress].  The block binds [f] to the open file and never parses
    it; [self] is the trainer; the module's globals are the imports and the
    three classes.  None of these is [saved_progress]. *)
Definition load_progress_scope (f : file_content)
  : list (string * SavedProgress) := [].

(** Reading a variable: an unbound name raises [NameError]. *)
Definition name_lookup {V : Type} (scope : list (string * V)) (x : string)
  : result V :=
  match dict_find scope x with
  | Some v => Ok v
  | None => Raise NameError
  end.

Definition load_progress (self : Trainer) : Trainer :=
  match progress_file self with
  | None => self
  | Some f =>
      let attempt :=
        saved_progress <- name_lookup (load_progress_scope f) "saved_progress" ;;
        Ok (mkProgress
              (saved_get (saved_total_score saved_progress) 0)
              (saved_get (saved_games_won saved_progress) [])
              (saved_get (saved_target_bpm saved_progress) (self_target_bpm self))
              (saved_get (saved_level_accuracies saved_progress) [])
              (saved_get (saved_highest_bpm saved_progress) (starting_bpm self))
              (saved_get (saved_positions_unlocked saved_progress) ["position1"]))
      in
      match attempt with
      | Ok p =>
          let self := set_progress p self in
          set_current_bpm (highest_bpm (progress self)) self
      | Raise _ => self  (* bare [except:], "Error loading progress" *)
      end
  end.

(** [PentatonicTrainer.__init__], as far as the state goes. *)
Definition init (file : option file_content) : Trainer :=
  load_progress (initial_trainer file).

(** The loader as the specification words it: the stored values of a
    well-formed record are installed, absent fields take their defaults, and
    an absent or malformed store gives the all-defaults record. *)
Definition load_progress_spec (file : option file_content) : Progress :=
  match file with
  | Some (Json saved) =>
      mkProgress
        (saved_get (saved_total_score saved) 0)
        (saved_get (saved_games_won saved) [])
        (saved_get (saved_target_bpm saved) 240)
        (saved_get (saved_level_accuracies saved) [])
        (saved_get (saved_highest_bpm saved) 120)
        (saved_get (saved_positions_unlocked saved) ["position1"])
  | Some Malformed | None => default_progress 240 120
  end.

(** ** Scoring a recording *)

(** One turn of the loop [for i in range(0, len(playing_audio),
    samples_per_beat)] of [play_game] and of the GUI's [analyze_recording],
    on [chunk = playing_audio[i:i + samples_per_beat]]. *)
Definition collect_window (notes_detected : list (option R)) (chunk : list R)
  : result (list (option R)) :=
  if CHUNK_SIZE <=? Z.of_nat (length chunk) then
    freq <- detect_fundamental_frequency chunk ;;
    match freq with
    | Some f => Ok (notes_detected ++ [Some f])
    | None => Ok notes_detected
    end
  else Ok notes_detected.

(** The loop itself, from the list collected so far. *)
Definition windows_loop
  (turn : list (option R) -> list R -> result (list (option R)))
  (playing_audio : list R) (samples_per_beat : Z)
  (notes_detected : list (option R)) : result (list (option R)) :=
  starts <- py_range3 0 (Z.of_nat (length playing_audio)) samples_per_beat ;;
  for_each starts
    (fun notes_detected i =>
       turn notes_detected
         (get_slice playing_audio (Some i) (Some (i + samples_per_beat))))
    notes_detected.

Definition detect_notes (playing_audio : list R) (samples_per_beat : Z)
  : result (list (option R)) :=
  windows_loop collect_window playing_audio samples_per_beat [].

(** One turn of [for detected, expected in zip(notes_detected, expected_notes)].
    [find_closest_note] only labels the printed verdict, but it can raise. *)
Definition score_pair (correct_notes : Z) (pair : option R * Note)
  : result Z :=
  let '(detected, expected) := pair in
  match detected with
  | Some detected =>
      let ratio := (detected / Note_frequency expected)%R in
      let semitone_distance := Rabs (12 * log2 ratio) in
      if Rle_dec semitone_distance FREQUENCY_TOLERANCE
      then Ok (correct_notes + 1)
      else
        _ <- find_closest_note detected ;;
        Ok correct_notes
  | None => Ok correct_notes
  end.

Definition count_correct (notes_detected : list (option R))
  (expected_notes : list Note) : result Z :=
  for_each (combine notes_detected expected_notes) score_pair 0.

(** From "Skip the count-in portion" to the end of the comparison loop;
    the text is the same in both front ends. *)
Definition analyze_playing (notes : list Note) (recording : list R) (bpm : Z)
  : result Z :=
  if bpm =? 0 then Raise ZeroDivisionError
  else
    let start_sample :=
      int_of_float (4 * (60 / inject_Z bpm) * inject_Z SAMPLE_RATE) in
    let playing_audio := get_slice recording (Some start_sample) None in
    samples_per_beat <- samples_per_beat_of bpm ;;
    notes_detected <- detect_notes playing_audio samples_per_beat ;;
    let expected_notes := notes ++ rev notes in
    count_correct notes_detected expected_notes.

Definition accuracy_of (correct_notes expected_note_count : Z) : Q :=
  if 0 <? expected_note_count
  then (inject_Z correct_notes / inject_Z expected_note_count * 100)%Q
  else 0%Q.

(** The collector as the specification words it: "collect one detected
    frequency (or none) per window, in order". *)
Definition collect_window_spec (notes_detected : list (option R))
  (chunk : list R) : result (list (option R)) :=
  if CHUNK_SIZE <=? Z.of_nat (length chunk) then
    freq <- detect_fundamental_frequency chunk ;;
    Ok (notes_detected ++ [freq])
  else Ok notes_detected.

Definition detect_notes_spec (playing_audio : list R) (samples_per_beat : Z)
  : result (list (option R)) :=
  windows_loop collect_window_spec playing_audio samples_per_beat [].

(** The analysis with that collector, everything else as in the code. *)
Definition analyze_playing_spec (notes : list Note) (recording : list R)
  (bpm : Z) : result Z :=
  if bpm =? 0 then Raise ZeroDivisionError
  else
    let start_sample :=
      int_of_float (4 * (60 / inject_Z bpm) * inject_Z SAMPLE_RATE) in
    let playing_audio := get_slice recording (Some start_sample) None in
    samples_per_beat <- samples_per_beat_of bpm ;;
    notes_detected <- detect_notes_spec playing_audio samples_per_beat ;;
    let expected_notes := notes ++ rev notes in
    count_correct notes_detected expected_notes.

(** ** Progression

    The methods below mutate the trainer and may raise part-way; what was
    mutated before the exception stays mutated.  [M] threads the trainer and
    the exception. *)

Definition M (A : Type) : Type := Trainer -> Trainer * result A.

Definition ret {A : Type} (a : A) : M A := fun self => (self, Ok a).

Definition bindM {A B : Type} (m : M A) (k : A -> M B) : M B :=
  fun self =>
    match m self with
    | (self', Ok a) => k a self'
    | (self', Raise e) => (self', Raise e)
    end.

Definition get : M Trainer := fun self => (self, Ok self).

Definition modify (f : Trainer -> Trainer) : M unit :=
  fun self => (f self, Ok tt).

Definition lift {A : Type} (r : result A) : M A := fun self => (self, r).

Notation "x <~ m ;; k" := (bindM m (fun x => k))
  (at level 61, m at next level, right associativity).
Notation "m ;;; k" := (bindM m (fun _ => k))
  (at level 61, right associativity).

(** [if level_key not in d: d[level_key] = []] then
    [d[level_key].append(accuracy)]. *)
Definition record_accuracy (level_key : string) (accuracy : Q) (self : Trainer)
  : Trainer :=
  let d := level_accuracies (progress self) in
  let d := match dict_find d level_key with
           | Some _ => d
           | None => dict_set d level_key []
           end in
  let history := saved_get (dict_find d level_key) [] in
  set_progress
    (set_level_accuracies (dict_set d level_key (history ++ [accuracy]))
       (progress self)) self.

Definition append_game_won (game : string) (self : Trainer) : Trainer :=
  set_progress
    (set_games_won (games_won (progress self) ++ [game]) (progress self)) self.

Definition unlock_position (next_pos : string) (self : Trainer) : Trainer :=
  set_progress
    (set_positions_unlocked (positions_unlocked (progress self) ++ [next_pos])
       (progress self)) self.

(** [play_game], from "Store accuracy for this attempt" to [save_progress]. *)
Definition play_game_progress (position : string) (scale : ScalePosition)
  (accuracy : Q) : M unit :=
  self <~ get ;;
  let level_key := (Scale_name scale ++ "_" ++ str_of_Z (current_bpm self))%string in
  modify (record_accuracy level_key accuracy) ;;;
  (if Qeq_bool accuracy 100 then
     modify (append_game_won
               (Scale_name scale ++ " at " ++ str_of_Z (current_bpm self)
                ++ " BPM")%string) ;;;
     modify (fun self =>
               set_current_bpm
                 (Z.min (current_bpm self + 10) (target_bpm (progress self)))
                 self) ;;;
     modify (fun self =>
               set_progress
                 (set_highest_bpm
                    (Z.max (highest_bpm (progress self)) (current_bpm self))
                    (progress self)) self) ;;;
     digit <~ lift (last_char position) ;;
     current_pos <~ lift (int_of_str digit) ;;
     let next_pos := ("position" ++ str_of_Z (current_pos + 1))%string in
     self <~ get ;;
     if (current_pos <? 5)
        && negb (str_in next_pos (positions_unlocked (progress self)))
     then modify (unlock_position next_pos)
     else ret tt
   else ret tt) ;;;
  modify save_progress.

(** [play_game] once the recording is made: analysis, then progression. *)
Definition play_game (position : string) (recording : list R) : M unit :=
  positions <~ lift scale_positions ;;
  scale <~ lift (dict_get positions position) ;;
  self <~ get ;;
  correct_notes <~ lift (analyze_playing (Scale_notes scale) recording
                           (current_bpm self)) ;;
  let expected_note_count :=
    Z.of_nat (length (Scale_notes scale ++ rev (Scale_notes scale))) in
  let accuracy := accuracy_of correct_notes expected_note_count in
  play_game_progress position scale accuracy.

Module Gui.

(** [PentatonicGUI.analyze_recording], from "Calculate accuracy and update
    progress" on; [trainer] is the threaded state. *)
Definition update_progress (current_position : ScalePosition) (bpm : Z)
  (correct_notes expected_note_count : Z) : M unit :=
  if 0 <? expected_note_count then
    let accuracy :=
      (inject_Z correct_notes / inject_Z expected_note_count * 100)%Q in
    let level_key :=
      (Scale_name current_position ++ "_" ++ str_of_Z bpm)%string in
    modify (record_accuracy level_key accuracy) ;;;
    (if Qeq_bool accuracy 100 then
       modify (append_game_won
                 (Scale_name current_position ++ " at " ++ str_of_Z bpm
                  ++ " BPM")%string) ;;;
       word <~ lift (last_item (py_split (Scale_name current_position))) ;;
       current_pos <~ lift (int_of_str word) ;;
       let next_pos := ("position" ++ str_of_Z (current_pos + 1))%string in
       trainer <~ get ;;
       (if (current_pos <? 5)
           && negb (str_in next_pos (positions_unlocked (progress trainer)))
        then modify (unlock_position next_pos)
        else ret tt) ;;;
       trainer <~ get ;;
       if bpm <? target_bpm (progress trainer)
       then
         let new_bpm := Z.min (bpm + 5) (target_bpm (progress trainer)) in
         modify (set_current_bpm new_bpm)
       else ret tt
     else ret tt) ;;;
    modify save_progress
  else ret tt.

Definition analyze_recording (current_position : ScalePosition)
  (recording : list R) (bpm : Z) : M unit :=
  correct_notes <~ lift (analyze_playing (Scale_notes current_position)
                           recording bpm) ;;
  let expected_notes :=
    Scale_notes current_position ++ rev (Scale_notes current_position) in
  update_progress current_position bpm correct_notes
    (Z.of_nat (length expected_notes)).

End Gui.

(** ** The metronome as the specification words it *)

(** "1000 Hz sine with exponential decay envelope exp(-10t), amplitude 0.3". *)
Definition click_spec (t : list Q) : list R :=
  map (fun ti => (0.3 * (sin (2 * PI * 1000 * Q2R ti) * exp (-10 * Q2R ti)))%R) t.

(** [num_beats] copies of a click, "each zero-padded to fill one full beat
    interval". *)
Definition beat_track (click : list R) (samples_per_beat num_beats : Z)
  : list R :=
  concat (repeat (click ++ repeat 0%R (Z.to_nat samples_per_beat - length click))
            (Z.to_nat num_beats)).

(** The sample times of the click: 2205 points from 0 to 50 ms. *)
Definition click_times : list Q := ramp 0 0.05 2205.

(** ** The envelope in closed form

    What the three slice assignments leave in a buffer of [n >= 13230]
    samples: attack ramp, decay ramp, ones, and the release ramp written over
    the last 13230 samples. *)
Definition envelope_shape (n : nat) : list Q :=
  firstn (n - Z.to_nat 13230)
    (ramp 0 1 882 ++ ramp 1 0.7 4410 ++ repeat 1%Q (n - Z.to_nat 5292))
  ++ ramp 0.7 0 13230.

(** ** Notions used in the analysis of the detector *)

Definition rsum (l : list R) : R := fold_left Rplus l 0%R.

(** The autocorrelation of a finite signal at lag [k]. *)
Definition lag_sum (z : list R) (k : nat) : R :=
  rsum (zip_with Rmult (skipn k z) z).

(** The Hann window of length [n] at index [i]. *)
Definition hann_at (n i : nat) : R :=
  (0.5 - 0.5 * cos (2 * PI * INR i / IZR (Z.of_nat n - 1)))%R.

(** A segment that is silent but for two unit samples, [G + 1] apart. *)
Definition two_impulses (A G B : nat) : list R :=
  repeat 0%R A ++ [1%R] ++ repeat 0%R G ++ [1%R] ++ repeat 0%R B.

(** ** Concrete inputs used below *)

(** A pass of position 1 at 120 BPM (22050 samples per beat, 617400 samples
    of metronome, read in 603 chunks of 1024): silence during the count-in
    and the first beat, two impulses 401 samples apart (a period of
    44100 / 401 = 109.98 Hz, the pitch of the first note) during the second
    beat, silence afterwards. *)
Definition late_start_recording : list R :=
  repeat 0%R (Z.to_nat (4 * 22050))
  ++ repeat 0%R (Z.to_nat 22050)
  ++ two_impulses (Z.to_nat 10824) 400 (Z.to_nat 10824)
  ++ repeat 0%R (Z.to_nat (22 * 22050))
  ++ repeat 0%R 72.


(** A well-formed progress file. *)
Definition stored_example : SavedProgress :=
  mkSavedProgress (Some 3) (Some ["Position 1 - A Minor Pentatonic at 120 BPM"])
    (Some 200) (Some [("Position 1 - A Minor Pentatonic_120", [100%Q])])
    (Some 130) (Some ["position1"; "position2"]).

(** The trainer after a fresh start with no progress file. *)
Definition fresh_trainer : Trainer := init None.

(** The positions in their fixed order, with the one that follows each. *)
Definition position_order : list (string * option string) :=
  [("position1", Some "position2"); ("position2", Some "position3");
   ("position3", Some "position4"); ("position4", Some "position5");
   ("position5", None)].

(** ** [play_demonstration]

    The buffers handed to [sd.play], in the order they are played.  The
    printing is left out; [time.sleep] matters only in that it raises on a
    negative argument. *)

(** [audio = self.generate_note(note.frequency, seconds_per_beat)] followed by
    [audio[:len(click)] += click]. *)
Definition demonstration_note (click : list R) (frequency : R)
  (seconds_per_beat : Q) : result (list R) :=
  audio <- generate_note frequency seconds_per_beat ;;
  add_slice audio 0 (Z.of_nat (length click)) click.

(** One turn of [for note in ...]: the note's buffer is played. *)
Definition demonstrate (click : list R) (seconds_per_beat : Q)
  (played : list (list R)) (note : Note) : result (list (list R)) :=
  audio <- demonstration_note click (Note_frequency note) seconds_per_beat ;;
  Ok (played ++ [audio]).

Definition play_demonstration (scale : ScalePosition) (bpm : Z)
  : result (list (list R)) :=
  if bpm =? 0 then Raise ZeroDivisionError
  else
    let seconds_per_beat := (60 / inject_Z bpm)%Q in
    t <- linspace 0 0.05 (int_of_float (0.05 * inject_Z SAMPLE_RATE)) ;;
    let click := demonstration_click t in
    (* for i in range(4): sd.play(click); time.sleep(seconds_per_beat) *)
    played <- (if Qlt_le_dec seconds_per_beat 0 then Raise ValueError
               else Ok (repeat click 4)) ;;
    played <- for_each (Scale_notes scale) (demonstrate click seconds_per_beat)
                played ;;
    for_each (rev (Scale_notes scale)) (demonstrate click seconds_per_beat)
      played.

(** ** The recording loop of a practice pass

    [stream.read(CHUNK_SIZE)] blocks until a chunk is there; [read k] is the
    [k]-th chunk the stream delivers. *)

(** [while samples_recorded < total_samples: ...], from chunk [k] on.  Every
    turn adds a chunk, so [fuel] turns are enough when chunks are not
    empty and [fuel >= total_samples]. *)
Fixpoint record_from (read : nat -> list R) (total_samples : Z)
  (fuel k : nat) (recording : list R) (samples_recorded : Z)
  : list R * Z :=
  match fuel with
  | O => (recording, samples_recorded)
  | S fuel' =>
      if samples_recorded <? total_samples then
        let audio_chunk := read k in
        record_from read total_samples fuel' (S k)
          (recording ++ audio_chunk)
          (samples_recorded + Z.of_nat (length audio_chunk))
      else (recording, samples_recorded)
  end.

Definition record (read : nat -> list R) (total_samples : Z) : list R * Z :=
  record_from read total_samples (Z.to_nat total_samples) 0 [] 0.

(** The "Update expected note visual" block of the GUI's [practice_session]:
    the note highlighted once [samples_recorded] samples are in, [None] when
    nothing is shown. *)
Definition expected_note (notes : list Note) (total_beats beat_number : Z)
  : option Note :=
  let notes_per_direction := Z.of_nat (length notes) in
  if (4 <=? beat_number) && (beat_number <? total_beats) then
    let play_index := beat_number - 4 in
    if play_index <? notes_per_direction then
      nth_error notes (Z.to_nat play_index)
    else if play_index <? notes_per_direction * 2 then
      let reverse_index :=
        notes_per_direction - (play_index - notes_per_direction) - 1 in
      nth_error notes (Z.to_nat reverse_index)
    else None
  else None.

(** The cue of [practice_session] once [samples_recorded] samples are in.
    The session first computes [60.0 / bpm] and builds the metronome track,
    which raises outside (0, 1200]; in the loop,
    [beat_number = samples_recorded // beat_samples] decides the note
    shown. *)
Definition cue_after (notes : list Note) (bpm samples_recorded : Z)
  : result (option Note) :=
  if bpm =? 0 then Raise ZeroDivisionError
  else
    let total_beats := 4 + Z.of_nat (length notes) * 2 in
    metronome <- generate_metronome bpm total_beats ;;
    beat_samples <- samples_per_beat_of bpm ;;
    if beat_samples =? 0 then Raise ZeroDivisionError
    else
      Ok (expected_note notes total_beats (samples_recorded / beat_samples)).

(** ** [set_target_bpm] *)

(** [int(text)] on what a user typed, for ASCII text: blanks around the
    number are dropped, a sign may come first, and the digits may be grouped
    with single underscores.  The blanks [int] drops are the space and the
    characters 9 to 13; it does not drop the separators 28 to 31. *)
Definition is_blank (c : ascii) : bool :=
  let n := nat_of_ascii c in
  (Nat.eqb n 32 || (Nat.leb 9 n && Nat.leb n 13))%bool.

Definition is_digit (c : ascii) : bool :=
  let n := nat_of_ascii c in (Nat.leb 48 n && Nat.leb n 57)%bool.

Fixpoint lstrip (s : string) : string :=
  match s with
  | String c s' => if is_blank c then lstrip s' else s
  | EmptyString => s
  end.

Definition rev_string (s : string) : string :=
  string_of_list_ascii (rev (list_ascii_of_string s)).

Definition strip (s : string) : string :=
  rev_string (lstrip (rev_string (lstrip s))).

(** The digits of [digit ("_"? digit)*], most significant first; [None] when
    the text is not of that form.  [after_digit] tells whether the character
    before was a digit. *)
Fixpoint grouped_digits (s : string) (after_digit : bool) : option (list Z) :=
  match s with
  | EmptyString => if after_digit then Some [] else None
  | String c s' =>
      if is_digit c then
        option_map (cons (Z.of_nat (nat_of_ascii c) - 48))
          (grouped_digits s' true)
      else if Ascii.eqb c "_" && after_digit then grouped_digits s' false
      else None
  end.

Definition digits_value (ds : list Z) : Z :=
  fold_left (fun v d => 10 * v + d) ds 0.

Definition py_int (text : string) : result Z :=
  let s := strip text in
  let '(negative, digits) :=
    match s with
    | String "-" s' => (true, s')
    | String "+" s' => (false, s')
    | _ => (false, s)
    end in
  match grouped_digits digits false with
  | Some ds => Ok (if negative then - digits_value ds else digits_value ds)
  | None => Raise ValueError
  end.

Definition set_target_bpm_field (b : Z) (p : Progress) : Progress :=
  mkProgress (total_score p) (games_won p) b (level_accuracies p)
    (highest_bpm p) (positions_unlocked p).

Inductive target_outcome : Type :=
| TargetSet
| OutOfRange
| NotANumber.

Module GuiTarget.

(** [PentatonicGUI.set_target_bpm] on the text of the spin box. *)
Definition set_target_bpm (text : string) (trainer : Trainer)
  : Trainer * target_outcome :=
  match py_int text with
  | Ok new_target =>
      if (60 <=? new_target) && (new_target <=? 300) then
        (save_progress
           (set_progress (set_target_bpm_field new_target (progress trainer))
              trainer),
         TargetSet)
      else (trainer, OutOfRange)
  | Raise _ => (trainer, NotANumber)
  end.

End GuiTarget.

(** A line of 7-bit characters, at most 4300 of them.  On such text [py_int]
    is [int]: beyond it [int] also reads the blanks and digits of other
    scripts, and refuses more than 4300 digits. *)
Definition typed_line (line : string) : bool :=
  (forallb (fun c => Nat.ltb (nat_of_ascii c) 128) (list_ascii_of_string line)
   && Nat.leb (String.length line) 4300)%bool.

(** [PentatonicTrainer.set_target_bpm] on the lines typed at the prompt; the
    result is [None] while the loop is still waiting for a line. *)
Fixpoint set_target_bpm (lines : list string) (self : Trainer)
  : option Trainer :=
  match lines with
  | [] => None
  | new_target :: lines' =>
      if String.eqb new_target "" then Some self
      else
        match py_int new_target with
        | Ok new_target =>
            if (60 <=? new_target) && (new_target <=? 300) then
              Some (save_progress
                      (set_progress
                         (set_target_bpm_field new_target (progress self)) self))
            else set_target_bpm lines' self
        | Raise _ => set_target_bpm lines' self
        end
  end.

(** Choice 4 of [run], confirmed. *)
Definition reset_progress (self : Trainer) : Trainer :=
  save_progress
    (set_current_bpm (starting_bpm self)
       (set_progress
          (default_progress (self_target_bpm self) (starting_bpm self)) self)).

(** ** [show_stats] *)

(** [s.rsplit('_', 1)], as the pair it yields when there is an underscore. *)
Fixpoint rsplit_underscore (s : string) : option (string * string) :=
  match s with
  | EmptyString => None
  | String c s' =>
      match rsplit_underscore s' with
      | Some (before, after) => Some (String c before, after)
      | None => if Ascii.eqb c "_" then Some (EmptyString, s') else None
      end
  end.

(** [max(xs)] and [sum(xs) / len(xs)] on a list of floats. *)
Definition py_max (xs : list Q) : result Q :=
  match xs with
  | [] => Raise ValueError
  | x :: xs' => Ok (fold_left (fun m y => if Qlt_le_dec m y then y else m) xs' x)
  end.

Definition py_average (xs : list Q) : result Q :=
  match xs with
  | [] => Raise ZeroDivisionError
  | _ => Ok (fold_left Qplus xs 0 / inject_Z (Z.of_nat (length xs)))%Q
  end.

Record level_report : Type := mkLevelReport {
  report_position : string;
  report_bpm : string;
  report_attempts : Z;
  report_best : Q;
  report_average : Q
}.

(** One turn of [for level, accuracies in ...items()]:
    [position, bpm = level.rsplit('_', 1)] and the three figures printed. *)
Definition level_stats (item : string * list Q) : result level_report :=
  let '(level, accuracies) := item in
  match rsplit_underscore level with
  | None => Raise ValueError
  | Some (position, bpm) =>
      best <- py_max accuracies ;;
      average <- py_average accuracies ;;
      Ok (mkLevelReport position bpm (Z.of_nat (length accuracies)) best average)
  end.

Fixpoint level_reports (items : list (string * list Q))
  : result (list level_report) :=
  match items with
  | [] => Ok []
  | item :: items' =>
      r <- level_stats item ;;
      rs <- level_reports items' ;;
      Ok (r :: rs)
  end.

(** The "Accuracy History" part of [show_stats]. *)
Definition show_stats (self : Trainer) : result (list level_report) :=
  level_reports (level_accuracies (progress self)).

(** Histories as the passes leave them: a key made of a name, an underscore
    and a tempo, and at least one accuracy. *)
Definition history_ok (item : string * list Q) : Prop :=
  snd item <> []
  /\ exists name bpm, fst item = (name ++ "_" ++ str_of_Z bpm)%string.

(** The keys of [scale_positions]. *)
Definition position_keys : list string :=
  ["position1"; "position2"; "position3"; "position4"; "position5"].

(** ** A whole command-line pass *)

(** The pass from the moment the player chooses "Start playing": the
    metronome track is generated, the recording is as long as the track
    asks, and [play_game] goes on from there. *)
Definition play_game_pass (position : string) (read : nat -> list R)
  : M unit :=
  positions <~ lift scale_positions ;;
  scale <~ lift (dict_get positions position) ;;
  self <~ get ;;
  let notes_per_direction := Z.of_nat (length (Scale_notes scale)) in
  let total_beats := 4 + notes_per_direction * 2 in
  metronome <~ lift (generate_metronome (current_bpm self) total_beats) ;;
  let total_samples := Z.of_nat (length metronome) in
  play_game position (fst (record read total_samples)).

(** ** The GUI's position menu *)

Module GuiMenu.

(** [positions = [f"Position {i}" for i in range(1, 6)]], the values of the
    position menu. *)
Definition positions : list string :=
  map (fun i => ("Position " ++ str_of_Z i)%string) [1; 2; 3; 4; 5].

(** [PentatonicGUI.change_position]: the new [current_position], [None] when
    the key is not in [scale_positions] and nothing changes. *)
Definition change_position (position : string)
  : result (option ScalePosition) :=
  word <- last_item (py_split position) ;;
  position_num <- py_int word ;;
  let position_key := ("position" ++ str_of_Z position_num)%string in
  positions <- scale_positions ;;
  if str_in position_key (map fst positions)
  then current_position <- dict_get positions position_key ;;
       Ok (Some current_position)
  else Ok None.

End GuiMenu.

(** ** A short scale *)

(** The first two notes of position 1, as a scale of their own. *)
Definition root_and_third : ScalePosition :=
  mkScalePosition "Position 1 - A Minor Pentatonic"
    [mkNote 5 6 (82.41 * Rpower 2 (IZR 5 / 12)) "A";
     mkNote 8 6 (82.41 * Rpower 2 (IZR 8 / 12)) "C"]
    "The foundation position starting on the root note A"
    "E|---5--8---".

(** ** A perfect pass *)

(** One beat at 120 BPM, silent but for two unit samples [lag] apart around
    its middle. *)
Definition beat_with_period (lag : Z) : list R :=
  two_impulses (Z.to_nat 10824) (Z.to_nat (lag - 1)) (Z.to_nat (11225 - lag)).

(** The periods, in samples, nearest to the twelve notes of position 1:
    44100 / 401 = 109.98 Hz for the A at 110 Hz, and so on up to
    44100 / 84 = 525 Hz for the C at 523.25 Hz. *)
Definition position1_periods : list Z :=
  [401; 337; 300; 268; 225; 200; 169; 150; 134; 112; 100; 84].

(** The notes of position 1, as [create_scale_position1] builds them. *)
Definition position1_notes : list Note :=
  [mkNote 5 6 (82.41 * Rpower 2 (IZR 5 / 12)) "A";
   mkNote 8 6 (82.41 * Rpower 2 (IZR 8 / 12)) "C";
   mkNote 5 5 (110.00 * Rpower 2 (IZR 5 / 12)) "D";
   mkNote 7 5 (110.00 * Rpower 2 (IZR 7 / 12)) "E";
   mkNote 5 4 (146.83 * Rpower 2 (IZR 5 / 12)) "G";
   mkNote 7 4 (146.83 * Rpower 2 (IZR 7 / 12)) "A";
   mkNote 5 3 (196.00 * Rpower 2 (IZR 5 / 12)) "C";
   mkNote 7 3 (196.00 * Rpower 2 (IZR 7 / 12)) "D";
   mkNote 5 2 (246.94 * Rpower 2 (IZR 5 / 12)) "E";
   mkNote 8 2 (246.94 * Rpower 2 (IZR 8 / 12)) "G";
   mkNote 5 1 (329.63 * Rpower 2 (IZR 5 / 12)) "A";
   mkNote 8 1 (329.63 * Rpower 2 (IZR 8 / 12)) "C"].

(** A perfect pass of position 1 at 120 BPM: silence during the count-in,
    then on each of the 24 beats the period of the expected note, up and
    down; 603 chunks of 1024 samples in all. *)
Definition perfect_recording : list R :=
  repeat 0%R (Z.to_nat (4 * 22050))
  ++ concat (map beat_with_period (position1_periods ++ rev position1_periods))
  ++ repeat 0%R 72.

(** A trainer that has been used: the target was set to 200 in the GUI and
    one half-right pass of position 1 at 120 BPM is on record. *)
Definition returning_trainer : Trainer :=
  save_progress
    (record_accuracy "Position 1 - A Minor Pentatonic_120" 50
       (fst (GuiTarget.set_target_bpm "200" fresh_trainer))).

(** * Properties *)

(** ** Slices and ramps *)

Lemma length_ramp (a b : Q) (n : Z) : length (ramp a b n) = Z.to_nat n.
Proof. unfold ramp. now rewrite length_map, length_seq. Qed.

Lemma linspace_ramp (a b : Q) (n : Z) : 1 < n -> linspace a b n = Ok (ramp a b n).
Proof.
  intros Hn. unfold linspace.
  destruct (Z.ltb_spec n 0); [lia |].
  destruct (Z.eqb_spec n 1); [lia | reflexivity].
Qed.

Lemma set_slice_fits {A : Type} (xs vals : list A) (start stop : option Z) (lo hi : nat) :
  slice_bounds xs start stop = (lo, hi) ->
  length vals = (hi - lo)%nat ->
  set_slice xs start stop vals = Ok (firstn lo xs ++ vals ++ skipn hi xs).
Proof.
  intros Hb Hl. unfold set_slice. rewrite Hb.
  rewrite (proj2 (Nat.eqb_eq _ _) Hl). reflexivity.
Qed.

Lemma set_slice_misfit {A : Type} (xs vals : list A) (start stop : option Z) (lo hi : nat) :
  slice_bounds xs start stop = (lo, hi) ->
  length vals <> (hi - lo)%nat ->
  (2 <= length vals)%nat ->
  set_slice xs start stop vals = Raise ValueError.
Proof.
  intros Hb Hl H2. unfold set_slice. rewrite Hb.
  rewrite (proj2 (Nat.eqb_neq _ _) Hl).
  destruct vals as [| v [| w vals]]; simpl in H2; try lia; reflexivity.
Qed.

Lemma attack_samples_eq : attack_samples = 882. Proof. reflexivity. Qed.
Lemma decay_samples_eq : decay_samples = 4410. Proof. reflexivity. Qed.
Lemma release_samples_eq : release_samples = 13230. Proof. reflexivity. Qed.

Lemma skipn_repeat {A : Type} (x : A) (k n : nat) : skipn k (repeat x n) = repeat x (n - k).
Proof.
  revert n. induction k as [| k IH]; intros [| n]; simpl; auto.
Qed.

Lemma slice_bounds_prefix {A : Type} (xs : list A) (b : Z) :
  0 <= b <= Z.of_nat (length xs) ->
  slice_bounds xs None (Some b) = (0%nat, Z.to_nat b).
Proof.
  intros H. unfold slice_bounds, slice_index.
  destruct (Z.ltb_spec b 0); [lia |]. f_equal; lia.
Qed.

Lemma slice_bounds_inner {A : Type} (xs : list A) (a b : Z) :
  0 <= a <= b -> b <= Z.of_nat (length xs) ->
  slice_bounds xs (Some a) (Some b) = (Z.to_nat a, Z.to_nat b).
Proof.
  intros H1 H2. unfold slice_bounds, slice_index.
  destruct (Z.ltb_spec a 0); [lia |].
  destruct (Z.ltb_spec b 0); [lia |]. f_equal; lia.
Qed.

Lemma slice_bounds_tail {A : Type} (xs : list A) (k : Z) :
  0 < k ->
  slice_bounds xs (Some (- k)) None
  = ((length xs - Z.to_nat k)%nat, length xs).
Proof.
  intros H. unfold slice_bounds, slice_index.
  destruct (Z.ltb_spec (- k) 0); [| lia]. f_equal; lia.
Qed.

Lemma slice_bounds_short {A : Type} (xs : list A) (a b : option Z) (lo hi : nat) :
  slice_bounds xs a b = (lo, hi) -> (hi - lo <= length xs)%nat.
Proof.
  unfold slice_bounds, slice_index. intros H. inversion H; subst; clear H.
  destruct a as [a |], b as [b |];
    repeat match goal with
           | |- context [?x <? ?y] => destruct (Z.ltb_spec x y)
           end; lia.
Qed.

Lemma note_envelope_ok (t : list Q) :
  13230 <= Z.of_nat (length t) ->
  note_envelope t = Ok (envelope_shape (length t)).
Proof.
  intros Hn. unfold note_envelope, sustain_level.
  rewrite attack_samples_eq, decay_samples_eq, release_samples_eq.
  rewrite map_const.
  set (n := length t) in *.
  rewrite !linspace_ramp by lia. unfold bind.
  rewrite (set_slice_fits _ _ _ _ 0%nat (Z.to_nat 882)).
  2:{ apply slice_bounds_prefix. rewrite repeat_length. lia. }
  2:{ rewrite length_ramp. lia. }
  rewrite skipn_repeat. cbn [firstn app].
  change (882 + 4410) with 5292.
  rewrite (set_slice_fits _ _ _ _ (Z.to_nat 882) (Z.to_nat 5292)).
  2:{ apply slice_bounds_inner; [lia |].
      rewrite length_app, length_ramp, repeat_length. lia. }
  2:{ rewrite length_ramp. lia. }
  rewrite firstn_app, length_ramp, Nat.sub_diag, firstn_O, app_nil_r.
  rewrite firstn_all2 by (rewrite length_ramp; lia).
  rewrite skipn_app, length_ramp, skipn_repeat.
  rewrite skipn_all2 by (rewrite length_ramp; lia). cbn [app].
  replace (n - Z.to_nat 882 - (Z.to_nat 5292 - Z.to_nat 882))%nat
    with (n - Z.to_nat 5292)%nat by lia.
  set (env := ramp 0 1 882 ++ ramp 1 0.7 4410 ++ repeat 1%Q (n - Z.to_nat 5292)).
  assert (Hlen : length env = n).
  { unfold env. rewrite !length_app, !length_ramp, repeat_length. lia. }
  rewrite (set_slice_fits _ _ _ _ (n - Z.to_nat 13230)%nat n).
  2:{ rewrite slice_bounds_tail by lia. now rewrite Hlen. }
  2:{ rewrite length_ramp. lia. }
  rewrite skipn_all2 by lia. rewrite app_nil_r. reflexivity.
Qed.

Lemma note_envelope_raises (t : list Q) :
  Z.of_nat (length t) < 13230 ->
  note_envelope t = Raise ValueError.
Proof.
  intros Hn. unfold note_envelope, sustain_level.
  rewrite attack_samples_eq, decay_samples_eq, release_samples_eq.
  rewrite map_const.
  set (n := length t) in *.
  rewrite !linspace_ramp by lia. unfold bind.
  destruct (Z_lt_le_dec (Z.of_nat n) 882) as [H1 | H1].
  { rewrite (set_slice_misfit _ _ _ _ 0%nat n); [reflexivity | | |].
    - unfold slice_bounds, slice_index. rewrite repeat_length.
      destruct (Z.ltb_spec 882 0); [lia |]. f_equal; lia.
    - rewrite length_ramp. lia.
    - rewrite length_ramp. lia. }
  rewrite (set_slice_fits _ _ _ _ 0%nat (Z.to_nat 882)).
  2:{ apply slice_bounds_prefix. rewrite repeat_length. lia. }
  2:{ rewrite length_ramp. lia. }
  rewrite skipn_repeat. cbn [firstn app].
  change (882 + 4410) with 5292.
  destruct (Z_lt_le_dec (Z.of_nat n) 5292) as [H2 | H2].
  { rewrite (set_slice_misfit _ _ _ _ (Z.to_nat 882) n); [reflexivity | | |].
    - unfold slice_bounds, slice_index.
      rewrite length_app, length_ramp, repeat_length.
      destruct (Z.ltb_spec 882 0); [lia |].
      destruct (Z.ltb_spec 5292 0); [lia |]. f_equal; lia.
    - rewrite length_ramp. lia.
    - rewrite length_ramp. lia. }
  rewrite (set_slice_fits _ _ _ _ (Z.to_nat 882) (Z.to_nat 5292)).
  2:{ apply slice_bounds_inner; [lia |].
      rewrite length_app, length_ramp, repeat_length. lia. }
  2:{ rewrite length_ramp. lia. }
  rewrite (set_slice_misfit _ _ _ _ 0%nat n); [reflexivity | | |].
  - rewrite slice_bounds_tail by lia.
    rewrite !length_app, !length_ramp, length_firstn, length_skipn.
    rewrite !length_app, length_ramp, repeat_length. f_equal; lia.
  - rewrite length_ramp. lia.
  - rewrite length_ramp. lia.
Qed.

(** ** [generate_note]: when it returns *)

Lemma note_times_length (duration : Q) (t : list Q) :
  note_times duration = Ok t ->
  Z.of_nat (length t) = Z.max 0 (int_of_float (inject_Z SAMPLE_RATE * duration)).
Proof.
  unfold note_times, linspace.
  set (n := int_of_float _).
  destruct (Z.ltb_spec n 0); [discriminate |].
  destruct (Z.eqb_spec n 1) as [-> | Hn]; intros H'; inversion H'; subst; clear H'.
  - reflexivity.
  - rewrite length_ramp. lia.
Qed.

Lemma note_times_ok (duration : Q) :
  1 < int_of_float (inject_Z SAMPLE_RATE * duration) ->
  note_times duration
  = Ok (ramp 0 duration (int_of_float (inject_Z SAMPLE_RATE * duration))).
Proof. intros H. unfold note_times. now apply linspace_ramp. Qed.

(** A buffer shorter than the release window cannot be synthesised. *)
Lemma generate_note_raises (frequency : R) (duration : Q) :
  int_of_float (inject_Z SAMPLE_RATE * duration) < 13230 ->
  generate_note frequency duration = Raise ValueError.
Proof.
  intros Hn. unfold generate_note.
  destruct (note_times duration) as [t | e] eqn:Ht.
  - apply note_times_length in Ht. cbn [bind].
    rewrite note_envelope_raises by lia. reflexivity.
  - unfold note_times, linspace in Ht.
    destruct (_ <? 0); [| destruct (_ =? 1); discriminate].
    now inversion Ht.
Qed.

Lemma generate_note_ok (frequency : R) (duration : Q) :
  let n := int_of_float (inject_Z SAMPLE_RATE * duration) in
  13230 <= n ->
  generate_note frequency duration
  = Ok (zip_with (fun x e => (x * Q2R e * 0.3)%R)
          (note_waveform frequency (ramp 0 duration n))
          (envelope_shape (Z.to_nat n))).
Proof.
  intros n Hn. unfold generate_note.
  rewrite note_times_ok by (fold n; lia). fold n. cbn [bind].
  rewrite note_envelope_ok by (rewrite length_ramp; lia).
  now rewrite length_ramp.
Qed.

Lemma length_zip_with {A B C : Type} (f : A -> B -> C) (xs : list A)
  (ys : list B) :
  length (zip_with f xs ys) = Nat.min (length xs) (length ys).
Proof.
  revert ys. induction xs as [| x xs IH]; intros [| y ys]; cbn; auto.
Qed.

Lemma length_note_waveform (frequency : R) (t : list Q) :
  length (note_waveform frequency t) = length t.
Proof.
  unfold note_waveform, harmonics, add_harmonic.
  cbn [tl enumerate fold_left].
  rewrite !length_zip_with, !length_map. lia.
Qed.

(** When a buffer is returned it has [int(44100 * duration)] samples. *)
Lemma generate_note_length (frequency : R) (duration : Q) :
  13230 <= int_of_float (inject_Z SAMPLE_RATE * duration) ->
  exists buffer,
    generate_note frequency duration = Ok buffer
    /\ Z.of_nat (length buffer)
       = int_of_float (inject_Z SAMPLE_RATE * duration).
Proof.
  intros Hn. eexists. split; [now apply generate_note_ok |].
  rewrite length_zip_with, length_note_waveform, length_ramp.
  unfold envelope_shape.
  rewrite length_app, length_firstn, !length_app, !length_ramp, repeat_length.
  lia.
Qed.

(** One beat at [bpm] lasts [60.0 / bpm] seconds, that is [2646000 / bpm]
    samples. *)
Lemma beat_samples (bpm : Z) :
  0 < bpm ->
  int_of_float (inject_Z SAMPLE_RATE * (60 / inject_Z bpm)) = 2646000 / bpm.
Proof.
  intros Hb. destruct bpm as [| p | p]; try lia.
  unfold int_of_float, Qdiv, Qinv, Qmult, inject_Z, SAMPLE_RATE. cbn.
  rewrite Z.quot_div_nonneg by lia. reflexivity.
Qed.

(** C3, at 300 BPM.  One beat lasts 0.2 s, that is 8820 samples; the release
    assignment [envelope[-13230:] = ...] then writes 13230 values into a slice
    of 8820 and numpy raises [ValueError]: no buffer is returned. *)
Theorem generate_note_fast_tempo_raises (frequency : R) :
  generate_note frequency (60 / inject_Z 300) = Raise ValueError.
Proof. apply generate_note_raises. rewrite beat_samples; [reflexivity | lia]. Qed.

Lemma generate_note_beat_ok_iff (frequency : R) (bpm : Z) :
  40 <= bpm <= 300 ->
  (exists buffer, generate_note frequency (60 / inject_Z bpm) = Ok buffer)
  <-> bpm <= 200.
Proof.
  intros Hb. split.
  - intros [buffer H].
    destruct (Z_lt_le_dec 200 bpm) as [Hfast | Hslow]; [| exact Hslow].
    rewrite generate_note_raises in H; [discriminate |].
    rewrite beat_samples by lia.
    apply Z.div_lt_upper_bound; lia.
  - intros Hslow. eexists. apply generate_note_ok.
    rewrite beat_samples by lia.
    apply Z.div_le_lower_bound; lia.
Qed.

(** ** [generate_note]: the envelope *)

Lemma nth_error_ramp (a b : Q) (num : Z) (i : nat) :
  Z.of_nat i < num ->
  nth_error (ramp a b num) i
  = Some (a + inject_Z (Z.of_nat i) * ((b - a) / inject_Z (num - 1)))%Q.
Proof.
  intros Hi. unfold ramp.
  rewrite nth_error_map, nth_error_seq.
  destruct (Nat.ltb_spec i (Z.to_nat num)); [reflexivity | lia].
Qed.

Lemma nth_error_firstn_lt {A : Type} (l : list A) (k i : nat) :
  (i < k)%nat -> nth_error (firstn k l) i = nth_error l i.
Proof.
  revert l i. induction k as [| k IH]; intros l i Hi; [lia |].
  destruct l as [| x l]; [reflexivity |].
  destruct i as [| i]; [reflexivity |]. cbn. apply IH. lia.
Qed.

Section EnvelopeStages.

Variable n : nat.
Hypothesis long_enough : 18522 <= Z.of_nat n.

Lemma length_envelope_shape : length (envelope_shape n) = n.
Proof.
  unfold envelope_shape.
  rewrite length_app, length_firstn, !length_app, !length_ramp, repeat_length.
  lia.
Qed.

Lemma envelope_attack (i : nat) :
  Z.of_nat i < 882 ->
  nth_error (envelope_shape n) i = nth_error (ramp 0 1 882) i.
Proof.
  intros Hi. unfold envelope_shape.
  rewrite nth_error_app1 by
    (rewrite length_firstn, !length_app, !length_ramp, repeat_length; lia).
  rewrite nth_error_firstn_lt by lia.
  apply nth_error_app1. rewrite length_ramp. lia.
Qed.

Lemma envelope_decay (i : nat) :
  882 <= Z.of_nat i < 5292 ->
  nth_error (envelope_shape n) i
  = nth_error (ramp 1 0.7 4410) (i - Z.to_nat 882).
Proof.
  intros Hi. unfold envelope_shape.
  rewrite nth_error_app1 by
    (rewrite length_firstn, !length_app, !length_ramp, repeat_length; lia).
  rewrite nth_error_firstn_lt by lia.
  rewrite nth_error_app2 by (rewrite length_ramp; lia).
  rewrite length_ramp.
  apply nth_error_app1. rewrite length_ramp. lia.
Qed.

(** Between the decay and the release the envelope is what
    [np.ones_like(t)] put there: 1, not the sustain level. *)
Lemma envelope_sustain (i : nat) :
  5292 <= Z.of_nat i < Z.of_nat n - 13230 ->
  nth_error (envelope_shape n) i = Some 1%Q.
Proof.
  intros Hi. unfold envelope_shape.
  rewrite nth_error_app1 by
    (rewrite length_firstn, !length_app, !length_ramp, repeat_length; lia).
  rewrite nth_error_firstn_lt by lia.
  rewrite nth_error_app2 by (rewrite length_ramp; lia).
  rewrite nth_error_app2 by (rewrite !length_ramp; lia).
  rewrite !length_ramp.
  apply nth_error_repeat. lia.
Qed.

Lemma envelope_release (i : nat) :
  Z.of_nat n - 13230 <= Z.of_nat i < Z.of_nat n ->
  nth_error (envelope_shape n) i
  = nth_error (ramp 0.7 0 13230) (i - (n - Z.to_nat 13230)).
Proof.
  intros Hi. unfold envelope_shape.
  rewrite nth_error_app2 by
    (rewrite length_firstn, !length_app, !length_ramp, repeat_length; lia).
  f_equal.
  rewrite length_firstn, !length_app, !length_ramp, repeat_length. lia.
Qed.

End EnvelopeStages.

(** C8, at a one-second note.  Sample 10000 lies after the decay (5292) and
    before the release (44100 - 13230): the envelope there is 1, the value
    left by [np.ones_like], and not the sustain level 0.7. *)
Theorem envelope_sustain_at_one_second :
  exists t envelope,
    note_times 1 = Ok t
    /\ note_envelope t = Ok envelope
    /\ nth_error envelope (Z.to_nat 10000) = Some 1%Q
    /\ ~ (1 == sustain_level)%Q.
Proof.
  exists (ramp 0 1 44100), (envelope_shape (Z.to_nat 44100)).
  split; [reflexivity |]. split.
  - rewrite note_envelope_ok; rewrite length_ramp; [reflexivity | lia].
  - split; [apply envelope_sustain; lia | discriminate].
Qed.

(** ** [generate_note]: amplitude *)

Lemma Forall_firstn {A : Type} (P : A -> Prop) (k : nat) (l : list A) :
  Forall P l -> Forall P (firstn k l).
Proof.
  intros H. revert k. induction H as [| x l Hx Hl IH]; intros [| k]; cbn; auto.
Qed.

Lemma Forall_zip_with {A B C : Type} (P : A -> Prop) (Q : B -> Prop)
  (S : C -> Prop) (f : A -> B -> C) (xs : list A) (ys : list B) :
  (forall x y, P x -> Q y -> S (f x y)) ->
  Forall P xs -> Forall Q ys -> Forall S (zip_with f xs ys).
Proof.
  intros Hf Hxs. revert ys.
  induction Hxs as [| x xs Hx Hxs IH]; intros ys Hys; [constructor |].
  destruct Hys as [| y ys Hy Hys]; cbn; [constructor |].
  constructor; auto.
Qed.

Lemma zip_with_map {A B C D : Type} (f : B -> C -> D) (g : A -> B) (h : A -> C)
  (l : list A) :
  zip_with f (map g l) (map h l) = map (fun x => f (g x) (h x)) l.
Proof. induction l as [| x l IH]; cbn; [reflexivity | now rewrite IH]. Qed.

Lemma ramp_between (lo hi a b : Q) (num : Z) :
  1 < num ->
  (lo <= a <= hi)%Q -> (lo <= b <= hi)%Q ->
  Forall (fun x => lo <= x <= hi)%Q (ramp a b num).
Proof.
  intros Hnum Ha Hb. unfold ramp. apply Forall_forall. intros x Hx.
  apply in_map_iff in Hx. destruct Hx as (i & <- & Hi).
  apply in_seq in Hi.
  set (k := inject_Z (Z.of_nat i)). set (m := inject_Z (num - 1)).
  assert (Hm : (0 < m)%Q).
  { unfold m, Qlt, inject_Z. cbn. lia. }
  assert (Hk : (0 <= k <= m)%Q).
  { unfold k, m, Qle, inject_Z. cbn. lia. }
  set (l := (k / m)%Q).
  assert (Hl : (0 <= l <= 1)%Q).
  { unfold l. split.
    - apply Qle_shift_div_l; [exact Hm | lra].
    - apply Qle_shift_div_r; [exact Hm | lra]. }
  assert (E : (a + k * ((b - a) / m) == a + l * (b - a))%Q).
  { unfold l. field. lra. }
  rewrite E. split; nra.
Qed.

Lemma envelope_shape_between (n : nat) :
  Forall (fun e => 0 <= e <= 1)%Q (envelope_shape n).
Proof.
  unfold envelope_shape. apply Forall_app. split.
  - apply Forall_firstn. repeat (apply Forall_app; split).
    + apply ramp_between; [lia | lra | lra].
    + apply ramp_between; [lia | lra | lra].
    + apply Forall_forall. intros x Hx. apply repeat_spec in Hx. subst x. lra.
  - apply ramp_between; [lia | lra | lra].
Qed.

Lemma note_envelope_inv (t envelope : list Q) :
  note_envelope t = Ok envelope ->
  13230 <= Z.of_nat (length t) /\ envelope = envelope_shape (length t).
Proof.
  intros H.
  destruct (Z_lt_le_dec (Z.of_nat (length t)) 13230) as [Hs | Hl].
  - rewrite note_envelope_raises in H by exact Hs. discriminate.
  - rewrite note_envelope_ok in H by exact Hl. inversion H. auto.
Qed.

(** The loop over the harmonics, unrolled: the fundamental plus three
    overtones with weights 0.5, 0.3 and 0.2. *)
Lemma note_waveform_pointwise (frequency : R) (t : list Q) :
  note_waveform frequency t
  = map (fun ti =>
           (sin (2 * PI * frequency * Q2R ti)
            + 0.5 * sin (2 * PI * frequency * 2 * Q2R ti)
            + 0.3 * sin (2 * PI * frequency * 3 * Q2R ti)
            + 0.2 * sin (2 * PI * frequency * 4 * Q2R ti))%R) t.
Proof.
  unfold note_waveform, harmonics, add_harmonic. cbn [tl enumerate fold_left fst snd].
  now rewrite !zip_with_map.
Qed.

Lemma note_waveform_bound (frequency : R) (t : list Q) :
  Forall (fun x => Rabs x <= 2)%R (note_waveform frequency t).
Proof.
  rewrite note_waveform_pointwise. apply Forall_forall. intros x Hx.
  apply in_map_iff in Hx. destruct Hx as (ti & <- & _).
  pose proof (SIN_bound (2 * PI * frequency * Q2R ti)) as H1.
  pose proof (SIN_bound (2 * PI * frequency * 2 * Q2R ti)) as H2.
  pose proof (SIN_bound (2 * PI * frequency * 3 * Q2R ti)) as H3.
  pose proof (SIN_bound (2 * PI * frequency * 4 * Q2R ti)) as H4.
  apply Rabs_le. lra.
Qed.

(** C10.  Every sample of a buffer returned by [generate_note] is at most 0.6
    in absolute value: the four sines weigh 1 + 0.5 + 0.3 + 0.2 = 2, the
    envelope stays in [0, 1], and the result is scaled by 0.3. *)
Theorem generate_note_amplitude (frequency : R) (duration : Q) (buffer : list R) :
  generate_note frequency duration = Ok buffer ->
  Forall (fun x => Rabs x <= 0.6)%R buffer.
Proof.
  unfold generate_note. intros H.
  destruct (note_times duration) as [t |]; [| discriminate].
  cbn [bind] in H.
  destruct (note_envelope t) as [envelope |] eqn:He; [| discriminate].
  cbn [bind] in H. inversion H; subst buffer; clear H.
  apply note_envelope_inv in He. destruct He as [_ ->].
  apply Forall_zip_with with
    (P := fun x => (Rabs x <= 2)%R) (Q := fun e => (0 <= e <= 1)%Q).
  - intros x e Hx [He0 He1].
    apply Qle_Rle in He0, He1.
    replace (Q2R 0) with 0%R in He0 by (unfold Q2R; cbn; lra).
    replace (Q2R 1) with 1%R in He1 by (unfold Q2R; cbn; lra).
    assert (Hx' : (-2 <= x <= 2)%R)
      by (unfold Rabs in Hx; destruct (Rcase_abs x); lra).
    apply Rabs_le. nra.
  - apply note_waveform_bound.
  - apply envelope_shape_between.
Qed.

Lemma generate_note_amplitude_witness :
  exists buffer,
    generate_note 440 1 = Ok buffer
    /\ Forall (fun x => Rabs x <= 0.6)%R buffer.
Proof.
  eexists. split.
  - apply generate_note_ok. vm_compute. discriminate.
  - apply (generate_note_amplitude 440 1).
    apply generate_note_ok. vm_compute. discriminate.
Defined.

(** ** [generate_metronome] *)

Lemma zip_with_zeros_l (v : list R) :
  zip_with Rplus (repeat 0%R (length v)) v = v.
Proof.
  induction v as [| x v IH]; cbn; [reflexivity |].
  now rewrite IH, Rplus_0_l.
Qed.

Lemma concat_repeat_snoc {A : Type} (x : list A) (i : nat) :
  concat (repeat x i) ++ x = concat (repeat x (S i)).
Proof.
  induction i as [| i IH]; cbn; [now rewrite app_nil_r |].
  now rewrite <- app_assoc, IH.
Qed.

Lemma length_concat_repeat {A : Type} (x : list A) (i : nat) :
  length (concat (repeat x i)) = (i * length x)%nat.
Proof.
  induction i as [| i IH]; cbn; [reflexivity |].
  rewrite length_app, IH. lia.
Qed.

Lemma firstn_length_app {A : Type} (xs ys : list A) (n : nat) :
  n = length xs -> firstn n (xs ++ ys) = xs.
Proof.
  intros ->. rewrite firstn_app, Nat.sub_diag, firstn_O, app_nil_r.
  now apply firstn_all2.
Qed.

Lemma skipn_length_app {A : Type} (xs ys : list A) (n : nat) :
  n = length xs -> skipn n (xs ++ ys) = ys.
Proof.
  intros ->. rewrite skipn_app, Nat.sub_diag, skipn_O.
  now rewrite skipn_all2.
Qed.

Section MetronomeLoop.

Variable beat : list R.
Variable samples_per_beat : Z.
Hypothesis beat_length : Z.of_nat (length beat) = samples_per_beat.

(** One turn writes the [i]-th beat over silence. *)
Lemma metronome_step (i : nat) (rest : list R) :
  metronome_turn beat samples_per_beat
    (concat (repeat beat i) ++ repeat 0%R (length beat) ++ rest) (Z.of_nat i)
  = Ok (concat (repeat beat (S i)) ++ rest).
Proof.
  unfold metronome_turn, add_slice.
  set (L := length beat) in *.
  assert (Hpre : length (concat (repeat beat i)) = (i * L)%nat)
    by apply length_concat_repeat.
  rewrite (slice_bounds_inner _ _ _) by
    (rewrite ?length_app, ?Hpre, ?repeat_length; nia).
  replace (Z.to_nat (Z.of_nat i * samples_per_beat)) with (i * L)%nat by nia.
  replace (Z.to_nat (Z.of_nat i * samples_per_beat + Z.of_nat L))
    with (i * L + L)%nat by nia.
  replace (i * L + L - i * L)%nat with L by lia.
  rewrite Nat.eqb_refl.
  rewrite (skipn_length_app (concat (repeat beat i))) by lia.
  rewrite (firstn_length_app (repeat 0%R L)) by (rewrite repeat_length; lia).
  rewrite (firstn_length_app (concat (repeat beat i))) by lia.
  rewrite (app_assoc (concat (repeat beat i)) (repeat 0%R L) rest).
  rewrite (skipn_length_app (concat (repeat beat i) ++ repeat 0%R L)) by
    (rewrite length_app, repeat_length; lia).
  unfold L. rewrite zip_with_zeros_l.
  rewrite app_assoc, concat_repeat_snoc. reflexivity.
Qed.

Lemma metronome_loop (k i : nat) (rest : list R) :
  for_each (map Z.of_nat (seq i k)) (metronome_turn beat samples_per_beat)
    (concat (repeat beat i) ++ repeat 0%R (k * length beat) ++ rest)
  = Ok (concat (repeat beat (i + k)) ++ rest).
Proof.
  revert i. induction k as [| k IH]; intros i.
  - cbn. now rewrite Nat.add_0_r.
  - cbn [seq map for_each].
    replace (S k * length beat)%nat with (length beat + k * length beat)%nat
      by lia.
    rewrite repeat_app, <- app_assoc.
    rewrite metronome_step. cbn [bind].
    rewrite IH. now rewrite Nat.add_succ_r.
Qed.

End MetronomeLoop.

Lemma samples_per_beat_of_bpm (bpm : Z) :
  0 < bpm -> samples_per_beat_of bpm = Ok (2646000 / bpm).
Proof.
  intros Hb. unfold samples_per_beat_of.
  destruct (Z.eqb_spec bpm 0); [lia |]. f_equal.
  destruct bpm as [| p | p]; try lia.
  unfold int_of_float, Qdiv, Qinv, Qmult, inject_Z, SAMPLE_RATE. cbn.
  rewrite Z.quot_div_nonneg by lia. f_equal; lia.
Qed.

Lemma length_metronome_click (t : list Q) :
  length (metronome_click t) = length t.
Proof. unfold metronome_click. apply length_map. Qed.

Lemma generate_metronome_beats (bpm num_beats : Z) :
  40 <= bpm <= 300 -> 0 <= num_beats ->
  generate_metronome bpm num_beats
  = Ok (concat
          (repeat (metronome_click click_times
                   ++ repeat 0%R (Z.to_nat (2646000 / bpm - 2205)))
             (Z.to_nat num_beats))).
Proof.
  intros Hb Hn. unfold generate_metronome.
  rewrite samples_per_beat_of_bpm by lia. cbn [bind].
  set (spb := 2646000 / bpm).
  assert (Hspb : 8820 <= spb).
  { unfold spb. apply Z.div_le_lower_bound; lia. }
  change click_samples with 2205.
  rewrite linspace_ramp by lia. cbn [bind]. fold click_times.
  assert (Hclick : length (metronome_click click_times) = Z.to_nat 2205).
  { rewrite length_metronome_click. apply length_ramp. }
  unfold np_pad_right.
  destruct (Z.ltb_spec (spb - Z.of_nat (length (metronome_click click_times))) 0);
    [lia |]. cbn [bind].
  unfold np_zeros.
  destruct (Z.ltb_spec (num_beats * spb) 0); [nia |]. cbn [bind].
  set (beat := metronome_click click_times ++ repeat 0%R _).
  assert (Hbeat : Z.of_nat (length beat) = spb).
  { unfold beat. rewrite length_app, repeat_length. lia. }
  unfold py_range.
  pose proof (metronome_loop beat spb Hbeat (Z.to_nat num_beats) 0 []) as Hloop.
  cbn [repeat concat app plus] in Hloop.
  rewrite !app_nil_r in Hloop.
  replace (Z.to_nat (num_beats * spb))
    with (Z.to_nat num_beats * length beat)%nat by nia.
  rewrite Hloop. unfold beat.
  rewrite Hclick. repeat f_equal.
Qed.

Lemma Ok_inj {A : Type} (a b : A) : Ok a = Ok b -> a = b.
Proof. intros H. now inversion H. Qed.

Lemma Some_inj {A : Type} (a b : A) : Some a = Some b -> a = b.
Proof. intros H. now inversion H. Qed.

Lemma second_click_time :
  Q2R (0 + inject_Z 1 * ((0.05 - 0) / inject_Z (2205 - 1))) = (1 / 44080)%R.
Proof. unfold Q2R. cbn. lra. Qed.

Lemma second_click_sample_positive :
  (0 < sin (2 * PI * 1000 * Q2R (0 + inject_Z 1 * ((0.05 - 0) / inject_Z (2205 - 1))))
       * exp (-10 * Q2R (0 + inject_Z 1 * ((0.05 - 0) / inject_Z (2205 - 1)))))%R.
Proof.
  rewrite second_click_time. apply Rmult_lt_0_compat; [| apply exp_pos].
  pose proof PI_RGT_0 as Hpi.
  apply sin_gt_0; lra.
Qed.

Lemma nth_error_first_beat (click pad : list R) (beats i : nat) :
  (i < length click)%nat -> (1 <= beats)%nat ->
  nth_error (concat (repeat (click ++ pad) beats)) i = nth_error click i.
Proof.
  intros Hi Hbeats. destruct beats as [| beats]; [lia |].
  cbn [repeat concat].
  rewrite nth_error_app1 by (rewrite length_app; lia).
  now apply nth_error_app1.
Qed.

(** C9.  For a tempo in [40, 300] and at least one beat, the track is the
    2205-sample click [sin(2 pi 1000 t) exp(-10 t)] followed by zeros up to
    one beat, [2646000 / bpm] samples, once per beat; but the click is at
    unit amplitude.  Its sample 1, at [t = 1 / 44080], is [sin(x) exp(y)],
    which is positive, where the click of the specification (and of
    [play_demonstration]) gives [0.3 sin(x) exp(y)]: the factor 0.3 is
    missing in [generate_metronome]. *)
Theorem generate_metronome_click_unscaled (bpm num_beats : Z) :
  40 <= bpm <= 300 -> 1 <= num_beats ->
  exists track,
    generate_metronome bpm num_beats = Ok track
    /\ track
       = beat_track (metronome_click click_times) (2646000 / bpm) num_beats
    /\ nth_error track 1
       = Some (sin (2 * PI * 1000 * (1 / 44080)) * exp (-10 * (1 / 44080)))%R
    /\ nth_error
         (beat_track (click_spec click_times) (2646000 / bpm) num_beats) 1
       = Some (0.3 * (sin (2 * PI * 1000 * (1 / 44080))
                      * exp (-10 * (1 / 44080))))%R
    /\ (0 < sin (2 * PI * 1000 * (1 / 44080)) * exp (-10 * (1 / 44080)))%R.
Proof.
  intros Hb Hn. rewrite generate_metronome_beats by lia.
  assert (Hspb : 8820 <= 2646000 / bpm) by (apply Z.div_le_lower_bound; lia).
  assert (Hclick : length (metronome_click click_times) = Z.to_nat 2205).
  { rewrite length_metronome_click. apply length_ramp. }
  assert (Hspec : length (click_spec click_times) = Z.to_nat 2205).
  { unfold click_spec. rewrite length_map. apply length_ramp. }
  eexists. split; [reflexivity |].
  split; [unfold beat_track; rewrite Hclick; do 4 f_equal; lia |].
  split; [| split].
  - rewrite nth_error_first_beat by lia.
    unfold metronome_click, click_times.
    rewrite nth_error_map, nth_error_ramp by lia. cbn [option_map].
    change (Z.of_nat 1) with 1. now rewrite second_click_time.
  - unfold beat_track. rewrite nth_error_first_beat by lia.
    unfold click_spec, click_times.
    rewrite nth_error_map, nth_error_ramp by lia. cbn [option_map].
    change (Z.of_nat 1) with 1. now rewrite second_click_time.
  - pose proof second_click_sample_positive as Hpos.
    now rewrite second_click_time in Hpos.
Qed.

Lemma generate_metronome_click_unscaled_witness :
  exists track,
    generate_metronome 120 28 = Ok track
    /\ track = beat_track (metronome_click click_times) (2646000 / 120) 28
    /\ nth_error track 1
       = Some (sin (2 * PI * 1000 * (1 / 44080)) * exp (-10 * (1 / 44080)))%R
    /\ nth_error (beat_track (click_spec click_times) (2646000 / 120) 28) 1
       = Some (0.3 * (sin (2 * PI * 1000 * (1 / 44080))
                      * exp (-10 * (1 / 44080))))%R
    /\ (0 < sin (2 * PI * 1000 * (1 / 44080)) * exp (-10 * (1 / 44080)))%R.
Proof. apply (generate_metronome_click_unscaled 120 28); lia. Defined.

(** ** [detect_fundamental_frequency]: short and silent segments *)

Lemma flt_nan_r (a : npfloat) : flt a NaN = false.
Proof. destruct a; reflexivity. Qed.

Lemma fsum_from_nan (xs : list npfloat) : fold_left fadd xs NaN = NaN.
Proof. induction xs as [| x xs IH]; cbn; [reflexivity | exact IH]. Qed.

Lemma fsum_nan (m : nat) : fsum (repeat NaN (S m)) = NaN.
Proof. unfold fsum. cbn. apply fsum_from_nan. Qed.

Lemma zip_with_fmul_nan (k : nat) (ys : list npfloat) :
  zip_with fmul (repeat NaN k) ys = repeat NaN (Nat.min k (length ys)).
Proof.
  revert ys. induction k as [| k IH]; intros [| y ys]; cbn; try reflexivity.
  now rewrite IH.
Qed.

Lemma nth_all_nan (x : list npfloat) (i : nat) :
  Forall (eq NaN) x -> nth i x NaN = NaN.
Proof.
  intros H. revert i. induction H as [| y x Hy Hx IH]; intros [| i]; cbn; auto.
Qed.

(** On an array of [nan] no sample is greater than its predecessor, so the
    scan of [_local_maxima_1d] finds nothing. *)
Lemma local_maxima_from_nan (x : list npfloat) (i_max i fuel : nat) :
  Forall (eq NaN) x -> local_maxima_from x i_max i fuel = [].
Proof.
  intros Hx. revert i.
  induction fuel as [| fuel IH]; intros i; cbn [local_maxima_from];
    [reflexivity |].
  destruct (i <? i_max)%nat; [| reflexivity].
  rewrite (nth_all_nan x i Hx), flt_nan_r. apply IH.
Qed.

Lemma find_peaks_nan (x : list npfloat) (height : R) :
  Forall (eq NaN) x -> find_peaks x height = [].
Proof.
  intros Hx. unfold find_peaks, local_maxima_1d.
  now rewrite local_maxima_from_nan.
Qed.

Lemma np_max_abs_silent (a : list R) :
  a <> [] -> Forall (eq 0%R) a -> np_max_abs a = Ok 0%R.
Proof.
  intros Hne Ha. destruct Ha as [| x a Hx Ha]; [contradiction |].
  cbn. subst x. rewrite Rabs_R0. f_equal. clear Hne.
  induction Ha as [| y a Hy Ha IH]; cbn; [reflexivity |].
  subst y. rewrite Rabs_R0. unfold Rmax at 2.
  destruct (Rle_dec 0 0); exact IH.
Qed.

Lemma np_divide_0_0 : np_divide 0 0 = NaN.
Proof.
  unfold np_divide.
  destruct (Req_dec_T 0 0) as [_ | H]; [| contradiction].
  reflexivity.
Qed.

Lemma normalise_silent (a : list R) :
  Forall (eq 0%R) a ->
  map (fun x => np_divide x 0) a = repeat NaN (length a).
Proof.
  induction 1 as [| x a Hx Ha IH]; cbn; [reflexivity |].
  subst x. now rewrite np_divide_0_0, IH.
Qed.

Lemma length_hanning (M : Z) : length (hanning M) = Z.to_nat M.
Proof.
  unfold hanning.
  destruct (Z.ltb_spec M 1); [cbn; lia |].
  destruct (Z.eqb_spec M 1) as [-> | H1]; [reflexivity |].
  now rewrite length_map, length_seq.
Qed.

Lemma correlate_lag_nan (n : nat) (k : Z) :
  - Z.of_nat n < k < Z.of_nat n ->
  correlate_lag (repeat NaN n) (repeat NaN n) k = NaN.
Proof.
  intros Hk. unfold correlate_lag.
  destruct (Z.ltb_spec k 0).
  - rewrite skipn_repeat, zip_with_fmul_nan, repeat_length.
    destruct (Nat.min n (n - Z.to_nat (- k))) as [| m] eqn:E; [lia |].
    apply fsum_nan.
  - rewrite skipn_repeat, zip_with_fmul_nan, repeat_length.
    destruct (Nat.min (n - Z.to_nat k) n) as [| m] eqn:E; [lia |].
    apply fsum_nan.
Qed.

Lemma correlate_full_nan (n : nat) :
  (0 < n)%nat ->
  exists c, correlate_full (repeat NaN n) (repeat NaN n) = Ok c
            /\ Forall (eq NaN) c.
Proof.
  intros Hn. destruct n as [| n]; [lia |].
  eexists. split.
  - cbn [repeat correlate_full]. reflexivity.
  - change (NaN :: repeat NaN n) with (repeat NaN (S n)).
    rewrite repeat_length.
    apply Forall_forall. intros y Hy.
    apply in_map_iff in Hy. destruct Hy as (j & <- & Hj).
    unfold py_range in Hj. apply in_map_iff in Hj.
    destruct Hj as (i & <- & Hi). apply in_seq in Hi.
    symmetry. apply correlate_lag_nan. lia.
Qed.

Lemma Forall_skipn {A : Type} (P : A -> Prop) (k : nat) (l : list A) :
  Forall P l -> Forall P (skipn k l).
Proof.
  intros H. revert k. induction H as [| x l Hx Hl IH]; intros [| k]; cbn; auto.
Qed.

Lemma detect_short (audio_data : list R) :
  Z.of_nat (length audio_data) < CHUNK_SIZE ->
  detect_fundamental_frequency audio_data = Ok None.
Proof.
  intros Hs. unfold detect_fundamental_frequency.
  destruct (Z.ltb_spec (Z.of_nat (length audio_data)) CHUNK_SIZE);
    [reflexivity | lia].
Qed.

(** Silence of a chunk or more: the peak is 0, the normalisation yields
    [nan] throughout, so does the autocorrelation, and the peak search finds
    nothing. *)
Lemma detect_silent (audio_data : list R) :
  CHUNK_SIZE <= Z.of_nat (length audio_data) ->
  Forall (eq 0%R) audio_data ->
  detect_fundamental_frequency audio_data = Ok None.
Proof.
  intros Hl Hsilent. unfold detect_fundamental_frequency.
  destruct (Z.ltb_spec (Z.of_nat (length audio_data)) CHUNK_SIZE); [lia |].
  unfold CHUNK_SIZE in Hl.
  rewrite np_max_abs_silent; [| intros ->; cbn in Hl; lia | exact Hsilent].
  cbn [bind].
  rewrite normalise_silent by exact Hsilent. rewrite repeat_length.
  rewrite zip_with_fmul_nan, length_map, length_hanning, Nat2Z.id, Nat.min_id.
  destruct (correlate_full_nan (length audio_data)) as (c & -> & Hc); [lia |].
  cbn [bind].
  rewrite find_peaks_nan by (apply Forall_skipn; exact Hc).
  reflexivity.
Qed.

(** C4.  A segment shorter than one chunk, and any segment of zeros, gives
    no detection and no exception. *)
Theorem detect_nothing_when_short_or_silent (audio_data : list R) :
  Z.of_nat (length audio_data) < CHUNK_SIZE \/ Forall (eq 0%R) audio_data ->
  detect_fundamental_frequency audio_data = Ok None.
Proof.
  intros [Hshort | Hsilent].
  - now apply detect_short.
  - destruct (Z_lt_le_dec (Z.of_nat (length audio_data)) CHUNK_SIZE)
      as [Hshort | Hlong].
    + now apply detect_short.
    + now apply detect_silent.
Qed.

Lemma detect_nothing_when_short_or_silent_witness :
  detect_fundamental_frequency (repeat 0%R 2000) = Ok None.
Proof.
  apply (detect_nothing_when_short_or_silent (repeat 0%R 2000)).
  right. apply Forall_forall. intros x Hx. apply repeat_spec in Hx. now subst.
Defined.

(** ** [detect_fundamental_frequency]: finite signals *)

Lemma fold_left_Rplus_acc (l : list R) (a : R) :
  fold_left Rplus l a = (a + fold_left Rplus l 0)%R.
Proof.
  revert a. induction l as [| x l IH]; intros a; cbn; [lra |].
  rewrite (IH (a + x)%R), (IH (0 + x)%R). lra.
Qed.

Lemma rsum_cons (x : R) (l : list R) : rsum (x :: l) = (x + rsum l)%R.
Proof. unfold rsum. cbn. rewrite fold_left_Rplus_acc. lra. Qed.

Lemma rsum_nonneg (l : list R) : Forall (Rle 0) l -> (0 <= rsum l)%R.
Proof.
  induction 1 as [| x l Hx Hl IH]; [unfold rsum; cbn; lra |].
  rewrite rsum_cons. lra.
Qed.

(** A sum whose terms vanish away from index [p] is its term at [p]. *)
Lemma rsum_single (l : list R) (p : nat) :
  (forall i, i <> p -> nth i l 0%R = 0%R) -> rsum l = nth p l 0%R.
Proof.
  revert p. induction l as [| x l IH]; intros p H.
  - destruct p; reflexivity.
  - rewrite rsum_cons. destruct p as [| p].
    + rewrite (IH (length l)).
      * rewrite nth_overflow by lia. cbn. lra.
      * intros i _. apply (H (S i)). lia.
    + rewrite (IH p).
      * specialize (H 0%nat). cbn in H. cbn. rewrite H by lia. lra.
      * intros i Hi. apply (H (S i)). lia.
Qed.

Lemma rsum_zero (l : list R) :
  (forall i, nth i l 0%R = 0%R) -> rsum l = 0%R.
Proof.
  intros H. rewrite (rsum_single l (length l)).
  - apply nth_overflow. lia.
  - intros i _. apply H.
Qed.

Lemma nth_zip_with_Rmult (xs ys : list R) (i : nat) :
  nth i (zip_with Rmult xs ys) 0%R = (nth i xs 0 * nth i ys 0)%R.
Proof.
  revert ys i. induction xs as [| x xs IH]; intros ys i.
  - cbn. destruct i; lra.
  - destruct ys as [| y ys].
    + cbn. destruct i; cbn; lra.
    + destruct i as [| i]; cbn; [reflexivity | apply IH].
Qed.

(** Arrays of finite values: the float operations are the real ones. *)
Lemma zip_with_fmul_Fin (xs ys : list R) :
  zip_with fmul (map Fin xs) (map Fin ys) = map Fin (zip_with Rmult xs ys).
Proof.
  revert ys. induction xs as [| x xs IH]; intros [| y ys]; cbn; try reflexivity.
  now rewrite IH.
Qed.

Lemma fsum_Fin (xs : list R) : fsum (map Fin xs) = Fin (rsum xs).
Proof.
  unfold fsum, rsum. generalize 0%R.
  induction xs as [| x xs IH]; intros a; cbn; [reflexivity | apply IH].
Qed.

Lemma correlate_lag_Fin (z : list R) (k : nat) :
  correlate_lag (map Fin z) (map Fin z) (Z.of_nat k)
  = Fin (lag_sum z k).
Proof.
  unfold correlate_lag, lag_sum.
  destruct (Z.ltb_spec (Z.of_nat k) 0); [lia |].
  rewrite Nat2Z.id, skipn_map, zip_with_fmul_Fin. apply fsum_Fin.
Qed.

Lemma correlate_full_nonempty (a v : list npfloat) :
  a <> [] -> v <> [] ->
  correlate_full a v
  = Ok (map (fun j => correlate_lag a v (j - (Z.of_nat (length v) - 1)))
          (py_range (Z.of_nat (length a) + Z.of_nat (length v) - 1))).
Proof.
  intros Ha Hv. destruct a; [contradiction |]. destruct v; [contradiction |].
  reflexivity.
Qed.

Lemma seq_shift_from (s n : nat) : seq s n = map (fun k => (s + k)%nat) (seq 0 n).
Proof.
  revert s. induction n as [| n IH]; intros s; cbn; [reflexivity |].
  rewrite Nat.add_0_r. f_equal.
  rewrite (IH (S s)), (IH 1%nat), map_map. apply map_ext.
  intros k. lia.
Qed.

(** The half of the autocorrelation that [detect_fundamental_frequency]
    keeps: lags [0 .. n-1]. *)
Lemma correlation_half_Fin (z : list R) :
  z <> [] ->
  exists c,
    correlate_full (map Fin z) (map Fin z) = Ok c
    /\ skipn (length c / 2) c
       = map (fun k => Fin (lag_sum z k)) (seq 0 (length z)).
Proof.
  intros Hz.
  assert (Hz' : map Fin z <> []) by (destruct z; [contradiction | discriminate]).
  set (n := length z).
  assert (Hn : (1 <= n)%nat) by (unfold n; destruct z; [contradiction | cbn; lia]).
  eexists. split; [apply correlate_full_nonempty; exact Hz' |].
  rewrite !length_map. fold n.
  unfold py_range. rewrite length_map, length_seq.
  replace (Z.to_nat (Z.of_nat n + Z.of_nat n - 1)) with (n - 1 + n)%nat by lia.
  replace ((n - 1 + n) / 2)%nat with (n - 1)%nat.
  2:{ apply Nat.div_unique with (r := 1%nat); lia. }
  rewrite map_map, skipn_map, skipn_seq.
  replace (n - 1 + n - (n - 1))%nat with n by lia.
  rewrite Nat.add_0_l.
  rewrite (seq_shift_from (n - 1) n).
  rewrite map_map. apply map_ext. intros k.
  replace (Z.of_nat (n - 1 + k) - (Z.of_nat n - 1)) with (Z.of_nat k) by lia.
  apply correlate_lag_Fin.
Qed.

Lemma flt_Fin_lt (a b : R) : (a < b)%R -> flt (Fin a) (Fin b) = true.
Proof. intros H. cbn. destruct (Rlt_dec a b); [reflexivity | contradiction]. Qed.

Lemma flt_Fin_ge (a b : R) : (b <= a)%R -> flt (Fin a) (Fin b) = false.
Proof. intros H. cbn. destruct (Rlt_dec a b); [lra | reflexivity]. Qed.

Lemma feq_Fin_neq (a b : R) : a <> b -> feq (Fin a) (Fin b) = false.
Proof. intros H. cbn. destruct (Req_dec_T a b); [contradiction | reflexivity]. Qed.

Lemma fle_Fin_le (a b : R) : (a <= b)%R -> fle (Fin a) (Fin b) = true.
Proof.
  intros H. unfold fle. cbn.
  destruct (Rlt_dec a b); [reflexivity |].
  destruct (Req_dec_T a b); [reflexivity | lra].
Qed.

Section SinglePeak.

(** A correlation that is non-negative at lag 0, zero at every other lag but
    [K], and at least the height threshold at [K]. *)
Variable cv : nat -> R.
Variable n K : nat.
Hypothesis K_inside : (2 <= K)%nat /\ (K + 1 < n)%nat.
Hypothesis cv_0 : (0 <= cv 0)%R.
Hypothesis cv_else : forall k, (1 <= k)%nat -> k <> K -> cv k = 0%R.
Hypothesis cv_K : (0.1 <= cv K)%R.

Variable c : list npfloat.
Hypothesis c_def : c = map (fun k => Fin (cv k)) (seq 0 n).

Lemma nth_correlation (i : nat) : (i < n)%nat -> nth i c NaN = Fin (cv i).
Proof.
  intros Hi. rewrite c_def.
  rewrite (nth_indep _ NaN (Fin (cv 0))) by (rewrite length_map, length_seq; lia).
  rewrite (map_nth (fun k => Fin (cv k)) (seq 0 n) 0%nat i).
  now rewrite seq_nth.
Qed.

Lemma scan_before_peak (d i fuel : nat) :
  (1 <= i)%nat -> (i + d = K)%nat -> (d < fuel)%nat ->
  local_maxima_from c (n - 1) i fuel
  = K :: local_maxima_from c (n - 1) (K + 1 + 1) (fuel - d - 1).
Proof.
  revert i fuel. induction d as [| d IH]; intros i fuel Hi Hd Hfuel.
  - destruct fuel as [| fuel]; [lia |]. cbn [local_maxima_from].
    rewrite Nat.add_0_r in Hd. subst i.
    destruct (Nat.ltb_spec K (n - 1)); [| lia].
    rewrite !nth_correlation by lia.
    rewrite (cv_else (K - 1)) by lia.
    rewrite flt_Fin_lt by lra.
    assert (Hend : plateau_end c (n - 1) (Fin (cv K)) (K + 1) (length c) = (K + 1)%nat).
    { destruct (length c) as [| f] eqn:E; [reflexivity |]. cbn [plateau_end].
      rewrite nth_correlation by lia. rewrite (cv_else (K + 1)) by lia.
      rewrite feq_Fin_neq by lra. now rewrite andb_false_r. }
    rewrite Hend. rewrite nth_correlation by lia.
    rewrite (cv_else (K + 1)) by lia. rewrite flt_Fin_lt by lra.
    replace (K + (K + 1 - 1))%nat with (K * 2)%nat by lia.
    rewrite Nat.div_mul by lia.
    replace (S fuel - 0 - 1)%nat with fuel by lia. reflexivity.
  - destruct fuel as [| fuel]; [lia |]. cbn [local_maxima_from].
    destruct (Nat.ltb_spec i (n - 1)); [| lia].
    rewrite !nth_correlation by lia.
    rewrite (cv_else i) by lia.
    assert (Hprev : (0 <= cv (i - 1))%R).
    { destruct (Nat.eq_dec i 1) as [-> | Hne]; [exact cv_0 |].
      rewrite cv_else by lia. lra. }
    rewrite flt_Fin_ge by exact Hprev.
    rewrite (IH (i + 1)%nat fuel) by lia.
    replace (S fuel - S d - 1)%nat with (fuel - d - 1)%nat by lia. reflexivity.
Qed.

Lemma find_peaks_single_peak :
  exists later, find_peaks c 0.1 = K :: later.
Proof.
  unfold find_peaks, local_maxima_1d.
  assert (Hlen : length c = n) by (rewrite c_def; now rewrite length_map, length_seq).
  rewrite Hlen.
  rewrite (scan_before_peak (K - 1) 1 n) by lia.
  cbn [filter]. rewrite nth_correlation by lia.
  rewrite fle_Fin_le by exact cv_K. eexists. reflexivity.
Qed.

End SinglePeak.

Lemma nth_hanning (n i : nat) :
  (2 <= n)%nat -> (i < n)%nat ->
  nth i (hanning (Z.of_nat n)) 0%R = hann_at n i.
Proof.
  intros Hn Hi. unfold hanning.
  destruct (Z.ltb_spec (Z.of_nat n) 1); [lia |].
  destruct (Z.eqb_spec (Z.of_nat n) 1); [lia |].
  rewrite Nat2Z.id.
  rewrite (nth_indep _ 0%R (hann_at n 0)) by (rewrite length_map, length_seq; lia).
  unfold hann_at at 1.
  rewrite (map_nth (fun k => (0.5 - 0.5 * cos (2 * PI * INR k / IZR (Z.of_nat n - 1)))%R)
             (seq 0 n) 0%nat i).
  now rewrite seq_nth.
Qed.

Lemma fold_left_Rmax_unit (l : list R) (a : R) :
  (0 <= a <= 1)%R -> Forall (fun v => 0 <= v <= 1)%R l ->
  a = 1%R \/ In 1%R l ->
  fold_left Rmax l a = 1%R.
Proof.
  intros Ha Hl. revert a Ha.
  induction Hl as [| v l Hv Hl IH]; intros a Ha H1.
  - destruct H1 as [-> | []]. reflexivity.
  - cbn. apply IH.
    + unfold Rmax. destruct (Rle_dec a v); lra.
    + destruct H1 as [-> | [-> | Hin]].
      * left. unfold Rmax. destruct (Rle_dec 1 v); lra.
      * left. unfold Rmax. destruct (Rle_dec a 1); lra.
      * right. exact Hin.
Qed.

Lemma Forall_zip_self_nonneg (z : list R) :
  Forall (Rle 0) (zip_with Rmult z z).
Proof. induction z as [| x z IH]; cbn; constructor; [nra | exact IH]. Qed.

Section TwoImpulses.

Variables A G B n K : nat.
Hypothesis n_def : n = (A + G + B + 2)%nat.
Hypothesis K_def : K = (G + 1)%nat.
Hypothesis long_enough : CHUNK_SIZE <= Z.of_nat n.
Hypothesis apart : (1 <= G)%nat.
Hypothesis inside : (1 <= A + B)%nat.
Hypothesis window_height : (0.1 <= hann_at n (A + K) * hann_at n A)%R.

Variable x : list R.
Hypothesis x_def : x = two_impulses A G B.

Lemma length_two_impulses : length x = n.
Proof.
  rewrite x_def, n_def. unfold two_impulses. rewrite !length_app, !repeat_length. cbn. lia.
Qed.

Lemma nth_two_impulses (i : nat) :
  nth i x 0%R = if (Nat.eqb i A || Nat.eqb i (A + K))%bool then 1%R else 0%R.
Proof.
  rewrite x_def, K_def. unfold two_impulses.
  destruct (Nat.lt_ge_cases i A) as [H1 | H1].
  { rewrite app_nth1 by (rewrite repeat_length; lia).
    rewrite nth_repeat.
    destruct (Nat.eqb_spec i A); [lia |].
    destruct (Nat.eqb_spec i (A + (G + 1))); [lia | reflexivity]. }
  rewrite app_nth2; rewrite repeat_length; [| lia].
  destruct (Nat.eq_dec i A) as [-> | H2].
  { rewrite Nat.sub_diag, Nat.eqb_refl. reflexivity. }
  destruct (Nat.eqb_spec i A); [lia |].
  replace (i - A)%nat with (S (i - A - 1)) by lia. cbn [app nth].
  destruct (Nat.lt_ge_cases (i - A - 1) G) as [H3 | H3].
  { rewrite app_nth1 by (rewrite repeat_length; lia).
    rewrite nth_repeat.
    destruct (Nat.eqb_spec i (A + (G + 1))); [lia | reflexivity]. }
  rewrite app_nth2; rewrite repeat_length; [| lia].
  destruct (Nat.eq_dec i (A + (G + 1))) as [-> | H4].
  { rewrite Nat.eqb_refl. replace (A + (G + 1) - A - 1 - G)%nat with 0%nat by lia.
    reflexivity. }
  destruct (Nat.eqb_spec i (A + (G + 1))); [lia |].
  replace (i - A - 1 - G)%nat with (S (i - A - 1 - G - 1)) by lia. cbn [nth orb].
  apply nth_repeat.
Qed.

Lemma np_max_abs_two_impulses : np_max_abs x = Ok 1%R.
Proof.
  assert (Hall : Forall (fun v => 0 <= v <= 1)%R (map Rabs x)).
  { apply Forall_forall. intros v Hv. apply in_map_iff in Hv.
    destruct Hv as (u & <- & Hu). rewrite x_def in Hu. unfold two_impulses in Hu.
    repeat (apply in_app_or in Hu; destruct Hu as [Hu | Hu]);
      try (apply repeat_spec in Hu; subst u; rewrite Rabs_R0; lra);
      destruct Hu as [<- | []]; rewrite Rabs_R1; lra. }
  assert (Hin : In 1%R (map Rabs x)).
  { apply in_map_iff. exists 1%R. split; [apply Rabs_R1 |].
    rewrite x_def. unfold two_impulses. apply in_or_app. right. left. reflexivity. }
  unfold np_max_abs. destruct x as [| v l] eqn:E; [destruct Hin |].
  cbn [map] in Hall, Hin. inversion Hall as [| ? ? Hv Hl]; subst.
  f_equal. apply fold_left_Rmax_unit; [exact Hv | exact Hl |].
  destruct Hin as [Hin | Hin]; [left; now symmetry | right; exact Hin].
Qed.

(** The normalised, windowed signal. *)
Variable z : list R.
Hypothesis z_def : z = zip_with Rmult x (hanning (Z.of_nat n)).

Lemma length_windowed : length z = n.
Proof.
  rewrite z_def.
  assert (H : forall (a b : list R), length a = length b ->
                length (zip_with Rmult a b) = length a).
  { induction a as [| u a IH]; intros [| v b] Hl; cbn in *; try lia.
    now rewrite IH by lia. }
  rewrite H; [apply length_two_impulses |].
  rewrite length_two_impulses, length_hanning. lia.
Qed.

Lemma nth_windowed (i : nat) :
  nth i z 0%R
  = if (Nat.eqb i A || Nat.eqb i (A + K))%bool then hann_at n i else 0%R.
Proof.
  rewrite z_def. rewrite nth_zip_with_Rmult, nth_two_impulses.
  destruct (Nat.eqb_spec i A) as [-> | H1]; cbn [orb].
  - rewrite nth_hanning by (unfold CHUNK_SIZE in *; lia). lra.
  - destruct (Nat.eqb_spec i (A + K)) as [-> | H2].
    + rewrite nth_hanning by (unfold CHUNK_SIZE in *; lia). lra.
    + lra.
Qed.

Lemma nth_lag_products (k i : nat) :
  nth i (zip_with Rmult (skipn k z) z) 0%R = (nth (k + i) z 0 * nth i z 0)%R.
Proof. now rewrite nth_zip_with_Rmult, nth_skipn. Qed.

Lemma correlation_lag_0 : (0 <= lag_sum z 0)%R.
Proof. unfold lag_sum. cbn [skipn]. apply rsum_nonneg, Forall_zip_self_nonneg. Qed.

Lemma correlation_off_peak (k : nat) :
  (1 <= k)%nat -> k <> K -> lag_sum z k = 0%R.
Proof.
  intros Hk HK. unfold lag_sum. apply rsum_zero. intros i.
  rewrite nth_lag_products, !nth_windowed.
  destruct (Nat.eqb_spec i A) as [-> | H1]; cbn [orb].
  - destruct (Nat.eqb_spec (k + A) A); [lia |].
    destruct (Nat.eqb_spec (k + A) (A + K)); [lia |]. cbn [orb]. lra.
  - destruct (Nat.eqb_spec i (A + K)) as [-> | H2]; [| lra].
    destruct (Nat.eqb_spec (k + (A + K)) A); [lia |].
    destruct (Nat.eqb_spec (k + (A + K)) (A + K)); [lia |]. cbn [orb]. lra.
Qed.

Lemma correlation_at_peak : lag_sum z K = (hann_at n (A + K) * hann_at n A)%R.
Proof.
  unfold lag_sum. rewrite (rsum_single _ A).
  - rewrite nth_lag_products, !nth_windowed.
    rewrite Nat.eqb_refl. cbn [orb].
    replace (K + A)%nat with (A + K)%nat by lia.
    rewrite Nat.eqb_refl, orb_true_r. reflexivity.
  - intros i Hi. rewrite nth_lag_products, !nth_windowed.
    destruct (Nat.eqb_spec i A); [lia |]. cbn [orb].
    destruct (Nat.eqb_spec i (A + K)) as [-> | H2]; [| lra].
    destruct (Nat.eqb_spec (K + (A + K)) A); [lia |].
    destruct (Nat.eqb_spec (K + (A + K)) (A + K)); [lia |].
    cbn [orb]. lra.
Qed.

(** Two unit impulses [K] samples apart are heard as the pitch of period
    [K]. *)
Lemma detect_two_impulses :
  detect_fundamental_frequency x = Ok (Some (IZR SAMPLE_RATE / INR K)%R).
Proof.
  unfold detect_fundamental_frequency.
  rewrite length_two_impulses.
  destruct (Z.ltb_spec (Z.of_nat n) CHUNK_SIZE); [lia |].
  rewrite np_max_abs_two_impulses. cbn [bind].
  rewrite length_map, length_two_impulses.
  assert (Hnorm : map (fun v => np_divide v 1) x = map Fin x).
  { apply map_ext. intros v. unfold np_divide.
    destruct (Req_dec_T 1 0); [lra |]. now rewrite Rdiv_1_r. }
  rewrite Hnorm, zip_with_fmul_Fin, <- z_def.
  destruct (correlation_half_Fin z) as (c & -> & Hhalf).
  { intros E. pose proof length_windowed as Hl. rewrite E in Hl.
    cbn in Hl. lia. }
  cbn [bind]. rewrite Hhalf, length_windowed.
  destruct (find_peaks_single_peak (lag_sum z) n K) with
    (c := map (fun k => Fin (lag_sum z k)) (seq 0 n)) as (later & Hpeaks).
  - lia.
  - apply correlation_lag_0.
  - apply correlation_off_peak.
  - rewrite correlation_at_peak. exact window_height.
  - reflexivity.
  - rewrite Hpeaks. reflexivity.
Qed.

End TwoImpulses.

(** In the middle half of the window the Hann weight is at least one half. *)
Lemma hann_at_middle (n i : nat) :
  (2 <= n)%nat ->
  Z.of_nat n - 1 <= 4 * Z.of_nat i <= 3 * (Z.of_nat n - 1) ->
  (0.5 <= hann_at n i)%R.
Proof.
  intros Hn [Hlo Hhi]. unfold hann_at.
  set (m := IZR (Z.of_nat n - 1)).
  assert (Hm : (0 < m)%R) by (apply IZR_lt; lia).
  rewrite INR_IZR_INZ. set (t := IZR (Z.of_nat i)).
  assert (Ht1 : (m <= 4 * t)%R).
  { unfold m, t. rewrite <- mult_IZR. apply IZR_le. lia. }
  assert (Ht2 : (4 * t <= 3 * m)%R).
  { unfold m, t. rewrite <- !mult_IZR. apply IZR_le. lia. }
  pose proof PI_RGT_0 as Hpi.
  assert (Hr : (1 / 4 <= t / m <= 3 / 4)%R).
  { assert (E : (t / m * m = t)%R) by (field; lra).
    set (r := (t / m)%R) in *. split; nra. }
  replace (2 * PI * t / m)%R with (2 * PI * (t / m))%R by (field; lra).
  assert (Hcos : (cos (2 * PI * (t / m)) <= 0)%R).
  { apply cos_le_0; nra. }
  lra.
Qed.

Lemma detect_impulses (A G B : nat) :
  CHUNK_SIZE <= Z.of_nat (A + G + B + 2) ->
  (1 <= G)%nat -> (1 <= A + B)%nat ->
  (0.1 <= hann_at (A + G + B + 2) (A + (G + 1)) * hann_at (A + G + B + 2) A)%R ->
  detect_fundamental_frequency (two_impulses A G B)
  = Ok (Some (IZR SAMPLE_RATE / INR (G + 1))%R).
Proof.
  intros Hlong Hapart Hinside Hheight.
  exact (detect_two_impulses A G B _ _ eq_refl eq_refl Hlong Hapart Hinside
           Hheight _ eq_refl _ eq_refl).
Qed.

Lemma detect_impulse_beat :
  detect_fundamental_frequency (two_impulses (Z.to_nat 10824) 400 (Z.to_nat 10824))
  = Ok (Some (44100 / 401)%R).
Proof.
  rewrite detect_impulses.
  - unfold SAMPLE_RATE. do 3 f_equal. rewrite INR_IZR_INZ. reflexivity.
  - unfold CHUNK_SIZE. lia.
  - lia.
  - lia.
  - assert (H1 : (0.5 <= hann_at (Z.to_nat 10824 + 400 + Z.to_nat 10824 + 2)
                           (Z.to_nat 10824 + (400 + 1)))%R)
      by (apply hann_at_middle; lia).
    assert (H2 : (0.5 <= hann_at (Z.to_nat 10824 + 400 + Z.to_nat 10824 + 2)
                           (Z.to_nat 10824))%R)
      by (apply hann_at_middle; lia).
    nra.
Qed.

(** ** [find_closest_note] *)

Lemma py_round_IZR (z : Z) : py_round (IZR z) = z.
Proof.
  unfold py_round.
  destruct (Int_part_frac_part_spec (IZR z) z 0) as [Hi Hf]; [lra | lra |].
  rewrite <- Hi, <- Hf.
  destruct (Rlt_dec 0 (1 / 2)) as [_ | H]; [reflexivity | lra].
Qed.

Lemma log2_1 : log2 1 = 0%R.
Proof. unfold log2. rewrite ln_1. lra. Qed.

Lemma semitones_of_A440 : py_round (12 * log2 (440 / 440.0)) = 0.
Proof.
  replace (440 / 440.0)%R with 1%R by lra.
  rewrite log2_1, Rmult_0_r. apply (py_round_IZR 0).
Qed.

(** C7, at the reference pitch.  The table anchored at A is indexed with
    [(semitones + 9) % 12], so 440 Hz (zero semitones from A4) is named by
    entry 9: the function returns "F#4", not "A4". *)
Theorem find_closest_note_440 : find_closest_note 440 = Ok "F#4".
Proof.
  unfold find_closest_note.
  destruct (Req_dec_T 440 0) as [H | _]; [lra |].
  destruct (Rlt_dec 440 0) as [H | _]; [lra |].
  rewrite semitones_of_A440. reflexivity.
Qed.

(** The octave of the same computation is the right one: what is off is the
    pitch class only. *)
Lemma find_closest_note_of_semitones (frequency : R) :
  (0 < frequency)%R ->
  find_closest_note frequency =
  let s := py_round (12 * log2 (frequency / 440.0)) in
  Ok (nth (Z.to_nat ((s + 9) mod 12)) note_table "" ++ str_of_Z (4 + (s + 9) / 12))%string.
Proof.
  intros Hf. unfold find_closest_note.
  destruct (Req_dec_T frequency 0) as [H | _]; [lra |].
  destruct (Rlt_dec frequency 0) as [H | _]; [lra |].
  reflexivity.
Qed.

(** ** Scoring a recording *)

Lemma ln_le (x y : R) : (0 < x)%R -> (x <= y)%R -> (ln x <= ln y)%R.
Proof.
  intros Hx [Hlt | ->]; [| lra].
  left. now apply ln_increasing.
Qed.

(** Twelve times the base-2 logarithm of the ratio of the impulse pitch to
    the open sixth string: between 4.5 and 5.5 semitones. *)
Lemma pow_24_low : (2 ^ 9 <= (13 / 10) ^ 24)%R.
Proof. lra. Qed.
Lemma pow_24_high : ((27 / 20) ^ 24 <= 2 ^ 11)%R.
Proof. lra. Qed.

Lemma semitones_from_open_string :
  (4.5 <= 12 * log2 (44100 / 401 / 82.41) <= 5.5)%R.
Proof.
  set (r := (44100 / 401 / 82.41)%R).
  assert (Hr : (13 / 10 <= r <= 27 / 20)%R) by (unfold r; lra).
  assert (Hln2 : (0 < ln 2)%R) by (rewrite <- ln_1; apply ln_increasing; lra).
  assert (Hlo : (9 * ln 2 <= 24 * ln r)%R).
  { apply Rle_trans with (24 * ln (13 / 10))%R.
    - replace 9%R with (INR 9) by (simpl; lra).
      replace 24%R with (INR 24) by (simpl; lra).
      rewrite <- !ln_pow by lra. apply ln_le; [lra | apply pow_24_low].
    - apply Rmult_le_compat_l; [lra |]. apply ln_le; lra. }
  assert (Hhi : (24 * ln r <= 11 * ln 2)%R).
  { apply Rle_trans with (24 * ln (27 / 20))%R.
    - apply Rmult_le_compat_l; [lra |]. apply ln_le; lra.
    - replace 11%R with (INR 11) by (simpl; lra).
      replace 24%R with (INR 24) by (simpl; lra).
      rewrite <- !ln_pow by lra. apply ln_le; [lra | apply pow_24_high]. }
  unfold log2.
  assert (E : (ln r / ln 2 * ln 2 = ln r)%R) by (field; lra).
  set (l := (ln r / ln 2)%R) in *. split; nra.
Qed.

Lemma for_each_map {A B S : Type} (g : A -> B) (body : S -> B -> result S)
  (xs : list A) (s : S) :
  for_each (map g xs) body s = for_each xs (fun s x => body s (g x)) s.
Proof.
  revert s. induction xs as [| x xs IH]; intros s; cbn; [reflexivity |].
  destruct (body s (g x)); cbn; [apply IH | reflexivity].
Qed.

Lemma for_each_ext {A S : Type} (body1 body2 : S -> A -> result S)
  (xs : list A) (s : S) :
  (forall s x, body1 s x = body2 s x) ->
  for_each xs body1 s = for_each xs body2 s.
Proof.
  intros H. revert s. induction xs as [| x xs IH]; intros s; cbn; [reflexivity |].
  rewrite H. destruct (body2 s x); cbn; [apply IH | reflexivity].
Qed.

Lemma py_range3_up (stop step : Z) :
  0 < step ->
  py_range3 0 stop step
  = Ok (map (fun k => 0 + Z.of_nat k * step)
          (seq 0 (Z.to_nat ((stop - 0 + step - 1) / step)))).
Proof.
  intros H. unfold py_range3.
  destruct (Z.eqb_spec step 0); [lia |].
  destruct (Z.ltb_spec 0 step); [reflexivity | lia].
Qed.

Lemma get_slice_first {A : Type} (w rest : list A) :
  get_slice (w ++ rest) (Some 0) (Some (0 + Z.of_nat (length w))) = w.
Proof.
  unfold get_slice.
  rewrite slice_bounds_inner by (rewrite ?length_app; lia).
  cbn [Z.to_nat skipn]. rewrite Z.add_0_l, Nat2Z.id, Nat.sub_0_r.
  now apply firstn_length_app.
Qed.

Lemma get_slice_later {A : Type} (w rest : list A) (a b : Z) :
  0 <= a -> 0 <= b ->
  get_slice (w ++ rest) (Some (Z.of_nat (length w) + a))
    (Some (Z.of_nat (length w) + a + b))
  = get_slice rest (Some a) (Some (a + b)).
Proof.
  intros Ha Hb. unfold get_slice, slice_bounds, slice_index.
  rewrite length_app.
  set (m := length w). set (l := length rest).
  destruct (Z.ltb_spec (Z.of_nat m + a) 0); [lia |].
  destruct (Z.ltb_spec (Z.of_nat m + a + b) 0); [lia |].
  destruct (Z.ltb_spec a 0); [lia |].
  destruct (Z.ltb_spec (a + b) 0); [lia |].
  replace (Z.to_nat (Z.min (Z.of_nat m + a) (Z.of_nat (m + l))))
    with (m + Z.to_nat (Z.min a (Z.of_nat l)))%nat by lia.
  rewrite skipn_app. fold m.
  rewrite skipn_all2 by (fold m; lia). cbn [app].
  replace (m + Z.to_nat (Z.min a (Z.of_nat l)) - m)%nat
    with (Z.to_nat (Z.min a (Z.of_nat l))) by lia.
  f_equal. lia.
Qed.

Lemma get_slice_from {A : Type} (w rest : list A) :
  get_slice (w ++ rest) (Some (Z.of_nat (length w))) None = rest.
Proof.
  unfold get_slice, slice_bounds, slice_index. rewrite length_app.
  destruct (Z.ltb_spec (Z.of_nat (length w)) 0); [lia |].
  replace (Z.to_nat (Z.min (Z.of_nat (length w)) (Z.of_nat (length w + length rest))))
    with (length w) by lia.
  rewrite skipn_length_app by reflexivity.
  apply firstn_all2. lia.
Qed.

Section Windows.

Variable turn : list (option R) -> list R -> result (list (option R)).
Variable samples_per_beat : Z.
Hypothesis positive_beat : 0 < samples_per_beat.

(** The first beat of the playing part is the first window; the rest is
    analysed as a recording of its own. *)
Lemma windows_loop_first_beat (w rest : list R) (acc : list (option R)) :
  Z.of_nat (length w) = samples_per_beat ->
  windows_loop turn (w ++ rest) samples_per_beat acc
  = acc' <- turn acc w ;; windows_loop turn rest samples_per_beat acc'.
Proof.
  intros Hw. unfold windows_loop.
  rewrite !py_range3_up by exact positive_beat. cbn [bind].
  rewrite length_app, Nat2Z.inj_add, Hw.
  set (s := samples_per_beat) in *.
  set (l := Z.of_nat (length rest)).
  replace ((s + l - 0 + s - 1) / s) with ((l - 0 + s - 1) / s + 1).
  2:{ replace (s + l - 0 + s - 1) with ((l - 0 + s - 1) + 1 * s) by lia.
      rewrite Z.div_add by lia. reflexivity. }
  assert (Hq : 0 <= (l - 0 + s - 1) / s) by (apply Z.div_pos; lia).
  rewrite Z2Nat.inj_add by lia. change (Z.to_nat 1) with 1%nat.
  rewrite Nat.add_1_r. cbn [seq map for_each].
  replace (0 + Z.of_nat 0 * s + s) with (0 + Z.of_nat (length w)) by lia.
  change (0 + Z.of_nat 0 * s) with 0.
  rewrite get_slice_first.
  destruct (turn acc w) as [acc' | e]; cbn [bind]; [| reflexivity].
  rewrite <- seq_shift, map_map, !for_each_map.
  apply for_each_ext. intros acc'' k. f_equal.
  replace (0 + Z.of_nat (S k) * s) with (Z.of_nat (length w) + (0 + Z.of_nat k * s))
    by lia.
  replace (Z.of_nat (length w) + (0 + Z.of_nat k * s) + s)
    with (Z.of_nat (length w) + (0 + Z.of_nat k * s) + s) by lia.
  rewrite get_slice_later by lia. reflexivity.
Qed.

(** A last window shorter than a chunk is read and left out by every
    collector that checks the chunk length first. *)
Lemma windows_loop_nil (acc : list (option R)) :
  windows_loop turn [] samples_per_beat acc = Ok acc.
Proof.
  unfold windows_loop. rewrite py_range3_up by exact positive_beat.
  cbn [bind length Z.of_nat].
  replace ((0 - 0 + samples_per_beat - 1) / samples_per_beat) with 0.
  - reflexivity.
  - symmetry. apply Z.div_small. lia.
Qed.

End Windows.

Lemma Forall_repeat_0 (m : nat) : Forall (eq 0%R) (repeat 0%R m).
Proof. apply Forall_forall. intros x Hx. apply repeat_spec in Hx. now subst. Qed.

Lemma collect_window_silent (acc : list (option R)) (m : nat) :
  collect_window acc (repeat 0%R m) = Ok acc.
Proof.
  unfold collect_window.
  destruct (Z.leb_spec CHUNK_SIZE (Z.of_nat (length (repeat 0%R m))));
    [| reflexivity].
  rewrite detect_silent by (assumption || apply Forall_repeat_0).
  reflexivity.
Qed.

Lemma collect_window_spec_silent (acc : list (option R)) (m : nat) :
  CHUNK_SIZE <= Z.of_nat m ->
  collect_window_spec acc (repeat 0%R m) = Ok (acc ++ [None]).
Proof.
  intros Hm. unfold collect_window_spec. rewrite repeat_length.
  destruct (Z.leb_spec CHUNK_SIZE (Z.of_nat m)); [| lia].
  rewrite detect_silent by
    (rewrite ?repeat_length; assumption || apply Forall_repeat_0).
  reflexivity.
Qed.

Lemma repeat_beats (m k : nat) :
  repeat 0%R (S k * m) = repeat 0%R m ++ repeat 0%R (k * m).
Proof. rewrite <- repeat_app. f_equal. Qed.

(** Silent beats add nothing to the list the code collects ... *)
Lemma windows_loop_silent_beats (m k : nat) (rest : list R)
  (acc : list (option R)) :
  (0 < m)%nat ->
  windows_loop collect_window (repeat 0%R (k * m) ++ rest) (Z.of_nat m) acc
  = windows_loop collect_window rest (Z.of_nat m) acc.
Proof.
  intros Hm. induction k as [| k IH]; [reflexivity |].
  rewrite repeat_beats, <- app_assoc.
  rewrite windows_loop_first_beat by (rewrite ?repeat_length; lia).
  rewrite collect_window_silent. cbn [bind]. exact IH.
Qed.

(** ... and one "no detection" each to the list the specification
    describes. *)
Lemma windows_loop_spec_silent_beats (m k : nat) (rest : list R)
  (acc : list (option R)) :
  CHUNK_SIZE <= Z.of_nat m ->
  windows_loop collect_window_spec (repeat 0%R (k * m) ++ rest) (Z.of_nat m) acc
  = windows_loop collect_window_spec rest (Z.of_nat m) (acc ++ repeat None k).
Proof.
  intros Hm. revert acc. induction k as [| k IH]; intros acc.
  - cbn [repeat Nat.mul app]. now rewrite app_nil_r.
  - rewrite repeat_beats, <- app_assoc.
    rewrite windows_loop_first_beat by
      (rewrite ?repeat_length; unfold CHUNK_SIZE in Hm; lia).
    rewrite collect_window_spec_silent by exact Hm. cbn [bind].
    rewrite IH, <- app_assoc. reflexivity.
Qed.

(** The samples left after the last whole beat make a window, but one
    shorter than a chunk: both collectors skip it. *)
Lemma windows_loop_remainder
  (turn : list (option R) -> list R -> result (list (option R)))
  (w : list R) (samples_per_beat : Z) (acc : list (option R)) :
  (forall acc chunk, Z.of_nat (length chunk) < CHUNK_SIZE -> turn acc chunk = Ok acc) ->
  Z.of_nat (length w) < CHUNK_SIZE -> CHUNK_SIZE <= samples_per_beat ->
  windows_loop turn w samples_per_beat acc = Ok acc.
Proof.
  intros Hturn Hw Hs. unfold CHUNK_SIZE in *.
  destruct w as [| x w].
  { apply windows_loop_nil. lia. }
  unfold windows_loop. rewrite py_range3_up by lia. cbn [bind].
  set (l := Z.of_nat (length (x :: w))) in *.
  assert (Hl : 0 < l) by (unfold l; cbn [length]; lia).
  replace ((l - 0 + samples_per_beat - 1) / samples_per_beat) with 1.
  2:{ apply Z.div_unique with (r := l - 1); lia. }
  change (Z.to_nat 1) with 1%nat. cbn [seq map for_each].
  rewrite Hturn; [reflexivity |].
  unfold get_slice. pose proof (slice_bounds_short (x :: w)
    (Some (0 + Z.of_nat 0 * samples_per_beat))
    (Some (0 + Z.of_nat 0 * samples_per_beat + samples_per_beat))) as Hb.
  destruct (slice_bounds _ _ _) as [lo hi].
  specialize (Hb lo hi eq_refl). rewrite length_firstn. fold l in Hb. lia.
Qed.

Lemma collect_window_short (acc : list (option R)) (chunk : list R) :
  Z.of_nat (length chunk) < CHUNK_SIZE -> collect_window acc chunk = Ok acc.
Proof.
  intros H. unfold collect_window.
  destruct (Z.leb_spec CHUNK_SIZE (Z.of_nat (length chunk))); [lia | reflexivity].
Qed.

Lemma collect_window_spec_short (acc : list (option R)) (chunk : list R) :
  Z.of_nat (length chunk) < CHUNK_SIZE -> collect_window_spec acc chunk = Ok acc.
Proof.
  intros H. unfold collect_window_spec.
  destruct (Z.leb_spec CHUNK_SIZE (Z.of_nat (length chunk))); [lia | reflexivity].
Qed.

Lemma length_impulse_beat :
  length (two_impulses (Z.to_nat 10824) 400 (Z.to_nat 10824)) = Z.to_nat 22050.
Proof.
  unfold two_impulses. rewrite !length_app, !repeat_length. cbn [length]. lia.
Qed.

Lemma collect_window_impulse_beat (acc : list (option R)) :
  collect_window acc (two_impulses (Z.to_nat 10824) 400 (Z.to_nat 10824))
  = Ok (acc ++ [Some (44100 / 401)%R]).
Proof.
  unfold collect_window. rewrite length_impulse_beat, detect_impulse_beat.
  reflexivity.
Qed.

Lemma collect_window_spec_impulse_beat (acc : list (option R)) :
  collect_window_spec acc (two_impulses (Z.to_nat 10824) 400 (Z.to_nat 10824))
  = Ok (acc ++ [Some (44100 / 401)%R]).
Proof.
  unfold collect_window_spec. rewrite length_impulse_beat, detect_impulse_beat.
  reflexivity.
Qed.

(** What the two collectors make of the playing part of the recording. *)
Lemma late_start_playing_audio :
  get_slice late_start_recording (Some 88200) None
  = repeat 0%R (Z.to_nat 22050)
    ++ two_impulses (Z.to_nat 10824) 400 (Z.to_nat 10824)
    ++ repeat 0%R (22 * Z.to_nat 22050) ++ repeat 0%R 72.
Proof.
  unfold late_start_recording.
  replace 88200 with (Z.of_nat (length (repeat 0%R (Z.to_nat (4 * 22050)))))
    by (rewrite repeat_length; lia).
  rewrite get_slice_from.
  replace (Z.to_nat (22 * 22050)) with (22 * Z.to_nat 22050)%nat by lia.
  reflexivity.
Qed.

Lemma late_start_detect_notes :
  detect_notes (get_slice late_start_recording (Some 88200) None) 22050
  = Ok [Some (44100 / 401)%R].
Proof.
  rewrite late_start_playing_audio. unfold detect_notes.
  replace 22050 with (Z.of_nat (Z.to_nat 22050)) at 3 by lia.
  rewrite windows_loop_first_beat by (rewrite ?repeat_length; lia).
  rewrite collect_window_silent. cbn [bind].
  rewrite windows_loop_first_beat by (rewrite ?length_impulse_beat; lia).
  rewrite collect_window_impulse_beat. cbn [bind app].
  rewrite windows_loop_silent_beats by lia.
  apply windows_loop_remainder.
  - apply collect_window_short.
  - rewrite repeat_length. unfold CHUNK_SIZE. lia.
  - unfold CHUNK_SIZE. lia.
Qed.

Lemma late_start_detect_notes_spec :
  detect_notes_spec (get_slice late_start_recording (Some 88200) None) 22050
  = Ok (None :: Some (44100 / 401)%R :: repeat None 22).
Proof.
  rewrite late_start_playing_audio. unfold detect_notes_spec.
  replace 22050 with (Z.of_nat (Z.to_nat 22050)) at 3 by lia.
  rewrite windows_loop_first_beat by (rewrite ?repeat_length; lia).
  rewrite collect_window_spec_silent by (unfold CHUNK_SIZE; lia). cbn [bind app].
  rewrite windows_loop_first_beat by (rewrite ?length_impulse_beat; lia).
  rewrite collect_window_spec_impulse_beat. cbn [bind app].
  rewrite windows_loop_spec_silent_beats by (unfold CHUNK_SIZE; lia).
  apply windows_loop_remainder.
  - apply collect_window_spec_short.
  - rewrite repeat_length. unfold CHUNK_SIZE. lia.
  - unfold CHUNK_SIZE. lia.
Qed.

Lemma log2_over_fretted (d b y : R) :
  (0 < d)%R -> (0 < b)%R ->
  log2 (d / (b * Rpower 2 y)) = (log2 (d / b) - y)%R.
Proof.
  intros Hd Hb. unfold log2.
  assert (Hp : (0 < Rpower 2 y)%R) by (unfold Rpower; apply exp_pos).
  assert (Hln2 : (0 < ln 2)%R) by (rewrite <- ln_1; apply ln_increasing; lra).
  replace (d / (b * Rpower 2 y))%R with (d / b * / Rpower 2 y)%R by (field; lra).
  rewrite ln_mult; [| apply Rdiv_lt_0_compat; lra | apply Rinv_0_lt_compat; lra].
  rewrite ln_Rinv by lra. rewrite ln_Rpower. field. lra.
Qed.

(** The impulse pitch is within half a semitone of the first note of
    position 1 (string 6, fret 5) ... *)
Lemma impulse_pitch_matches_first_note :
  (Rabs (12 * log2 (44100 / 401 / (82.41 * Rpower 2 (IZR 5 / 12))))
   <= FREQUENCY_TOLERANCE)%R.
Proof.
  rewrite log2_over_fretted by lra.
  pose proof semitones_from_open_string as H.
  unfold FREQUENCY_TOLERANCE. apply Rabs_le. lra.
Qed.

(** ... and three semitones below the second (string 6, fret 8). *)
Lemma impulse_pitch_misses_second_note :
  ~ (Rabs (12 * log2 (44100 / 401 / (82.41 * Rpower 2 (IZR 8 / 12))))
     <= FREQUENCY_TOLERANCE)%R.
Proof.
  rewrite log2_over_fretted by lra.
  pose proof semitones_from_open_string as H.
  unfold FREQUENCY_TOLERANCE. intros Habs.
  unfold Rabs in Habs. destruct (Rcase_abs _); lra.
Qed.

Lemma position1_first_notes :
  exists rest description tab,
    create_scale_position1
    = Ok (mkScalePosition "Position 1 - A Minor Pentatonic"
            (mkNote 5 6 (82.41 * Rpower 2 (IZR 5 / 12)) "A"
             :: mkNote 8 6 (82.41 * Rpower 2 (IZR 8 / 12)) "C" :: rest)
            description tab)
    /\ length rest = 10%nat.
Proof. do 3 eexists. split; reflexivity. Qed.

Lemma count_correct_none (k : nat) (expected : list Note) (correct : Z) :
  for_each (combine (repeat None k) expected) score_pair correct = Ok correct.
Proof.
  revert expected. induction k as [| k IH]; intros [| e expected]; cbn;
    try reflexivity. apply IH.
Qed.

(** C1, at a pass of position 1 at 120 BPM whose first beat is silent and
    whose second beat sounds the pitch of the first note.  The code drops
    the silent window from [notes_detected], so the second beat's detection
    is paired with the first expected note and counted correct: 1 correct
    note.  With one entry per window, the first beat is incorrect and the
    second is compared with the second note, three semitones away: 0. *)
Theorem late_start_shifts_detection :
  exists position,
    create_scale_position1 = Ok position
    /\ analyze_playing (Scale_notes position) late_start_recording 120 = Ok 1
    /\ analyze_playing_spec (Scale_notes position) late_start_recording 120
       = Ok 0.
Proof.
  destruct position1_first_notes as (rest & description & tab & Hpos & Hrest).
  eexists. split; [exact Hpos |]. cbn [Scale_notes].
  unfold analyze_playing, analyze_playing_spec.
  change (120 =? 0) with false. cbv iota.
  change (int_of_float (4 * (60 / inject_Z 120) * inject_Z SAMPLE_RATE))
    with 88200.
  change (samples_per_beat_of 120) with (Ok (A := Z) 22050). cbn [bind].
  rewrite late_start_detect_notes, late_start_detect_notes_spec. cbn [bind].
  unfold count_correct. cbn [app combine for_each].
  split.
  - cbn [score_pair bind Note_frequency].
    destruct (Rle_dec _ FREQUENCY_TOLERANCE) as [_ | H];
      [reflexivity | destruct (H impulse_pitch_matches_first_note)].
  - cbn [score_pair bind Note_frequency].
    destruct (Rle_dec _ FREQUENCY_TOLERANCE) as [H | _];
      [destruct (impulse_pitch_misses_second_note H) |].
    rewrite find_closest_note_of_semitones by lra. cbn [bind].
    apply count_correct_none.
Qed.

(** ** [load_progress] *)

Lemma load_progress_unchanged (self : Trainer) : load_progress self = self.
Proof.
  unfold load_progress. destruct (progress_file self); reflexivity.
Qed.

(** C5, at a well-formed stored record.  The [with] block reads
    [saved_progress], which nothing binds; the [NameError] is swallowed by the
    bare [except], so the record in memory keeps its defaults and the active
    tempo stays 120, where the specification's loader installs the stored
    values. *)
Theorem load_progress_drops_stored_record :
  progress (init (Some (Json stored_example))) = default_progress 240 120
  /\ current_bpm (init (Some (Json stored_example))) = 120
  /\ highest_bpm (load_progress_spec (Some (Json stored_example))) = 130
  /\ load_progress_spec (Some (Json stored_example))
     <> progress (init (Some (Json stored_example))).
Proof.
  unfold init. rewrite load_progress_unchanged.
  repeat split; try reflexivity.
  intros H. discriminate H.
Qed.

(** The second half of the claim does hold: with no file, or a malformed one,
    start-up ends with the defaults (and [init] is a total function). *)
Lemma init_defaults_without_store (file : option file_content) :
  file = None \/ file = Some Malformed ->
  progress (init file) = load_progress_spec file.
Proof.
  intros [-> | ->]; reflexivity.
Qed.

(** ** Progression *)

Lemma create_scale_position1_name :
  exists notes description tab,
    create_scale_position1 =
    Ok (mkScalePosition "Position 1 - A Minor Pentatonic" notes description tab).
Proof. do 3 eexists. reflexivity. Qed.

Lemma gui_position_number_raises :
  (word <- last_item (py_split "Position 1 - A Minor Pentatonic") ;;
   int_of_str word) = Raise ValueError.
Proof. reflexivity. Qed.

(** C6, on the GUI path, at a perfect pass of position 1 at 120 BPM (24 of 24
    notes) with target 240.  The achievement is appended, then
    [int(name.split()[-1])] is [int("Pentatonic")] and raises: the tempo is
    not stepped, the highest tempo is not raised, nothing is unlocked and the
    record is not saved. *)
Theorem gui_perfect_pass_raises :
  exists current_position,
    create_scale_position1 = Ok current_position
    /\ let '(trainer, outcome) :=
         Gui.update_progress current_position 120 24 24 fresh_trainer in
       outcome = Raise ValueError
       /\ current_bpm trainer = 120
       /\ target_bpm (progress trainer) = 240
       /\ highest_bpm (progress trainer) = 120
       /\ positions_unlocked (progress trainer) = ["position1"]
       /\ games_won (progress trainer)
          = ["Position 1 - A Minor Pentatonic at 120 BPM"]
       /\ progress_file trainer = None.
Proof.
  destruct create_scale_position1_name as (notes & description & tab & H).
  eexists. split; [exact H |].
  repeat split; reflexivity.
Qed.

(** The command-line path does what C6 says.  After a pass with accuracy 100
    on one of the five positions: the tempo is [min(tempo + 10, target)], the
    highest tempo is raised to it if larger, and the only position that can
    be appended is the next one in the fixed order. *)
Lemma play_game_progress_perfect (position : string) (next : option string)
  (scale : ScalePosition) (accuracy : Q) (self : Trainer) :
  In (position, next) position_order ->
  Qeq_bool accuracy 100 = true ->
  exists self',
    play_game_progress position scale accuracy self = (self', Ok tt)
    /\ current_bpm self'
       = Z.min (current_bpm self + 10) (target_bpm (progress self))
    /\ target_bpm (progress self') = target_bpm (progress self)
    /\ highest_bpm (progress self')
       = Z.max (highest_bpm (progress self)) (current_bpm self')
    /\ positions_unlocked (progress self')
       = positions_unlocked (progress self)
         ++ match next with
            | Some next_pos =>
                if str_in next_pos (positions_unlocked (progress self))
                then [] else [next_pos]
            | None => []
            end.
Proof.
  intros Hin Hacc.
  unfold play_game_progress, bindM, get, modify, lift, ret.
  rewrite Hacc.
  simpl in Hin.
  destruct Hin as [H | [H | [H | [H | [H | []]]]]]; inversion H; subst; clear H;
    cbn;
    try (match goal with
         | |- context [str_in ?x ?l] => destruct (str_in x l)
         end);
    cbn; eexists; (split; [reflexivity |]);
    cbn; rewrite ?app_nil_r; repeat split; reflexivity.
Qed.

Lemma play_game_progress_tempo_bounds (cur target : Z) :
  cur < target ->
  cur < Z.min (cur + 10) target <= target
  /\ (cur + 10 <= target -> Z.min (cur + 10) target = cur + 10).
Proof. lia. Qed.

(** Below 100 the command-line path changes neither the tempo nor the
    unlocked positions. *)
Lemma play_game_progress_imperfect (position : string) (scale : ScalePosition)
  (accuracy : Q) (self : Trainer) :
  Qeq_bool accuracy 100 = false ->
  exists self',
    play_game_progress position scale accuracy self = (self', Ok tt)
    /\ current_bpm self' = current_bpm self
    /\ highest_bpm (progress self') = highest_bpm (progress self)
    /\ positions_unlocked (progress self') = positions_unlocked (progress self).
Proof.
  intros Hacc.
  unfold play_game_progress, bindM, get, modify, lift, ret.
  rewrite Hacc. cbn. eexists. repeat split; reflexivity.
Qed.

(** The GUI path never writes [highest_bpm].  With a position whose name did
    end in its number the tempo would be stepped by 5 and the highest tempo
    left where it was. *)
Lemma gui_step_leaves_highest_bpm :
  let '(trainer, outcome) :=
    Gui.update_progress (mkScalePosition "Position 1" [] "" "") 120 24 24
      fresh_trainer in
  outcome = Ok tt
  /\ current_bpm trainer = 125
  /\ highest_bpm (progress trainer) = 120
  /\ positions_unlocked (progress trainer) = ["position1"; "position2"].
Proof. repeat split; reflexivity. Qed.

(** * Further properties of the code *)

(** ** The pitch detector *)

Lemma plateau_end_bounds (x : list npfloat) (i_max : nat) (xi : npfloat)
  (start fuel : nat) :
  (start <= plateau_end x i_max xi start fuel <= Nat.max start i_max)%nat.
Proof.
  revert start. induction fuel as [| fuel IH]; intros start; cbn [plateau_end];
    [lia |].
  destruct (Nat.ltb_spec start i_max); cbn [andb]; [| lia].
  destruct (feq (nth start x NaN) xi); [| lia].
  specialize (IH (S start)). lia.
Qed.

(** Every index found by the scan lies strictly inside the array. *)
Lemma local_maxima_from_range (x : list npfloat) (i_max i fuel : nat) :
  Forall (fun p => (i <= p < i_max)%nat) (local_maxima_from x i_max i fuel).
Proof.
  revert i. induction fuel as [| fuel IH]; intros i; cbn [local_maxima_from];
    [constructor |].
  destruct (Nat.ltb_spec i i_max); [| constructor].
  assert (Hweaken : forall j, (i <= j)%nat ->
            Forall (fun p => (i <= p < i_max)%nat)
              (local_maxima_from x i_max j fuel)).
  { intros j Hj. eapply Forall_impl; [| apply (IH j)]. cbn. lia. }
  destruct (flt (nth (i - 1) x NaN) (nth i x NaN)); [| apply Hweaken; lia].
  pose proof (plateau_end_bounds x i_max (nth i x NaN) (i + 1) (length x)) as Hp.
  set (i_ahead := plateau_end x i_max (nth i x NaN) (i + 1) (length x)) in *.
  destruct (flt (nth i_ahead x NaN) (nth i x NaN)); [| apply Hweaken; lia].
  constructor; [| apply Hweaken; lia].
  assert (Hdiv : (i <= (i + (i_ahead - 1)) / 2 <= i_ahead - 1)%nat).
  { split.
    - apply Nat.div_le_lower_bound; lia.
    - apply Nat.Div0.div_le_upper_bound; lia. }
  lia.
Qed.

Lemma find_peaks_range (x : list npfloat) (height : R) :
  Forall (fun p => (1 <= p < length x - 1)%nat) (find_peaks x height).
Proof.
  unfold find_peaks, local_maxima_1d.
  apply Forall_forall. intros p Hp. apply filter_In in Hp. destruct Hp as [Hp _].
  pose proof (local_maxima_from_range x (length x - 1) 1 (length x)) as H.
  rewrite Forall_forall in H. exact (H p Hp).
Qed.

Lemma np_max_abs_ok (a : list R) :
  a <> [] -> exists peak, np_max_abs a = Ok peak.
Proof. destruct a; [contradiction | intros _; eexists; reflexivity]. Qed.

(** The detector never raises, and what it detects is the sample rate over
    a whole lag strictly inside the segment. *)
Lemma detect_lag (audio_data : list R) :
  exists detected,
    detect_fundamental_frequency audio_data = Ok detected
    /\ forall frequency, detected = Some frequency ->
         exists lag : nat,
           (1 <= lag <= length audio_data - 2)%nat
           /\ frequency = (IZR SAMPLE_RATE / INR lag)%R.
Proof.
  unfold detect_fundamental_frequency.
  destruct (Z.ltb_spec (Z.of_nat (length audio_data)) CHUNK_SIZE) as [Hs | Hl].
  { eexists. split; [reflexivity | discriminate]. }
  unfold CHUNK_SIZE in Hl.
  destruct (np_max_abs_ok audio_data) as [peak ->].
  { intros ->. cbn in Hl. lia. }
  cbn [bind]. rewrite length_map.
  set (n := length audio_data) in *.
  set (z := zip_with fmul _ _).
  assert (Hz : length z = n).
  { unfold z. rewrite length_zip_with, !length_map, length_hanning. fold n. lia. }
  rewrite correlate_full_nonempty by (intros E; rewrite E in Hz; cbn in Hz; lia).
  cbn [bind].
  set (c := skipn _ _).
  assert (Hc : length c = n).
  { unfold c. rewrite length_skipn, length_map. unfold py_range.
    rewrite length_map, length_seq, Hz.
    replace (Z.to_nat (Z.of_nat n + Z.of_nat n - 1)) with (n - 1 + n)%nat by lia.
    replace ((n - 1 + n) / 2)%nat with (n - 1)%nat; [lia |].
    apply Nat.div_unique with (r := 1%nat); lia. }
  pose proof (find_peaks_range c 0.1) as Hpeaks.
  destruct (find_peaks c 0.1) as [| first_peak peaks].
  - eexists. split; [reflexivity | discriminate].
  - eexists. split; [reflexivity |].
    intros frequency Hf. apply Some_inj in Hf. subst frequency.
    exists first_peak. split; [| reflexivity].
    inversion Hpeaks as [| ? ? Hfirst _]; subst. rewrite Hc in Hfirst. lia.
Qed.

(** X1.  The detector never raises.  A detected frequency is the sample rate
    divided by a whole number of samples, the lag of the first peak, which
    lies strictly inside the segment: so it is at most the sample rate and
    above the sample rate divided by the segment length. *)
Theorem detect_frequency_bounds (audio_data : list R) :
  exists detected,
    detect_fundamental_frequency audio_data = Ok detected
    /\ forall frequency, detected = Some frequency ->
         (exists lag : nat,
             (1 <= lag <= length audio_data - 2)%nat
             /\ frequency = (IZR SAMPLE_RATE / INR lag)%R)
         /\ (IZR SAMPLE_RATE / INR (length audio_data) < frequency
             <= IZR SAMPLE_RATE)%R.
Proof.
  destruct (detect_lag audio_data) as (detected & Hd & Hlag).
  exists detected. split; [exact Hd |].
  intros frequency Hf. destruct (Hlag frequency Hf) as (lag & [H1 H2] & ->).
  split; [exists lag; split; [lia | reflexivity] |].
  unfold SAMPLE_RATE.
  assert (Hl1 : (1 <= INR lag)%R) by (apply (le_INR 1); lia).
  assert (Hl2 : (INR lag < INR (length audio_data))%R) by (apply lt_INR; lia).
  split.
  - apply Rmult_lt_compat_l; [lra |].
    apply Rinv_lt_contravar; [| exact Hl2]. nra.
  - assert (Hinv : (/ INR lag <= 1)%R)
      by (rewrite <- Rinv_1; apply Rinv_le_contravar; lra).
    unfold Rdiv. nra.
Qed.

Lemma fold_left_Rmax_scale (c : R) (a : list R) (m : R) :
  (0 <= c)%R ->
  fold_left Rmax (map Rabs (map (Rmult c) a)) (c * m)%R
  = (c * fold_left Rmax (map Rabs a) m)%R.
Proof.
  intros Hc. revert m. induction a as [| v a IH]; intros m; cbn; [reflexivity |].
  rewrite Rabs_mult, (Rabs_right c) by lra.
  rewrite RmaxRmult by exact Hc. apply IH.
Qed.

Lemma np_max_abs_scale (c : R) (a : list R) (peak : R) :
  (0 <= c)%R -> np_max_abs a = Ok peak ->
  np_max_abs (map (Rmult c) a) = Ok (c * peak)%R.
Proof.
  intros Hc. destruct a as [| v a]; [discriminate |]. cbn [np_max_abs map].
  intros H. apply Ok_inj in H. subst peak.
  rewrite Rabs_mult, (Rabs_right c) by lra.
  now rewrite fold_left_Rmax_scale.
Qed.

Lemma np_divide_scale (c v peak : R) :
  (0 < c)%R -> np_divide (c * v) (c * peak) = np_divide v peak.
Proof.
  intros Hc. unfold np_divide.
  destruct (Req_dec_T peak 0) as [-> | Hp].
  - rewrite Rmult_0_r.
    destruct (Req_dec_T 0 0) as [_ | H]; [| contradiction].
    destruct (Req_dec_T v 0) as [-> | Hv].
    + rewrite Rmult_0_r. destruct (Req_dec_T 0 0); [reflexivity | contradiction].
    + destruct (Req_dec_T (c * v) 0) as [H | _]; [nra |].
      destruct (Rlt_dec 0 (c * v)), (Rlt_dec 0 v); try reflexivity; nra.
  - destruct (Req_dec_T (c * peak) 0) as [H | _]; [nra |].
    f_equal. field. split; lra.
Qed.

(** X2.  The detector does not depend on the recording level. *)
Theorem detect_gain_invariant (gain : R) (audio_data : list R) :
  (0 < gain)%R ->
  detect_fundamental_frequency (map (Rmult gain) audio_data)
  = detect_fundamental_frequency audio_data.
Proof.
  intros Hg. unfold detect_fundamental_frequency. rewrite length_map.
  destruct (Z.ltb_spec (Z.of_nat (length audio_data)) CHUNK_SIZE) as [Hs | Hl];
    [reflexivity |].
  unfold CHUNK_SIZE in Hl.
  destruct (np_max_abs_ok audio_data) as [peak Hpeak].
  { intros ->. cbn in Hl. lia. }
  rewrite (np_max_abs_scale gain audio_data peak) by (lra || exact Hpeak).
  rewrite Hpeak. cbn [bind].
  rewrite map_map, !length_map.
  replace (map (fun x => np_divide (gain * x) (gain * peak)) audio_data)
    with (map (fun x => np_divide x peak) audio_data).
  - reflexivity.
  - apply map_ext. intros v. symmetry. now apply np_divide_scale.
Qed.

Lemma detect_gain_invariant_witness :
  detect_fundamental_frequency
    (map (Rmult 2) (two_impulses (Z.to_nat 10824) 400 (Z.to_nat 10824)))
  = detect_fundamental_frequency
      (two_impulses (Z.to_nat 10824) 400 (Z.to_nat 10824)).
Proof. apply (detect_gain_invariant 2). lra. Defined.

(** ** Scoring: counts and accuracy *)

(** A loop whose body keeps an invariant and never raises under it runs to
    the end. *)
Lemma for_each_invariant {A S : Type} (P : S -> Prop)
  (body : S -> A -> result S) (xs : list A) (s : S) :
  (forall s x, P s -> exists s', body s x = Ok s' /\ P s') ->
  P s ->
  exists s', for_each xs body s = Ok s' /\ P s'.
Proof.
  intros Hbody. revert s. induction xs as [| x xs IH]; intros s Hs.
  - exists s. split; [reflexivity | exact Hs].
  - cbn [for_each]. destruct (Hbody s x Hs) as (s1 & -> & Hs1). cbn [bind].
    now apply IH.
Qed.

Lemma detect_positive (chunk : list R) :
  exists detected,
    detect_fundamental_frequency chunk = Ok detected
    /\ forall frequency, detected = Some frequency -> (0 < frequency)%R.
Proof.
  destruct (detect_lag chunk) as (detected & Hd & Hlag).
  exists detected. split; [exact Hd |].
  intros frequency Hf. destruct (Hlag frequency Hf) as (lag & [H1 H2] & ->).
  unfold SAMPLE_RATE.
  assert (Hl : (1 <= INR lag)%R) by (apply (le_INR 1); lia).
  apply Rdiv_lt_0_compat; lra.
Qed.

Lemma collect_window_keeps_positive (acc : list (option R)) (chunk : list R) :
  Forall (fun e => exists f, e = Some f /\ (0 < f)%R) acc ->
  exists acc',
    collect_window acc chunk = Ok acc'
    /\ Forall (fun e => exists f, e = Some f /\ (0 < f)%R) acc'.
Proof.
  intros Hacc. unfold collect_window.
  destruct (CHUNK_SIZE <=? Z.of_nat (length chunk)); [| now exists acc].
  destruct (detect_positive chunk) as (detected & -> & Hpos). cbn [bind].
  destruct detected as [f |]; [| now exists acc].
  eexists. split; [reflexivity |].
  apply Forall_app. split; [exact Hacc |].
  constructor; [| constructor]. exists f. split; [reflexivity | now apply Hpos].
Qed.

Lemma detect_notes_positive (playing_audio : list R) (samples_per_beat : Z) :
  0 < samples_per_beat ->
  exists notes_detected,
    detect_notes playing_audio samples_per_beat = Ok notes_detected
    /\ Forall (fun e => exists f, e = Some f /\ (0 < f)%R) notes_detected.
Proof.
  intros Hs. unfold detect_notes, windows_loop.
  rewrite py_range3_up by exact Hs. cbn [bind].
  apply for_each_invariant with
    (P := Forall (fun e => exists f, e = Some f /\ (0 < f)%R)).
  - intros acc i Hacc. now apply collect_window_keeps_positive.
  - constructor.
Qed.

Lemma score_pair_counts (correct_notes : Z) (detected : R) (expected : Note) :
  (0 < detected)%R ->
  exists correct_notes',
    score_pair correct_notes (Some detected, expected) = Ok correct_notes'
    /\ correct_notes <= correct_notes' <= correct_notes + 1.
Proof.
  intros Hd. cbn [score_pair].
  destruct (Rle_dec _ FREQUENCY_TOLERANCE).
  - eexists. split; [reflexivity | lia].
  - rewrite find_closest_note_of_semitones by exact Hd. cbn [bind].
    eexists. split; [reflexivity | lia].
Qed.

Lemma count_correct_counts (notes_detected : list (option R))
  (expected_notes : list Note) (correct_notes : Z) :
  Forall (fun e => exists f, e = Some f /\ (0 < f)%R) notes_detected ->
  exists correct_notes',
    for_each (combine notes_detected expected_notes) score_pair correct_notes
    = Ok correct_notes'
    /\ correct_notes <= correct_notes'
       <= correct_notes
          + Z.of_nat (Nat.min (length notes_detected) (length expected_notes)).
Proof.
  intros Hd. revert expected_notes correct_notes.
  induction Hd as [| e notes_detected He Hd IH];
    intros expected_notes correct_notes.
  - exists correct_notes. split; [reflexivity | cbn; lia].
  - destruct expected_notes as [| expected expected_notes].
    + exists correct_notes. split; [reflexivity | cbn; lia].
    + destruct He as (f & -> & Hf). cbn [combine for_each].
      destruct (score_pair_counts correct_notes f expected Hf) as (c1 & -> & Hc1).
      cbn [bind].
      destruct (IH expected_notes c1) as (c2 & -> & Hc2).
      exists c2. split; [reflexivity |]. cbn [length]. lia.
Qed.

(** At any tempo that gives a beat at least one sample, the analysis of any
    recording returns a count between 0 and the number of expected notes. *)
Lemma analyze_playing_counts (notes : list Note) (recording : list R)
  (bpm : Z) :
  0 < bpm <= 2646000 ->
  exists correct_notes,
    analyze_playing notes recording bpm = Ok correct_notes
    /\ 0 <= correct_notes <= Z.of_nat (length (notes ++ rev notes)).
Proof.
  intros Hb. unfold analyze_playing.
  destruct (Z.eqb_spec bpm 0); [lia |].
  rewrite samples_per_beat_of_bpm by lia. cbn [bind].
  assert (Hs : 0 < 2646000 / bpm) by (apply Z.div_str_pos; lia).
  destruct (detect_notes_positive
              (get_slice recording
                 (Some (int_of_float (4 * (60 / inject_Z bpm) * inject_Z SAMPLE_RATE)))
                 None) (2646000 / bpm) Hs) as (notes_detected & -> & Hpos).
  cbn [bind]. unfold count_correct.
  destruct (count_correct_counts notes_detected (notes ++ rev notes) 0 Hpos)
    as (c & -> & Hc).
  exists c. split; [reflexivity | lia].
Qed.

(** X3.  The accuracy is a percentage, and it is 100 exactly when every
    expected note was counted. *)
Theorem accuracy_of_percentage (correct_notes expected_note_count : Z) :
  0 <= correct_notes <= expected_note_count ->
  (0 <= accuracy_of correct_notes expected_note_count <= 100)%Q
  /\ (Qeq_bool (accuracy_of correct_notes expected_note_count) 100 = true
      <-> 0 < expected_note_count /\ correct_notes = expected_note_count).
Proof.
  intros Hc. unfold accuracy_of.
  destruct (Z.ltb_spec 0 expected_note_count) as [Hn | Hn].
  - set (c := inject_Z correct_notes). set (n := inject_Z expected_note_count).
    assert (Hn' : (0 < n)%Q) by (unfold n, Qlt, inject_Z; cbn; lia).
    assert (Hc' : (0 <= c <= n)%Q) by (unfold c, n, Qle, inject_Z; cbn; lia).
    assert (E : (c / n * n == c)%Q) by (field; lra).
    set (r := (c / n)%Q) in *.
    split; [split; nra |].
    rewrite Qeq_bool_iff. split.
    + intros H. split; [exact Hn |].
      assert (Hcn : (c == n)%Q) by nra.
      unfold c, n, Qeq, inject_Z in Hcn. cbn in Hcn. lia.
    + intros [_ ->]. unfold r, c, n. field.
      unfold Qeq, inject_Z. cbn. lia.
  - split; [split; [apply Qle_refl | discriminate] |].
    split; [discriminate | lia].
Qed.

Lemma accuracy_of_percentage_witness :
  (0 <= accuracy_of 23 24 <= 100)%Q
  /\ (Qeq_bool (accuracy_of 23 24) 100 = true <-> 0 < 24 /\ 23 = 24).
Proof. apply (accuracy_of_percentage 23 24). lia. Defined.

(** ** Cues, the recording loop and the count-in *)

(** The branches of the cue block index the position up and then down. *)
Lemma expected_note_index (notes : list Note) (beat_number : Z) :
  let total_beats := 4 + Z.of_nat (length notes) * 2 in
  expected_note notes total_beats beat_number
  = if (4 <=? beat_number) && (beat_number <? total_beats)
    then nth_error (notes ++ rev notes) (Z.to_nat (beat_number - 4))
    else None.
Proof.
  cbn zeta. unfold expected_note.
  set (n := length notes).
  destruct (Z.leb_spec 4 beat_number) as [H4 | H4]; cbn [andb]; [| reflexivity].
  destruct (Z.ltb_spec beat_number (4 + Z.of_nat n * 2)) as [Ht | Ht];
    [| reflexivity].
  destruct (Z.ltb_spec (beat_number - 4) (Z.of_nat n)) as [Hup | Hdown].
  - rewrite nth_error_app1 by (fold n; lia). reflexivity.
  - destruct (Z.ltb_spec (beat_number - 4) (Z.of_nat n * 2)); [| lia].
    rewrite nth_error_app2 by (fold n; lia). fold n.
    rewrite nth_error_rev. fold n.
    destruct (Nat.ltb_spec (Z.to_nat (beat_number - 4) - n) n); [| lia].
    f_equal. lia.
Qed.

Section Recording.

Variable read : nat -> list R.
Hypothesis whole_chunks : forall k, Z.of_nat (length (read k)) = CHUNK_SIZE.
Variable total_samples : Z.
Hypothesis some_samples : 0 <= total_samples.

Lemma record_from_chunks (fuel k : nat) (recording : list R) :
  let chunks := Z.to_nat ((total_samples + 1023) / 1024) in
  (k <= chunks)%nat -> (chunks - k <= fuel)%nat ->
  record_from read total_samples fuel k recording (1024 * Z.of_nat k)
  = (recording ++ concat (map read (seq k (chunks - k))),
     1024 * Z.of_nat chunks).
Proof.
  cbn zeta. set (chunks := Z.to_nat ((total_samples + 1023) / 1024)).
  assert (Hchunks : 1024 * Z.of_nat chunks - 1023 <= total_samples
                    <= 1024 * Z.of_nat chunks).
  { unfold chunks. rewrite Z2Nat.id by (apply Z.div_pos; lia).
    pose proof (Z.div_mod (total_samples + 1023) 1024 ltac:(lia)) as Hdm.
    pose proof (Z.mod_pos_bound (total_samples + 1023) 1024 ltac:(lia)). lia. }
  revert k recording. induction fuel as [| fuel IH]; intros k recording Hk Hfuel.
  - replace (chunks - k)%nat with 0%nat by lia.
    replace k with chunks by lia. cbn. now rewrite app_nil_r.
  - cbn [record_from].
    destruct (Z.ltb_spec (1024 * Z.of_nat k) total_samples) as [Hmore | Hdone].
    + rewrite whole_chunks. unfold CHUNK_SIZE.
      replace (1024 * Z.of_nat k + 1024) with (1024 * Z.of_nat (S k)) by lia.
      rewrite IH by lia.
      replace (chunks - k)%nat with (S (chunks - S k)) by lia.
      cbn [seq map concat]. now rewrite <- app_assoc.
    + replace (chunks - k)%nat with 0%nat by lia.
      replace k with chunks by lia. cbn. now rewrite app_nil_r.
Qed.

(** X5.  The recording loop stops after the first whole number of chunks that
    covers the metronome track: the recording is those chunks in order, and
    it is less than one chunk longer than the track. *)
Theorem record_whole_chunks :
  let chunks := Z.to_nat ((total_samples + 1023) / 1024) in
  record read total_samples
  = (concat (map read (seq 0 chunks)), 1024 * Z.of_nat chunks)
  /\ total_samples <= 1024 * Z.of_nat chunks < total_samples + 1024.
Proof.
  cbn zeta. split.
  - unfold record.
    assert (Hfuel : (total_samples + 1023) / 1024 <= total_samples).
    { pose proof (Z.div_mod (total_samples + 1023) 1024 ltac:(lia)) as Hdm.
      pose proof (Z.mod_pos_bound (total_samples + 1023) 1024 ltac:(lia)). lia. }
    pose proof (record_from_chunks (Z.to_nat total_samples) 0 []) as H.
    cbn zeta in H. change (1024 * Z.of_nat 0) with 0 in H.
    rewrite H by lia. now rewrite Nat.sub_0_r.
  - rewrite Z2Nat.id by (apply Z.div_pos; lia).
    pose proof (Z.div_mod (total_samples + 1023) 1024 ltac:(lia)) as Hdm.
    pose proof (Z.mod_pos_bound (total_samples + 1023) 1024 ltac:(lia)). lia.
Qed.

End Recording.

(** The same with the stream and the track length as arguments. *)
Lemma record_chunks (read : nat -> list R) (total_samples : Z) :
  (forall k, Z.of_nat (length (read k)) = CHUNK_SIZE) ->
  0 <= total_samples ->
  fst (record read total_samples)
  = concat (map read (seq 0 (Z.to_nat ((total_samples + 1023) / 1024)))).
Proof.
  intros Hread Htotal. unfold record.
  assert (Hfuel : (total_samples + 1023) / 1024 <= total_samples).
  { pose proof (Z.div_mod (total_samples + 1023) 1024 ltac:(lia)) as Hdm.
    pose proof (Z.mod_pos_bound (total_samples + 1023) 1024 ltac:(lia)). lia. }
  pose proof (record_from_chunks read Hread total_samples Htotal
                (Z.to_nat total_samples) 0 []) as H.
  cbn zeta in H. change (1024 * Z.of_nat 0) with 0 in H.
  rewrite H by lia. now rewrite Nat.sub_0_r.
Qed.

Lemma record_whole_chunks_witness :
  record (fun _ => repeat 0%R 1024) 617400
  = (concat (map (fun _ => repeat 0%R 1024)
               (seq 0 (Z.to_nat ((617400 + 1023) / 1024)))),
     1024 * Z.of_nat (Z.to_nat ((617400 + 1023) / 1024)))
  /\ 617400 <= 1024 * Z.of_nat (Z.to_nat ((617400 + 1023) / 1024))
     < 617400 + 1024.
Proof.
  apply (record_whole_chunks (fun _ => repeat 0%R 1024)).
  - intros k. rewrite repeat_length. reflexivity.
  - lia.
Defined.

(** X6.  The analysis skips [int(4 * beat)] samples while the metronome gives
    the count-in [4 * int(beat)] samples: the scorer's first window starts
    at the fifth click or up to three samples after it, never before. *)
Theorem count_in_skip_offset (bpm : Z) :
  0 < bpm ->
  exists samples_per_beat,
    samples_per_beat_of bpm = Ok samples_per_beat
    /\ 4 * samples_per_beat
       <= int_of_float (4 * (60 / inject_Z bpm) * inject_Z SAMPLE_RATE)
       <= 4 * samples_per_beat + 3.
Proof.
  intros Hb. rewrite samples_per_beat_of_bpm by exact Hb.
  eexists. split; [reflexivity |].
  assert (E : int_of_float (4 * (60 / inject_Z bpm) * inject_Z SAMPLE_RATE)
              = 10584000 / bpm).
  { destruct bpm as [| p | p]; try lia.
    unfold int_of_float, Qdiv, Qinv, Qmult, inject_Z, SAMPLE_RATE. cbn.
    rewrite Z.quot_div_nonneg by lia. f_equal; lia. }
  rewrite E.
  pose proof (Z.div_mod 2646000 bpm ltac:(lia)) as H1.
  pose proof (Z.mod_pos_bound 2646000 bpm Hb) as H2.
  pose proof (Z.div_mod 10584000 bpm ltac:(lia)) as H3.
  pose proof (Z.mod_pos_bound 10584000 bpm Hb) as H4.
  nia.
Qed.

Lemma count_in_skip_offset_witness :
  exists samples_per_beat,
    samples_per_beat_of 130 = Ok samples_per_beat
    /\ 4 * samples_per_beat
       <= int_of_float (4 * (60 / inject_Z 130) * inject_Z SAMPLE_RATE)
       <= 4 * samples_per_beat + 3.
Proof. apply (count_in_skip_offset 130). lia. Defined.

(** ** [generate_note]: outcome, ends and ramps *)

(** The sample count of a duration that is a binary fraction. *)
Lemma dyadic_samples (k m : Z) :
  0 <= m ->
  int_of_float (inject_Z SAMPLE_RATE * (inject_Z k / inject_Z (2 ^ m)))
  = Z.quot (44100 * k) (2 ^ m).
Proof.
  intros Hm.
  assert (Hpow : 0 < 2 ^ m) by (apply Z.pow_pos_nonneg; lia).
  destruct (2 ^ m) as [| p | p] eqn:E; try lia.
  unfold int_of_float, Qdiv, Qinv, Qmult, inject_Z, SAMPLE_RATE. cbn.
  rewrite Z.mul_1_r. reflexivity.
Qed.

(** X7.  For a duration of at most a minute that is a binary fraction
    [k / 2^m] with [m <= 30], so that [44100 * duration] is computed without
    rounding, [generate_note] returns exactly when the buffer holds the
    release window, 13230 samples; the buffer then has
    [int(44100 * duration)] samples, and otherwise the call raises
    [ValueError]. *)
Theorem generate_note_outcome (frequency : R) (k m : Z) :
  0 <= m <= 30 -> - (60 * 2 ^ m) <= k <= 60 * 2 ^ m ->
  let duration := (inject_Z k / inject_Z (2 ^ m))%Q in
  let n := Z.quot (44100 * k) (2 ^ m) in
  match generate_note frequency duration with
  | Ok buffer => 13230 <= n /\ Z.of_nat (length buffer) = n
  | Raise e => n < 13230 /\ e = ValueError
  end.
Proof.
  intros Hm Hk. cbn zeta.
  rewrite <- (dyadic_samples k m) by lia.
  set (duration := (inject_Z k / inject_Z (2 ^ m))%Q).
  destruct (Z_lt_le_dec (int_of_float (inject_Z SAMPLE_RATE * duration)) 13230)
    as [Hshort | Hlong].
  - rewrite generate_note_raises by exact Hshort.
    split; [exact Hshort | reflexivity].
  - destruct (generate_note_length frequency duration Hlong)
      as (buffer & -> & Hlen).
    split; assumption.
Qed.

Lemma generate_note_outcome_witness :
  let duration := (inject_Z 5 / inject_Z (2 ^ 4))%Q in
  let n := Z.quot (44100 * 5) (2 ^ 4) in
  match generate_note 110 duration with
  | Ok buffer => 13230 <= n /\ Z.of_nat (length buffer) = n
  | Raise e => n < 13230 /\ e = ValueError
  end.
Proof. apply (generate_note_outcome 110 5 4); lia. Defined.

Lemma nth_error_zip_with {A B C : Type} (f : A -> B -> C) (xs : list A)
  (ys : list B) (i : nat) :
  nth_error (zip_with f xs ys) i
  = match nth_error xs i, nth_error ys i with
    | Some x, Some y => Some (f x y)
    | _, _ => None
    end.
Proof.
  revert ys i. induction xs as [| x xs IH]; intros ys i.
  - destruct i; reflexivity.
  - destruct ys as [| y ys].
    + destruct i; cbn; [reflexivity | now destruct (nth_error xs i)].
    + destruct i as [| i]; cbn; [reflexivity | apply IH].
Qed.

Lemma nth_error_note_waveform_0 (frequency : R) (duration : Q) (n : Z) :
  0 < n ->
  nth_error (note_waveform frequency (ramp 0 duration n)) 0 = Some 0%R.
Proof.
  intros Hn. rewrite note_waveform_pointwise, nth_error_map.
  rewrite nth_error_ramp by lia. cbn [option_map]. f_equal.
  replace (Q2R (0 + inject_Z (Z.of_nat 0) * ((duration - 0) / inject_Z (n - 1))))
    with 0%R.
  - rewrite !Rmult_0_r, sin_0. lra.
  - rewrite (Qeq_eqR _ 0%Q); [unfold Q2R; cbn; lra |].
    change (inject_Z (Z.of_nat 0)) with 0%Q. ring.
Qed.

Lemma release_ends_at_zero :
  nth_error (ramp 0.7 0 13230) (Z.to_nat 13229) = Some (0.7 + inject_Z 13229 * ((0 - 0.7) / inject_Z (13230 - 1)))%Q.
Proof. rewrite nth_error_ramp by lia. now rewrite Z2Nat.id by lia. Qed.

(** X8.  A returned note starts and ends at zero amplitude: the first sample
    is the sines at time 0 and the last has the release ramp at 0. *)
Theorem generate_note_silent_ends (frequency : R) (duration : Q)
  (buffer : list R) :
  generate_note frequency duration = Ok buffer ->
  nth_error buffer 0 = Some 0%R
  /\ nth_error buffer (length buffer - 1) = Some 0%R.
Proof.
  intros H.
  destruct (Z_lt_le_dec (int_of_float (inject_Z SAMPLE_RATE * duration)) 13230)
    as [Hshort | Hlong].
  { rewrite generate_note_raises in H by exact Hshort. discriminate. }
  rewrite generate_note_ok in H by exact Hlong. apply Ok_inj in H. subst buffer.
  set (n := int_of_float (inject_Z SAMPLE_RATE * duration)) in *.
  assert (Hlen : length (envelope_shape (Z.to_nat n)) = Z.to_nat n).
  { unfold envelope_shape.
    rewrite length_app, length_firstn, !length_app, !length_ramp, repeat_length.
    lia. }
  split.
  - rewrite nth_error_zip_with, nth_error_note_waveform_0 by lia.
    destruct (nth_error (envelope_shape (Z.to_nat n)) 0) as [e |] eqn:E.
    + f_equal. lra.
    + apply nth_error_None in E. lia.
  - rewrite length_zip_with, length_note_waveform, length_ramp, Hlen, Nat.min_id.
    rewrite nth_error_zip_with.
    destruct (nth_error (note_waveform frequency (ramp 0 duration n))
                (Z.to_nat n - 1)) as [x |] eqn:Ex.
    2:{ apply nth_error_None in Ex.
        rewrite length_note_waveform, length_ramp in Ex. lia. }
    unfold envelope_shape.
    rewrite nth_error_app2 by
      (rewrite length_firstn, !length_app, !length_ramp, repeat_length; lia).
    rewrite length_firstn, !length_app, !length_ramp, repeat_length.
    replace (Z.to_nat n - 1
             - Nat.min (Z.to_nat n - Z.to_nat 13230)
                 (Z.to_nat 882 + (Z.to_nat 4410 + (Z.to_nat n - Z.to_nat 5292))))%nat
      with (Z.to_nat 13229) by lia.
    rewrite release_ends_at_zero. f_equal.
    rewrite (Qeq_eqR _ 0%Q); [unfold Q2R; cbn; lra | reflexivity].
Qed.

Lemma generate_note_silent_ends_witness :
  exists buffer,
    generate_note 440 1 = Ok buffer
    /\ nth_error buffer 0 = Some 0%R
    /\ nth_error buffer (length buffer - 1) = Some 0%R.
Proof.
  eexists. split.
  - apply generate_note_ok. vm_compute. discriminate.
  - apply (generate_note_silent_ends 440 1).
    apply generate_note_ok. vm_compute. discriminate.
Defined.

(** X9.  In a buffer of at least 0.42 s the envelope rises linearly from 0 to
    1 over the first 882 samples, falls linearly from 1 to 0.7 over the next
    4410, and falls linearly from 0.7 to 0 over the last 13230. *)
Theorem note_envelope_ramps (t : list Q) :
  18522 <= Z.of_nat (length t) ->
  exists envelope,
    note_envelope t = Ok envelope
    /\ (forall i, 0 <= i < 882 ->
          exists e, nth_error envelope (Z.to_nat i) = Some e
                    /\ (e == inject_Z i / 881)%Q)
    /\ (forall i, 0 <= i < 4410 ->
          exists e, nth_error envelope (Z.to_nat (882 + i)) = Some e
                    /\ (e == 1 - 0.3 * inject_Z i / 4409)%Q)
    /\ (forall i, 0 <= i < 13230 ->
          exists e, nth_error envelope (Z.to_nat (Z.of_nat (length t) - 13230 + i))
                    = Some e
                    /\ (e == 0.7 - 0.7 * inject_Z i / 13229)%Q).
Proof.
  intros Hn. exists (envelope_shape (length t)).
  split; [apply note_envelope_ok; lia |].
  split; [| split]; intros i Hi.
  - rewrite envelope_attack by lia. rewrite nth_error_ramp by lia.
    eexists. split; [reflexivity |]. rewrite Z2Nat.id by lia.
    change (inject_Z (882 - 1)) with 881%Q. field.
  - rewrite envelope_decay by lia.
    replace (Z.to_nat (882 + i) - Z.to_nat 882)%nat with (Z.to_nat i) by lia.
    rewrite nth_error_ramp by lia.
    eexists. split; [reflexivity |]. rewrite Z2Nat.id by lia.
    change (inject_Z (4410 - 1)) with 4409%Q. field.
  - rewrite envelope_release by lia.
    replace (Z.to_nat (Z.of_nat (length t) - 13230 + i)
             - (length t - Z.to_nat 13230))%nat with (Z.to_nat i) by lia.
    rewrite nth_error_ramp by lia.
    eexists. split; [reflexivity |]. rewrite Z2Nat.id by lia.
    change (inject_Z (13230 - 1)) with 13229%Q. field.
Qed.

Lemma note_envelope_ramps_witness :
  exists envelope,
    note_envelope (ramp 0 1 44100) = Ok envelope
    /\ (forall i, 0 <= i < 882 ->
          exists e, nth_error envelope (Z.to_nat i) = Some e
                    /\ (e == inject_Z i / 881)%Q)
    /\ (forall i, 0 <= i < 4410 ->
          exists e, nth_error envelope (Z.to_nat (882 + i)) = Some e
                    /\ (e == 1 - 0.3 * inject_Z i / 4409)%Q)
    /\ (forall i, 0 <= i < 13230 ->
          exists e, nth_error envelope
                      (Z.to_nat (Z.of_nat (length (ramp 0 1 44100)) - 13230 + i))
                    = Some e
                    /\ (e == 0.7 - 0.7 * inject_Z i / 13229)%Q).
Proof.
  apply (note_envelope_ramps (ramp 0 1 44100)). rewrite length_ramp. lia.
Defined.

(** ** [generate_metronome]: outcome *)

Lemma samples_per_beat_of_negative (bpm : Z) :
  bpm < 0 -> exists spb, samples_per_beat_of bpm = Ok spb /\ spb <= 0.
Proof.
  intros Hb. unfold samples_per_beat_of.
  destruct (Z.eqb_spec bpm 0); [lia |]. eexists. split; [reflexivity |].
  destruct bpm as [| p | p]; try lia.
  unfold int_of_float, Qdiv, Qinv, Qmult, inject_Z, SAMPLE_RATE. cbn.
  apply Z.quot_le_upper_bound; lia.
Qed.

Lemma generate_metronome_layout (bpm num_beats : Z) :
  0 < bpm <= 1200 -> 0 <= num_beats ->
  generate_metronome bpm num_beats
  = Ok (concat
          (repeat (metronome_click click_times
                   ++ repeat 0%R (Z.to_nat (2646000 / bpm - 2205)))
             (Z.to_nat num_beats))).
Proof.
  intros Hb Hn. unfold generate_metronome.
  rewrite samples_per_beat_of_bpm by lia. cbn [bind].
  set (spb := 2646000 / bpm).
  assert (Hspb : 2205 <= spb).
  { unfold spb. apply Z.div_le_lower_bound; lia. }
  change click_samples with 2205.
  rewrite linspace_ramp by lia. cbn [bind]. fold click_times.
  assert (Hclick : length (metronome_click click_times) = Z.to_nat 2205).
  { rewrite length_metronome_click. apply length_ramp. }
  unfold np_pad_right.
  destruct (Z.ltb_spec (spb - Z.of_nat (length (metronome_click click_times))) 0);
    [lia |]. cbn [bind].
  unfold np_zeros.
  destruct (Z.ltb_spec (num_beats * spb) 0); [nia |]. cbn [bind].
  set (beat := metronome_click click_times ++ repeat 0%R _).
  assert (Hbeat : Z.of_nat (length beat) = spb).
  { unfold beat. rewrite length_app, repeat_length. lia. }
  unfold py_range.
  pose proof (metronome_loop beat spb Hbeat (Z.to_nat num_beats) 0 []) as Hloop.
  cbn [repeat concat app plus] in Hloop.
  rewrite !app_nil_r in Hloop.
  replace (Z.to_nat (num_beats * spb))
    with (Z.to_nat num_beats * length beat)%nat by nia.
  rewrite Hloop. unfold beat.
  rewrite Hclick. repeat f_equal.
Qed.

Lemma generate_metronome_raises (bpm num_beats : Z) :
  bpm < 0 \/ 1200 < bpm \/ (0 < bpm /\ num_beats < 0) ->
  generate_metronome bpm num_beats = Raise ValueError.
Proof.
  intros H. unfold generate_metronome.
  change click_samples with 2205.
  destruct (Z_lt_le_dec bpm 0) as [Hneg | Hpos].
  - destruct (samples_per_beat_of_negative bpm Hneg) as (spb & -> & Hspb).
    cbn [bind]. rewrite linspace_ramp by lia. cbn [bind].
    unfold np_pad_right. rewrite length_metronome_click, length_ramp.
    destruct (Z.ltb_spec (spb - Z.of_nat (Z.to_nat 2205)) 0); [reflexivity | lia].
  - assert (Hb : 0 < bpm) by lia.
    rewrite samples_per_beat_of_bpm by lia. cbn [bind].
    rewrite linspace_ramp by lia. cbn [bind].
    unfold np_pad_right. rewrite length_metronome_click, length_ramp.
    destruct (Z.ltb_spec (2646000 / bpm - Z.of_nat (Z.to_nat 2205)) 0) as [| Hpad];
      [reflexivity |]. cbn [bind].
    assert (Hslow : bpm <= 1200).
    { destruct (Z_lt_le_dec 1200 bpm) as [Hfast |]; [| assumption].
      assert (2646000 / bpm < 2205) by (apply Z.div_lt_upper_bound; lia). lia. }
    unfold np_zeros.
    destruct (Z.ltb_spec (num_beats * (2646000 / bpm)) 0); [reflexivity | nia].
Qed.

Lemma metronome_click_within (t : list Q) :
  Forall (fun x => (0 <= x)%Q) t ->
  Forall (fun x => Rabs x <= 1)%R (metronome_click t).
Proof.
  intros Ht. unfold metronome_click. apply Forall_map.
  eapply Forall_impl; [| exact Ht]. intros ti Hti. cbn beta.
  apply Qle_Rle in Hti.
  replace (Q2R 0) with 0%R in Hti by (unfold Q2R; cbn; lra).
  pose proof (SIN_bound (2 * PI * 1000 * Q2R ti)) as Hs.
  pose proof (exp_pos (-10 * Q2R ti)) as He.
  assert (He1 : (exp (-10 * Q2R ti) <= 1)%R).
  { rewrite <- exp_0.
    destruct (Req_dec (-10 * Q2R ti) 0) as [-> | Hne]; [lra |].
    left. apply exp_increasing. lra. }
  apply Rabs_le. nra.
Qed.

Lemma Forall_concat_repeat {A : Type} (P : A -> Prop) (xs : list A) (n : nat) :
  Forall P xs -> Forall P (concat (repeat xs n)).
Proof.
  intros H. induction n as [| n IH]; cbn; [constructor |].
  apply Forall_app. split; assumption.
Qed.

(** X10.  For a tempo of at most 3000000 in absolute value and at most
    1000 beats, [generate_metronome] returns exactly for a tempo in
    (0, 1200] and a non-negative number of beats.  Every sample of the track
    is within [-1, 1]; below 735 BPM the track has
    [num_beats * (2646000 / bpm)] samples, and up to 1200 BPM at most one
    sample per beat less.  A zero tempo raises [ZeroDivisionError]; a
    negative one, one above 1200 (a beat shorter than the 2205-sample click)
    or a negative beat count raises [ValueError]. *)
Theorem generate_metronome_outcome (bpm num_beats : Z) :
  - 3000000 <= bpm <= 3000000 -> - 1000 <= num_beats <= 1000 ->
  match generate_metronome bpm num_beats with
  | Ok track =>
      0 < bpm <= 1200 /\ 0 <= num_beats
      /\ (bpm < 735 ->
          Z.of_nat (length track) = num_beats * (2646000 / bpm))
      /\ num_beats * (2646000 / bpm - 1) <= Z.of_nat (length track)
         <= num_beats * (2646000 / bpm)
      /\ Forall (fun x => Rabs x <= 1)%R track
  | Raise e =>
      (bpm = 0 /\ e = ZeroDivisionError)
      \/ ((bpm < 0 \/ 1200 < bpm \/ num_beats < 0) /\ e = ValueError)
  end.
Proof.
  intros _ _.
  destruct (Z.eq_dec bpm 0) as [-> | Hnz].
  { cbn. left. split; reflexivity. }
  destruct (Z_lt_le_dec bpm 0) as [Hneg | Hpos].
  { rewrite generate_metronome_raises by lia. right. split; [lia | reflexivity]. }
  destruct (Z_lt_le_dec 1200 bpm) as [Hfast | Hslow].
  { rewrite generate_metronome_raises by lia. right. split; [lia | reflexivity]. }
  destruct (Z_lt_le_dec num_beats 0) as [Hn | Hn].
  { rewrite generate_metronome_raises by lia. right. split; [lia | reflexivity]. }
  rewrite generate_metronome_layout by lia.
  assert (Hspb : 2205 <= 2646000 / bpm) by (apply Z.div_le_lower_bound; lia).
  assert (Hlen : Z.of_nat
                   (length
                      (concat
                         (repeat
                            (metronome_click click_times
                             ++ repeat 0%R (Z.to_nat (2646000 / bpm - 2205)))
                            (Z.to_nat num_beats))))
                 = num_beats * (2646000 / bpm)).
  { rewrite length_concat_repeat, length_app, length_metronome_click.
    unfold click_times. rewrite length_ramp, repeat_length. nia. }
  split; [lia |]. split; [lia |]. split; [intros _; exact Hlen |].
  split; [rewrite Hlen; nia |].
  apply Forall_concat_repeat. apply Forall_app. split.
  - apply metronome_click_within. unfold click_times.
    eapply Forall_impl;
      [| apply (ramp_between 0 0.05 0 0.05 2205); [lia | lra | lra]].
    intros x [H _]. exact H.
  - apply Forall_forall. intros x Hx. apply repeat_spec in Hx. subst x.
    rewrite Rabs_R0. lra.
Qed.

Lemma generate_metronome_outcome_witness :
  match generate_metronome 120 28 with
  | Ok track =>
      0 < 120 <= 1200 /\ 0 <= 28
      /\ (120 < 735 -> Z.of_nat (length track) = 28 * (2646000 / 120))
      /\ 28 * (2646000 / 120 - 1) <= Z.of_nat (length track)
         <= 28 * (2646000 / 120)
      /\ Forall (fun x => Rabs x <= 1)%R track
  | Raise e =>
      (120 = 0 /\ e = ZeroDivisionError)
      \/ ((120 < 0 \/ 1200 < 120 \/ 28 < 0) /\ e = ValueError)
  end.
Proof. apply (generate_metronome_outcome 120 28); lia. Defined.

(** X4.  At a tempo in (0, 735) the metronome track is built, and once
    [samples_recorded] samples are in, the note highlighted is the one the
    scorer expects on that beat: entry [beat - 4] of the position up and
    then down, where [beat = samples_recorded // (2646000 // bpm)]; during
    the count-in and from the last beat on nothing is highlighted. *)
Theorem cue_after_sequence (notes : list Note) (bpm samples_recorded : Z) :
  0 < bpm < 735 ->
  cue_after notes bpm samples_recorded
  = let beat_number := samples_recorded / (2646000 / bpm) in
    Ok (if (4 <=? beat_number)
           && (beat_number <? 4 + Z.of_nat (length notes) * 2)
        then nth_error (notes ++ rev notes) (Z.to_nat (beat_number - 4))
        else None).
Proof.
  intros Hb. unfold cue_after.
  destruct (Z.eqb_spec bpm 0); [lia |].
  rewrite generate_metronome_layout by lia. cbn [bind].
  rewrite samples_per_beat_of_bpm by lia. cbn [bind].
  assert (0 < 2646000 / bpm) by (apply Z.div_str_pos; lia).
  destruct (Z.eqb_spec (2646000 / bpm) 0); [lia |].
  cbn zeta. f_equal. apply expected_note_index.
Qed.

Lemma cue_after_sequence_witness :
  cue_after (Scale_notes root_and_third) 120 (108 * 1024)
  = let beat_number := (108 * 1024) / (2646000 / 120) in
    Ok (if (4 <=? beat_number)
           && (beat_number
               <? 4 + Z.of_nat (length (Scale_notes root_and_third)) * 2)
        then nth_error (Scale_notes root_and_third
                        ++ rev (Scale_notes root_and_third))
               (Z.to_nat (beat_number - 4))
        else None).
Proof.
  apply (cue_after_sequence (Scale_notes root_and_third) 120 (108 * 1024)).
  lia.
Defined.

(** ** [play_demonstration] *)

Lemma note_samples_within (frequency : R) (t : list Q) (n : nat) :
  Forall (fun x => Rabs x <= 0.6)%R
    (zip_with (fun x e => (x * Q2R e * 0.3)%R) (note_waveform frequency t)
       (envelope_shape n)).
Proof.
  apply Forall_zip_with with
    (P := fun x => (Rabs x <= 2)%R) (Q := fun e => (0 <= e <= 1)%Q).
  - intros x e Hx [He0 He1].
    apply Qle_Rle in He0, He1.
    replace (Q2R 0) with 0%R in He0 by (unfold Q2R; cbn; lra).
    replace (Q2R 1) with 1%R in He1 by (unfold Q2R; cbn; lra).
    assert (Hx' : (-2 <= x <= 2)%R)
      by (unfold Rabs in Hx; destruct (Rcase_abs x); lra).
    apply Rabs_le. nra.
  - apply note_waveform_bound.
  - apply envelope_shape_between.
Qed.

Lemma demonstration_click_within (t : list Q) :
  Forall (fun x => (0 <= x)%Q) t ->
  Forall (fun x => Rabs x <= 0.3)%R (demonstration_click t).
Proof.
  intros Ht. unfold demonstration_click. apply Forall_map.
  eapply Forall_impl; [| exact Ht]. intros ti Hti. cbn beta.
  apply Qle_Rle in Hti.
  replace (Q2R 0) with 0%R in Hti by (unfold Q2R; cbn; lra).
  pose proof (SIN_bound (2 * PI * 1000 * Q2R ti)) as Hs.
  pose proof (exp_pos (-10 * Q2R ti)) as He.
  assert (He1 : (exp (-10 * Q2R ti) <= 1)%R).
  { rewrite <- exp_0.
    destruct (Req_dec (-10 * Q2R ti) 0) as [-> | Hne]; [lra |].
    left. apply exp_increasing. lra. }
  apply Rabs_le. nra.
Qed.

Lemma click_times_nonneg : Forall (fun x => (0 <= x)%Q) click_times.
Proof.
  unfold click_times.
  eapply Forall_impl; [| apply (ramp_between 0 0.05 0 0.05 2205); [lia | lra | lra]].
  intros x [H _]. exact H.
Qed.

Lemma length_demonstration_click (t : list Q) :
  length (demonstration_click t) = length t.
Proof. unfold demonstration_click. apply length_map. Qed.

(** The buffer of one demonstrated note: the note with the click added to
    its first 2205 samples. *)
Lemma demonstration_note_ok (frequency : R) (bpm : Z) :
  0 < bpm <= 200 ->
  exists audio,
    demonstration_note (demonstration_click click_times) frequency
      (60 / inject_Z bpm) = Ok audio
    /\ Z.of_nat (length audio) = 2646000 / bpm
    /\ Forall (fun x => Rabs x <= 0.9)%R audio.
Proof.
  intros Hb. unfold demonstration_note.
  assert (Hn : 13230 <= 2646000 / bpm) by (apply Z.div_le_lower_bound; lia).
  rewrite generate_note_ok by (rewrite beat_samples by lia; exact Hn).
  rewrite beat_samples by lia. cbn [bind].
  set (audio := zip_with _ _ _).
  assert (Hlen : length audio = Z.to_nat (2646000 / bpm)).
  { unfold audio. rewrite length_zip_with, length_note_waveform, length_ramp.
    unfold envelope_shape.
    rewrite length_app, length_firstn, !length_app, !length_ramp, repeat_length.
    lia. }
  assert (Hall : Forall (fun x => Rabs x <= 0.6)%R audio)
    by apply note_samples_within.
  assert (Hclick : length (demonstration_click click_times) = Z.to_nat 2205).
  { rewrite length_demonstration_click. apply length_ramp. }
  unfold add_slice.
  rewrite slice_bounds_inner by lia.
  rewrite Hclick.
  replace (Z.to_nat (Z.of_nat (Z.to_nat 2205)) - Z.to_nat 0)%nat
    with (Z.to_nat 2205) by lia.
  rewrite Nat.eqb_refl.
  eexists. split; [reflexivity |]. split.
  - rewrite !length_app, length_zip_with, !length_firstn, !length_skipn, Hclick.
    lia.
  - apply Forall_app. split; [apply Forall_firstn; eapply Forall_impl; [| exact Hall];
                              intros x Hx; lra |].
    apply Forall_app. split.
    + apply Forall_zip_with with
        (P := fun x => (Rabs x <= 0.6)%R) (Q := fun c => (Rabs c <= 0.3)%R).
      * intros x c Hx Hc. pose proof (Rabs_triang x c). lra.
      * apply Forall_firstn. apply Forall_skipn. exact Hall.
      * apply demonstration_click_within, click_times_nonneg.
    + apply Forall_skipn. eapply Forall_impl; [| exact Hall]. intros x Hx. lra.
Qed.

Lemma demonstrate_loop (P : list R -> Prop) (click : list R)
  (seconds_per_beat : Q) (notes : list Note) (played : list (list R)) :
  (forall frequency, exists audio,
      demonstration_note click frequency seconds_per_beat = Ok audio /\ P audio) ->
  exists buffers,
    for_each notes (demonstrate click seconds_per_beat) played
    = Ok (played ++ buffers)
    /\ length buffers = length notes /\ Forall P buffers.
Proof.
  intros Hnote. revert played.
  induction notes as [| note notes IH]; intros played.
  - exists []. cbn. rewrite app_nil_r. repeat split. constructor.
  - cbn [for_each]. unfold demonstrate at 1.
    destruct (Hnote (Note_frequency note)) as (audio & -> & Haudio).
    cbn [bind].
    destruct (IH (played ++ [audio])) as (buffers & -> & Hlen & Hall).
    exists (audio :: buffers). split; [now rewrite <- app_assoc |].
    split; [cbn; lia | now constructor].
Qed.

Lemma seconds_per_beat_nonneg (bpm : Z) : 0 < bpm -> (0 <= 60 / inject_Z bpm)%Q.
Proof.
  intros Hb. destruct bpm as [| p | p]; try lia.
  unfold Qle, Qdiv, Qinv, Qmult, inject_Z. cbn. lia.
Qed.

(** X11.  At a tempo in (0, 200] the demonstration plays four count-in clicks
    and then the scale up and down, one buffer of one beat
    ([2646000 / bpm] samples) per note, and no sample of any buffer leaves
    [-0.9, 0.9]: the note stays within 0.6 and the click within 0.3. *)
Theorem play_demonstration_buffers (scale : ScalePosition) (bpm : Z) :
  0 < bpm <= 200 ->
  exists buffers,
    play_demonstration scale bpm
    = Ok (repeat (demonstration_click click_times) 4 ++ buffers)
    /\ length buffers = (2 * length (Scale_notes scale))%nat
    /\ Forall (fun audio =>
                 Z.of_nat (length audio) = 2646000 / bpm
                 /\ Forall (fun x => Rabs x <= 0.9)%R audio) buffers
    /\ Forall (fun x => Rabs x <= 0.3)%R (demonstration_click click_times).
Proof.
  intros Hb. unfold play_demonstration.
  destruct (Z.eqb_spec bpm 0); [lia |].
  change (int_of_float (0.05 * inject_Z SAMPLE_RATE)) with 2205.
  rewrite linspace_ramp by lia. cbn [bind]. fold click_times.
  destruct (Qlt_le_dec (60 / inject_Z bpm) 0) as [Hneg | _].
  { pose proof (seconds_per_beat_nonneg bpm ltac:(lia)) as H. lra. }
  cbn [bind].
  set (P := fun audio : list R =>
              Z.of_nat (length audio) = 2646000 / bpm
              /\ Forall (fun x => Rabs x <= 0.9)%R audio).
  assert (Hnote : forall frequency, exists audio,
             demonstration_note (demonstration_click click_times) frequency
               (60 / inject_Z bpm) = Ok audio /\ P audio).
  { intros frequency.
    destruct (demonstration_note_ok frequency bpm Hb) as (audio & H & Hlen & Hall).
    exists audio. repeat split; assumption. }
  destruct (demonstrate_loop P _ _ (Scale_notes scale)
              (repeat (demonstration_click click_times) 4) Hnote)
    as (up & -> & Hup & Pup).
  cbn [bind].
  destruct (demonstrate_loop P _ _ (rev (Scale_notes scale))
              (repeat (demonstration_click click_times) 4 ++ up) Hnote)
    as (down & -> & Hdown & Pdown).
  exists (up ++ down). split; [now rewrite <- app_assoc |].
  split; [rewrite length_app, Hup, Hdown, length_rev; lia |].
  split; [apply Forall_app; split; assumption |].
  apply demonstration_click_within, click_times_nonneg.
Qed.

Lemma play_demonstration_buffers_witness :
  exists buffers,
    play_demonstration root_and_third 120
    = Ok (repeat (demonstration_click click_times) 4 ++ buffers)
    /\ length buffers = (2 * length (Scale_notes root_and_third))%nat
    /\ Forall (fun audio =>
                 Z.of_nat (length audio) = 2646000 / 120
                 /\ Forall (fun x => Rabs x <= 0.9)%R audio) buffers
    /\ Forall (fun x => Rabs x <= 0.3)%R (demonstration_click click_times).
Proof. apply (play_demonstration_buffers root_and_third 120). lia. Defined.



(** ** Note names and octaves *)

Lemma py_round_near (x : R) (s : Z) :
  (Rabs (x - IZR s) < 1 / 2)%R -> py_round x = s.
Proof.
  intros H. apply Rabs_def2 in H. destruct H as [Hhi Hlo].
  unfold py_round.
  destruct (Rlt_dec x (IZR s)) as [Hbelow | Habove].
  - destruct (Int_part_frac_part_spec x (s - 1) (x - IZR (s - 1))) as [Hi Hf].
    + rewrite minus_IZR. lra.
    + lra.
    + rewrite <- Hi, <- Hf. rewrite minus_IZR.
      destruct (Rlt_dec (x - (IZR s - 1)) (1 / 2)); [lra |].
      destruct (Rlt_dec (1 / 2) (x - (IZR s - 1))); [lia | lra].
  - destruct (Int_part_frac_part_spec x s (x - IZR s)) as [Hi Hf].
    + lra.
    + lra.
    + rewrite <- Hi, <- Hf.
      destruct (Rlt_dec (x - IZR s) (1 / 2)); [reflexivity | lra].
Qed.

Lemma ln_2_pos : (0 < ln 2)%R.
Proof. rewrite <- ln_1. apply ln_increasing; lra. Qed.

Lemma Rpower_2_pos (y : R) : (0 < Rpower 2 y)%R.
Proof. unfold Rpower. apply exp_pos. Qed.

(** In exact arithmetic, a positive frequency less than half a semitone
    from the pitch [s] semitones above A4 rounds to [s]. *)
Lemma find_closest_note_near (frequency : R) (s : Z) :
  (0 < frequency)%R ->
  (Rabs (12 * log2 (frequency / (440 * Rpower 2 (IZR s / 12)))) < 1 / 2)%R ->
  find_closest_note frequency
  = Ok (nth (Z.to_nat ((s + 9) mod 12)) note_table ""
        ++ str_of_Z (4 + (s + 9) / 12))%string.
Proof.
  intros Hf Hnear.
  rewrite find_closest_note_of_semitones by exact Hf. cbn zeta.
  rewrite log2_over_fretted in Hnear by lra.
  replace (440.0)%R with 440%R by lra.
  rewrite (py_round_near _ s); [reflexivity |].
  replace (12 * log2 (frequency / 440) - IZR s)%R
    with (12 * (log2 (frequency / 440) - IZR s / 12))%R by field.
  exact Hnear.
Qed.

(** X13.  A frequency between 1 Hz and 100 kHz that is within 0.49 semitone
    of the pitch [s] semitones above A4 (440 Hz), clear of the rounding tie
    at half a semitone, is labelled with entry [(s + 9) mod 12] of the table
    that starts at A and with octave [4 + (s + 9) div 12]: the name of the
    pitch nine semitones higher, for every [s]. *)
Theorem find_closest_note_semitone (frequency : R) (s : Z) :
  (1 <= frequency <= 100000)%R ->
  (Rabs (12 * log2 (frequency / (440 * Rpower 2 (IZR s / 12)))) <= 49 / 100)%R ->
  find_closest_note frequency
  = Ok (nth (Z.to_nat ((s + 9) mod 12)) note_table ""
        ++ str_of_Z (4 + (s + 9) / 12))%string.
Proof.
  intros Hf Hnear.
  rewrite find_closest_note_of_semitones by lra. cbn zeta.
  rewrite log2_over_fretted in Hnear by lra.
  replace (440.0)%R with 440%R by lra.
  rewrite (py_round_near _ s); [reflexivity |].
  replace (12 * log2 (frequency / 440) - IZR s)%R
    with (12 * (log2 (frequency / 440) - IZR s / 12))%R by field.
  lra.
Qed.

Lemma octave_above_A4 :
  (Rabs (12 * log2 (880 / (440 * Rpower 2 (IZR 12 / 12)))) <= 49 / 100)%R.
Proof.
  replace (IZR 12 / 12)%R with 1%R by lra.
  rewrite Rpower_1 by lra.
  replace (880 / (440 * 2))%R with 1%R by lra.
  rewrite log2_1, Rmult_0_r, Rabs_R0. lra.
Qed.

Lemma find_closest_note_semitone_witness :
  find_closest_note 880
  = Ok (nth (Z.to_nat ((12 + 9) mod 12)) note_table ""
        ++ str_of_Z (4 + (12 + 9) / 12))%string.
Proof.
  apply (find_closest_note_semitone 880 12); [lra | exact octave_above_A4].
Defined.

(** X14.  For a frequency between 1 Hz and 100 kHz within 0.49 semitone of
    the pitch [s] semitones above A4, doubling the frequency keeps the table
    entry and adds one to the octave number of the label. *)
Theorem find_closest_note_octave (frequency : R) (s : Z) :
  (1 <= frequency <= 100000)%R ->
  (Rabs (12 * log2 (frequency / (440 * Rpower 2 (IZR s / 12)))) <= 49 / 100)%R ->
  let entry := Z.to_nat ((s + 9) mod 12) in
  let octave := 4 + (s + 9) / 12 in
  find_closest_note frequency
  = Ok (nth entry note_table "" ++ str_of_Z octave)%string
  /\ find_closest_note (2 * frequency)
     = Ok (nth entry note_table "" ++ str_of_Z (octave + 1))%string.
Proof.
  intros Hf Hnear. cbn zeta. split.
  - apply find_closest_note_near; lra.
  - rewrite (find_closest_note_near (2 * frequency) (s + 12)).
    + replace (s + 12 + 9) with (s + 9 + 1 * 12) by lia.
      rewrite Z.mod_add, Z.div_add by lia.
      do 3 f_equal. lia.
    + lra.
    + rewrite plus_IZR.
      replace ((IZR s + 12) / 12)%R with (IZR s / 12 + 1)%R by lra.
      rewrite Rpower_plus, Rpower_1 by lra.
      pose proof (Rpower_2_pos (IZR s / 12)) as Hp.
      replace (2 * frequency / (440 * (Rpower 2 (IZR s / 12) * 2)))%R
        with (frequency / (440 * Rpower 2 (IZR s / 12)))%R by (field; lra).
      lra.
Qed.

Lemma find_closest_note_octave_witness :
  let entry := Z.to_nat ((12 + 9) mod 12) in
  let octave := 4 + (12 + 9) / 12 in
  find_closest_note 880
  = Ok (nth entry note_table "" ++ str_of_Z octave)%string
  /\ find_closest_note (2 * 880)
     = Ok (nth entry note_table "" ++ str_of_Z (octave + 1))%string.
Proof.
  apply (find_closest_note_octave 880 12); [lra | exact octave_above_A4].
Defined.

Lemma string_frequencies_outside (gstring : Z) :
  gstring < 1 \/ 6 < gstring -> string_frequencies gstring = Raise KeyError.
Proof.
  intros H. destruct gstring as [| p | p]; try reflexivity.
  destruct p as [[[p | p |] | [p | p |] |] | [[p | p |] | [p | p |] |] |];
    try reflexivity; lia.
Qed.

(** X15.  Twelve frets up the same string is one octave: any fret whose note
    exists has, twelve frets higher, a note of the same name and twice the
    frequency; outside strings 1 to 6 [note_at] raises [KeyError]. *)
Theorem note_at_octave (fret gstring : Z) :
  match note_at fret gstring with
  | Ok note =>
      1 <= gstring <= 6
      /\ note_at (fret + 12) gstring
         = Ok (mkNote (fret + 12) gstring (2 * Note_frequency note)
                 (Note_name note))
  | Raise e => (gstring < 1 \/ 6 < gstring) /\ e = KeyError
  end.
Proof.
  assert (Hdouble : forall base : R,
             (base * Rpower 2 (IZR (fret + 12) / 12)
              = 2 * (base * Rpower 2 (IZR fret / 12)))%R).
  { intros base. rewrite plus_IZR.
    replace ((IZR fret + 12) / 12)%R with (IZR fret / 12 + 1)%R by field.
    rewrite Rpower_plus, Rpower_1 by lra. ring. }
  assert (Hmod : (fret + 12) mod 12 = fret mod 12).
  { replace (fret + 12) with (fret + 1 * 12) by lia. apply Z.mod_add. lia. }
  unfold note_at, calculate_note_frequency, get_note_name.
  destruct (Z_lt_le_dec gstring 1) as [Hlow | Hlow].
  { rewrite string_frequencies_outside by lia. cbn. split; [lia | reflexivity]. }
  destruct (Z_lt_le_dec 6 gstring) as [Hhigh | Hhigh].
  { rewrite string_frequencies_outside by lia. cbn. split; [lia | reflexivity]. }
  assert (Hg : gstring = 1 \/ gstring = 2 \/ gstring = 3 \/ gstring = 4
               \/ gstring = 5 \/ gstring = 6) by lia.
  destruct Hg as [-> | [-> | [-> | [-> | [-> | ->]]]]];
    cbn [string_frequencies note_names bind Note_frequency Note_name];
    (split; [lia |]); rewrite Hdouble, Hmod; reflexivity.
Qed.

(** ** The state after a pass *)

Lemma dict_find_set_same {V : Type} (d : list (string * V)) (k : string) (v : V) :
  dict_find (dict_set d k v) k = Some v.
Proof.
  induction d as [| [k' v'] d IH]; cbn.
  - now rewrite String.eqb_refl.
  - destruct (String.eqb k k') eqn:E; cbn.
    + now rewrite String.eqb_refl.
    + now rewrite E.
Qed.

Lemma dict_find_set_other {V : Type} (d : list (string * V)) (k other : string)
  (v : V) :
  other <> k -> dict_find (dict_set d k v) other = dict_find d other.
Proof.
  intros Hne. induction d as [| [k' v'] d IH]; cbn.
  - destruct (String.eqb_spec other k); [contradiction | reflexivity].
  - destruct (String.eqb_spec k k') as [<- | Hk]; cbn.
    + destruct (String.eqb_spec other k); [contradiction | reflexivity].
    + destruct (String.eqb other k'); [reflexivity | exact IH].
Qed.

Lemma record_accuracy_appends (level_key : string) (accuracy : Q)
  (self : Trainer) :
  dict_find
    (level_accuracies (progress (record_accuracy level_key accuracy self)))
    level_key
  = Some (saved_get (dict_find (level_accuracies (progress self)) level_key) []
          ++ [accuracy]).
Proof.
  unfold record_accuracy.
  destruct (progress self) as [score won target levels highest unlocked].
  cbn [progress level_accuracies set_progress set_level_accuracies].
  rewrite dict_find_set_same. do 2 f_equal.
  destruct (dict_find levels level_key) eqn:E.
  - now rewrite E.
  - now rewrite dict_find_set_same.
Qed.

Lemma record_accuracy_fields (level_key : string) (accuracy : Q)
  (self : Trainer) :
  set_level_accuracies (level_accuracies (progress self))
    (progress (record_accuracy level_key accuracy self))
  = progress self.
Proof.
  unfold record_accuracy. now destruct (progress self).
Qed.

(** X16.  [record_accuracy] appends the accuracy to the history of its level,
    starting a history when the level has none, and touches no other level
    and no other field of the progress. *)
Theorem record_accuracy_history (level_key : string) (accuracy : Q)
  (self : Trainer) :
  let before := progress self in
  let after := progress (record_accuracy level_key accuracy self) in
  dict_find (level_accuracies after) level_key
  = Some (saved_get (dict_find (level_accuracies before) level_key) []
          ++ [accuracy])
  /\ (forall other, other <> level_key ->
        dict_find (level_accuracies after) other
        = dict_find (level_accuracies before) other)
  /\ set_level_accuracies (level_accuracies before) after = before.
Proof.
  cbn zeta.
  split; [apply record_accuracy_appends |].
  split; [| apply record_accuracy_fields].
  intros other Hne. unfold record_accuracy.
  destruct (progress self) as [score won target levels highest unlocked].
  cbn [progress level_accuracies set_progress set_level_accuracies].
  rewrite dict_find_set_other by exact Hne.
  destruct (dict_find levels level_key); [reflexivity |].
  now rewrite dict_find_set_other.
Qed.

(** [play_game_progress] step by step: where an exception leaves the
    trainer, and that only the last step writes the file. *)
Lemma play_game_progress_steps (position : string) (scale : ScalePosition)
  (accuracy : Q) (self : Trainer) :
  play_game_progress position scale accuracy self
  = let self1 :=
      record_accuracy (Scale_name scale ++ "_" ++ str_of_Z (current_bpm self))%string
        accuracy self in
    if Qeq_bool accuracy 100 then
      let self2 :=
        append_game_won
          (Scale_name scale ++ " at " ++ str_of_Z (current_bpm self) ++ " BPM")%string
          self1 in
      let self3 :=
        set_current_bpm
          (Z.min (current_bpm self2 + 10) (target_bpm (progress self2))) self2 in
      let self4 :=
        set_progress
          (set_highest_bpm
             (Z.max (highest_bpm (progress self3)) (current_bpm self3))
             (progress self3)) self3 in
      match bind (last_char position) int_of_str with
      | Ok current_pos =>
          let next_pos := ("position" ++ str_of_Z (current_pos + 1))%string in
          (save_progress
             (if (current_pos <? 5)
                 && negb (str_in next_pos (positions_unlocked (progress self4)))
              then unlock_position next_pos self4
              else self4),
           Ok tt)
      | Raise e => (self4, Raise e)
      end
    else (save_progress self1, Ok tt).
Proof.
  unfold play_game_progress, bindM, get, modify, lift, ret. cbn zeta.
  destruct (Qeq_bool accuracy 100); [| reflexivity].
  cbv beta iota.
  destruct (last_char position) as [digit | e]; [| reflexivity].
  cbn [bind]. destruct (int_of_str digit) as [current_pos | e]; [| reflexivity].
  destruct ((current_pos <? 5) && _); reflexivity.
Qed.

Lemma position_number (position : string) (next : option string) :
  In (position, next) position_order ->
  exists current_pos,
    bind (last_char position) int_of_str = Ok current_pos
    /\ 1 <= current_pos <= 5
    /\ ((current_pos <? 5) = true ->
        In ("position" ++ str_of_Z (current_pos + 1))%string position_keys
        /\ next = Some ("position" ++ str_of_Z (current_pos + 1))%string)
    /\ ((current_pos <? 5) = false -> next = None).
Proof.
  intros Hin. simpl in Hin.
  destruct Hin as [H | [H | [H | [H | [H | []]]]]]; inversion H; subst; clear H.
  - exists 1. split; [reflexivity |]. split; [lia |].
    split; [intros _; split; [cbn; tauto | reflexivity] | discriminate].
  - exists 2. split; [reflexivity |]. split; [lia |].
    split; [intros _; split; [cbn; tauto | reflexivity] | discriminate].
  - exists 3. split; [reflexivity |]. split; [lia |].
    split; [intros _; split; [cbn; tauto | reflexivity] | discriminate].
  - exists 4. split; [reflexivity |]. split; [lia |].
    split; [intros _; split; [cbn; tauto | reflexivity] | discriminate].
  - exists 5. split; [reflexivity |]. split; [lia |].
    split; [discriminate | reflexivity].
Qed.

Lemma str_in_In (x : string) (xs : list string) : str_in x xs = true <-> In x xs.
Proof.
  unfold str_in. rewrite existsb_exists. split.
  - intros (y & Hy & E). apply String.eqb_eq in E. now subst.
  - intros H. exists x. split; [exact H | apply String.eqb_refl].
Qed.

Lemma NoDup_snoc {A : Type} (xs : list A) (x : A) :
  NoDup xs -> ~ In x xs -> NoDup (xs ++ [x]).
Proof.
  intros Hxs Hx. induction Hxs as [| y ys Hy Hys IH]; cbn.
  - constructor; [intros [] | constructor].
  - constructor.
    + rewrite in_app_iff. cbn. intros [H | [H | []]]; [contradiction |].
      subst. apply Hx. now left.
    + apply IH. intros H. apply Hx. now right.
Qed.

(** X17.  A command-line pass on one of the five positions always returns and
    ends by writing the progress it leaves in memory to the file.  It keeps
    the unlocked positions duplicate-free and among the five keys, never
    changes the target tempo or the total score, and appends the accuracy to
    the history of the level played. *)
Theorem play_game_progress_keeps_state (position : string)
  (next : option string) (scale : ScalePosition) (accuracy : Q)
  (self : Trainer) :
  In (position, next) position_order ->
  Forall (fun p => In p position_keys) (positions_unlocked (progress self)) ->
  NoDup (positions_unlocked (progress self)) ->
  exists self',
    play_game_progress position scale accuracy self = (self', Ok tt)
    /\ progress_file self' = Some (Json (to_saved (progress self')))
    /\ Forall (fun p => In p position_keys) (positions_unlocked (progress self'))
    /\ NoDup (positions_unlocked (progress self'))
    /\ target_bpm (progress self') = target_bpm (progress self)
    /\ total_score (progress self') = total_score (progress self)
    /\ dict_find (level_accuracies (progress self'))
         (Scale_name scale ++ "_" ++ str_of_Z (current_bpm self))%string
       = Some (saved_get
                 (dict_find (level_accuracies (progress self))
                    (Scale_name scale ++ "_" ++ str_of_Z (current_bpm self))%string) []
               ++ [accuracy]).
Proof.
  intros Hin Hkeys Hnodup.
  rewrite play_game_progress_steps. cbn zeta.
  set (level_key := (Scale_name scale ++ "_" ++ str_of_Z (current_bpm self))%string).
  pose proof (record_accuracy_appends level_key accuracy self) as Hhist.
  pose proof (record_accuracy_fields level_key accuracy self) as Hrest.
  set (self1 := record_accuracy level_key accuracy self) in *.
  assert (Hunlocked : positions_unlocked (progress self1)
                      = positions_unlocked (progress self)).
  { exact (f_equal positions_unlocked Hrest). }
  assert (Htarget : target_bpm (progress self1) = target_bpm (progress self)).
  { exact (f_equal target_bpm Hrest). }
  assert (Hscore : total_score (progress self1) = total_score (progress self)).
  { exact (f_equal total_score Hrest). }
  clearbody self1.
  destruct (Qeq_bool accuracy 100).
  2:{ eexists. split; [reflexivity |]. cbn.
      rewrite Hunlocked, Htarget, Hscore. repeat split; assumption. }
  destruct (position_number position next Hin) as (current_pos & -> & _ & Hnext & _).
  destruct (current_pos <? 5) eqn:Hlast; cbn [andb].
  - destruct (Hnext eq_refl) as [Hkey _].
    set (next_pos := ("position" ++ str_of_Z (current_pos + 1))%string) in *.
    clearbody next_pos.
    cbn [progress positions_unlocked append_game_won set_current_bpm
         set_progress set_highest_bpm set_games_won].
    rewrite Hunlocked.
    destruct (str_in next_pos (positions_unlocked (progress self))) eqn:Hseen;
      cbn [negb].
    + eexists. split; [reflexivity |]. cbn.
      rewrite Hunlocked, Htarget, Hscore. repeat split; assumption.
    + eexists. split; [reflexivity |]. cbn.
      rewrite Hunlocked, Htarget, Hscore.
      split; [reflexivity |].
      split; [apply Forall_app; split; [assumption | constructor; [exact Hkey | constructor]] |].
      split; [| repeat split; assumption].
      apply NoDup_snoc; [assumption |].
      intros H. apply str_in_In in H. congruence.
  - eexists. split; [reflexivity |]. cbn.
    rewrite Hunlocked, Htarget, Hscore. repeat split; assumption.
Qed.

Lemma play_game_progress_keeps_state_witness :
  exists self',
    play_game_progress "position1" root_and_third 100 fresh_trainer
    = (self', Ok tt)
    /\ progress_file self' = Some (Json (to_saved (progress self')))
    /\ Forall (fun p => In p position_keys) (positions_unlocked (progress self'))
    /\ NoDup (positions_unlocked (progress self'))
    /\ target_bpm (progress self') = target_bpm (progress fresh_trainer)
    /\ total_score (progress self') = total_score (progress fresh_trainer)
    /\ dict_find (level_accuracies (progress self'))
         (Scale_name root_and_third ++ "_"
          ++ str_of_Z (current_bpm fresh_trainer))%string
       = Some (saved_get
                 (dict_find (level_accuracies (progress fresh_trainer))
                    (Scale_name root_and_third ++ "_"
                     ++ str_of_Z (current_bpm fresh_trainer))%string) []
               ++ [100%Q]).
Proof.
  apply (play_game_progress_keeps_state "position1" (Some "position2")
           root_and_third 100 fresh_trainer).
  - cbn. tauto.
  - repeat constructor; cbn; tauto.
  - repeat constructor; cbn; tauto.
Defined.

(** X18.  When the tempo is at most the target and at most the highest tempo on
    record, a command-line pass keeps it so: the tempo never falls, rises by
    at most 10 and only on a perfect pass, never passes the target, and the
    highest tempo on record never falls below it. *)
Theorem play_game_progress_tempo (position : string) (next : option string)
  (scale : ScalePosition) (accuracy : Q) (self : Trainer) :
  In (position, next) position_order ->
  current_bpm self <= target_bpm (progress self) ->
  current_bpm self <= highest_bpm (progress self) ->
  exists self',
    play_game_progress position scale accuracy self = (self', Ok tt)
    /\ current_bpm self <= current_bpm self' <= target_bpm (progress self')
    /\ current_bpm self' <= highest_bpm (progress self')
    /\ highest_bpm (progress self) <= highest_bpm (progress self')
    /\ current_bpm self'
       = (if Qeq_bool accuracy 100
          then Z.min (current_bpm self + 10) (target_bpm (progress self))
          else current_bpm self).
Proof.
  intros Hin Htarget Hhighest.
  destruct (Qeq_bool accuracy 100) eqn:Hacc.
  - destruct (play_game_progress_perfect position next scale accuracy self Hin Hacc)
      as (self' & -> & Hcur & Htar & Hhigh & _).
    exists self'. split; [reflexivity |]. rewrite Htar, Hhigh, Hcur. lia.
  - destruct (play_game_progress_imperfect position scale accuracy self Hacc)
      as (self' & Hrun & Hcur & Hhigh & _).
    exists self'. split; [exact Hrun |].
    rewrite Hcur, Hhigh.
    rewrite play_game_progress_steps, Hacc in Hrun. cbn zeta in Hrun.
    pose proof (record_accuracy_fields
                  (Scale_name scale ++ "_" ++ str_of_Z (current_bpm self))%string
                  accuracy self) as Hrest.
    assert (Htar : target_bpm (progress self') = target_bpm (progress self)).
    { injection Hrun as <-. exact (f_equal target_bpm Hrest). }
    rewrite Htar. lia.
Qed.

Lemma play_game_progress_tempo_witness :
  exists self',
    play_game_progress "position1" root_and_third 100 fresh_trainer
    = (self', Ok tt)
    /\ current_bpm fresh_trainer <= current_bpm self'
       <= target_bpm (progress self')
    /\ current_bpm self' <= highest_bpm (progress self')
    /\ highest_bpm (progress fresh_trainer) <= highest_bpm (progress self')
    /\ current_bpm self'
       = (if Qeq_bool 100 100
          then Z.min (current_bpm fresh_trainer + 10)
                 (target_bpm (progress fresh_trainer))
          else current_bpm fresh_trainer).
Proof.
  apply (play_game_progress_tempo "position1" (Some "position2")
           root_and_third 100 fresh_trainer).
  - cbn. tauto.
  - cbn. lia.
  - cbn. lia.
Defined.

(** ** A whole pass *)

Lemma collect_window_step (acc : list (option R)) (chunk : list R) :
  exists acc',
    collect_window acc chunk = Ok acc'
    /\ (acc' = acc \/ exists f, (0 < f)%R /\ acc' = acc ++ [Some f]).
Proof.
  unfold collect_window.
  destruct (CHUNK_SIZE <=? Z.of_nat (length chunk)); [| exists acc; now split; [| left]].
  destruct (detect_positive chunk) as (detected & -> & Hpos). cbn [bind].
  destruct detected as [f |]; [| exists acc; now split; [| left]].
  eexists. split; [reflexivity |]. right. exists f. split; [now apply Hpos | reflexivity].
Qed.

Lemma collect_windows_count {A : Type} (chunk_of : A -> list R) (xs : list A)
  (acc : list (option R)) :
  Forall (fun e => exists f, e = Some f /\ (0 < f)%R) acc ->
  exists acc',
    for_each xs (fun acc x => collect_window acc (chunk_of x)) acc = Ok acc'
    /\ Forall (fun e => exists f, e = Some f /\ (0 < f)%R) acc'
    /\ (length acc' <= length acc + length xs)%nat.
Proof.
  revert acc. induction xs as [| x xs IH]; intros acc Hacc.
  - exists acc. split; [reflexivity |]. split; [exact Hacc | lia].
  - cbn [for_each].
    destruct (collect_window_step acc (chunk_of x)) as (acc1 & -> & Hstep).
    cbn [bind].
    assert (H1 : Forall (fun e => exists f, e = Some f /\ (0 < f)%R) acc1
                 /\ (length acc1 <= length acc + 1)%nat).
    { destruct Hstep as [-> | (f & Hf & ->)]; [split; [exact Hacc | lia] |].
      split; [| rewrite length_app; cbn; lia].
      apply Forall_app. split; [exact Hacc |].
      constructor; [| constructor]. now exists f. }
    destruct H1 as [H1 H2].
    destruct (IH acc1 H1) as (acc' & -> & Hall & Hlen).
    exists acc'. split; [reflexivity |]. split; [exact Hall | cbn [length]; lia].
Qed.

Lemma detect_notes_count (playing_audio : list R) (samples_per_beat : Z) :
  0 < samples_per_beat ->
  exists notes_detected,
    detect_notes playing_audio samples_per_beat = Ok notes_detected
    /\ Forall (fun e => exists f, e = Some f /\ (0 < f)%R) notes_detected
    /\ Z.of_nat (length notes_detected)
       <= (Z.of_nat (length playing_audio) + samples_per_beat - 1)
          / samples_per_beat.
Proof.
  intros Hs. unfold detect_notes, windows_loop.
  rewrite py_range3_up by exact Hs. cbn [bind].
  destruct (collect_windows_count
              (fun i => get_slice playing_audio (Some i) (Some (i + samples_per_beat)))
              (map (fun k => 0 + Z.of_nat k * samples_per_beat)
                 (seq 0 (Z.to_nat ((Z.of_nat (length playing_audio) - 0
                                    + samples_per_beat - 1) / samples_per_beat))))
              [] (Forall_nil _)) as (acc' & H & Hall & Hlen).
  exists acc'. split; [exact H |]. split; [exact Hall |].
  rewrite length_map, length_seq in Hlen. cbn [length] in Hlen.
  assert (0 <= (Z.of_nat (length playing_audio) + samples_per_beat - 1)
               / samples_per_beat) by (apply Z.div_pos; lia).
  replace (Z.of_nat (length playing_audio) - 0 + samples_per_beat - 1)
    with (Z.of_nat (length playing_audio) + samples_per_beat - 1) in Hlen by lia.
  lia.
Qed.

Lemma length_get_slice_from {A : Type} (xs : list A) (start : Z) :
  0 <= start ->
  Z.of_nat (length (get_slice xs (Some start) None))
  = Z.max 0 (Z.of_nat (length xs) - start).
Proof.
  intros Hs. unfold get_slice, slice_bounds, slice_index.
  destruct (Z.ltb_spec start 0); [lia |].
  rewrite length_firstn, length_skipn. lia.
Qed.

Lemma count_in_samples_nonneg (bpm : Z) :
  0 < bpm ->
  0 <= int_of_float (4 * (60 / inject_Z bpm) * inject_Z SAMPLE_RATE).
Proof.
  intros Hb. destruct bpm as [| p | p]; try lia.
  unfold int_of_float, Qdiv, Qinv, Qmult, inject_Z, SAMPLE_RATE. cbn.
  apply Z.quot_pos; lia.
Qed.

(** ** A perfect pass of position 1 *)

Lemma length_beat_with_period (lag : Z) :
  1 <= lag <= 401 -> length (beat_with_period lag) = Z.to_nat 22050.
Proof.
  intros H. unfold beat_with_period, two_impulses.
  rewrite !length_app, !repeat_length. cbn [length]. lia.
Qed.

Lemma detect_beat_with_period (lag : Z) :
  2 <= lag <= 401 ->
  detect_fundamental_frequency (beat_with_period lag)
  = Ok (Some (IZR SAMPLE_RATE / IZR lag)%R).
Proof.
  intros H. unfold beat_with_period.
  rewrite detect_impulses.
  - rewrite INR_IZR_INZ. do 4 f_equal. lia.
  - unfold CHUNK_SIZE. lia.
  - lia.
  - lia.
  - assert (H1 : (0.5 <= hann_at (Z.to_nat 10824 + Z.to_nat (lag - 1)
                                  + Z.to_nat (11225 - lag) + 2)
                           (Z.to_nat 10824 + (Z.to_nat (lag - 1) + 1)))%R)
      by (apply hann_at_middle; lia).
    assert (H2 : (0.5 <= hann_at (Z.to_nat 10824 + Z.to_nat (lag - 1)
                                  + Z.to_nat (11225 - lag) + 2)
                           (Z.to_nat 10824))%R)
      by (apply hann_at_middle; lia).
    nra.
Qed.

Lemma collect_window_beat_with_period (acc : list (option R)) (lag : Z) :
  2 <= lag <= 401 ->
  collect_window acc (beat_with_period lag)
  = Ok (acc ++ [Some (IZR SAMPLE_RATE / IZR lag)%R]).
Proof.
  intros H. unfold collect_window.
  rewrite length_beat_with_period by lia.
  rewrite detect_beat_with_period by exact H. reflexivity.
Qed.

Lemma windows_beats_with_period (lags : list Z) (rest : list R)
  (acc : list (option R)) :
  Forall (fun lag => 2 <= lag <= 401) lags ->
  windows_loop collect_window (concat (map beat_with_period lags) ++ rest)
    22050 acc
  = windows_loop collect_window rest 22050
      (acc ++ map (fun lag => Some (IZR SAMPLE_RATE / IZR lag)%R) lags).
Proof.
  intros Hlags. revert acc.
  induction Hlags as [| lag lags Hlag Hlags IH]; intros acc.
  - cbn. now rewrite app_nil_r.
  - cbn [map concat]. rewrite <- app_assoc.
    rewrite (windows_loop_first_beat collect_window 22050 ltac:(lia)
               (beat_with_period lag)
               (concat (map beat_with_period lags) ++ rest) acc)
      by (rewrite length_beat_with_period by lia; lia).
    rewrite collect_window_beat_with_period by exact Hlag. cbn [bind].
    rewrite IH. now rewrite <- app_assoc.
Qed.

Lemma perfect_detect_notes :
  detect_notes (get_slice perfect_recording (Some 88200) None) 22050
  = Ok (map (fun lag => Some (IZR SAMPLE_RATE / IZR lag)%R)
          (position1_periods ++ rev position1_periods)).
Proof.
  unfold perfect_recording.
  replace 88200 with (Z.of_nat (length (repeat 0%R (Z.to_nat (4 * 22050)))))
    by (rewrite repeat_length; lia).
  rewrite get_slice_from. unfold detect_notes.
  rewrite windows_beats_with_period.
  - cbn [app]. apply windows_loop_remainder.
    + apply collect_window_short.
    + rewrite repeat_length. unfold CHUNK_SIZE. lia.
    + unfold CHUNK_SIZE. lia.
  - unfold position1_periods. cbn [rev app].
    repeat (constructor; [lia |]). constructor.
Qed.

(** A detected pitch [d] is within the tolerance of the note [fret] frets
    above an open string [b] when [(d / b) ^ 24] lies between
    [2 ^ (2 fret - 1)] and [2 ^ (2 fret + 1)]. *)
Lemma fretted_within_tolerance (d b : R) (fret : nat) :
  (0 < d)%R -> (0 < b)%R -> (1 <= fret)%nat ->
  (2 ^ (2 * fret - 1) * b ^ 24 <= d ^ 24)%R ->
  (d ^ 24 <= 2 ^ (2 * fret + 1) * b ^ 24)%R ->
  (Rabs (12 * log2 (d / (b * Rpower 2 (IZR (Z.of_nat fret) / 12))))
   <= FREQUENCY_TOLERANCE)%R.
Proof.
  intros Hd Hb Hf Hlo Hhi.
  rewrite log2_over_fretted by assumption.
  assert (Hln2 : (0 < ln 2)%R) by (rewrite <- ln_1; apply ln_increasing; lra).
  assert (Hb24 : (0 < b ^ 24)%R) by (apply pow_lt; exact Hb).
  assert (Hd24 : (0 < d ^ 24)%R) by (apply pow_lt; exact Hd).
  assert (Elo : (ln (2 ^ (2 * fret - 1) * b ^ 24)
                 = (2 * INR fret - 1) * ln 2 + 24 * ln b)%R).
  { rewrite ln_mult by (try apply pow_lt; lra).
    rewrite !ln_pow by lra.
    rewrite minus_INR by lia. rewrite mult_INR. simpl. lra. }
  assert (Ehi : (ln (2 ^ (2 * fret + 1) * b ^ 24)
                 = (2 * INR fret + 1) * ln 2 + 24 * ln b)%R).
  { rewrite ln_mult by (try apply pow_lt; lra).
    rewrite !ln_pow by lra.
    rewrite plus_INR, mult_INR. simpl. lra. }
  assert (Ed : (ln (d ^ 24) = 24 * ln d)%R)
    by (rewrite ln_pow by lra; simpl; lra).
  assert (Llo : (ln (2 ^ (2 * fret - 1) * b ^ 24) <= ln (d ^ 24))%R).
  { apply ln_le; [| exact Hlo]. apply Rmult_lt_0_compat; [apply pow_lt |]; lra. }
  assert (Lhi : (ln (d ^ 24) <= ln (2 ^ (2 * fret + 1) * b ^ 24))%R)
    by (apply ln_le; [exact Hd24 | exact Hhi]).
  rewrite Elo, Ed in Llo. rewrite Ehi, Ed in Lhi.
  assert (Er : (ln (d / b) = ln d - ln b)%R).
  { unfold Rdiv. rewrite ln_mult; [| lra | apply Rinv_0_lt_compat; lra].
    rewrite ln_Rinv by lra. lra. }
  unfold log2. rewrite Er. rewrite <- INR_IZR_INZ.
  assert (E : ((ln d - ln b) / ln 2 * ln 2 = ln d - ln b)%R) by (field; lra).
  set (l := ((ln d - ln b) / ln 2)%R) in *.
  unfold FREQUENCY_TOLERANCE. apply Rabs_le. split; nra.
Qed.

Lemma score_pair_within_tolerance (correct_notes : Z) (detected : R)
  (expected : Note) :
  (Rabs (12 * log2 (detected / Note_frequency expected))
   <= FREQUENCY_TOLERANCE)%R ->
  score_pair correct_notes (Some detected, expected) = Ok (correct_notes + 1).
Proof.
  intros H. unfold score_pair.
  destruct (Rle_dec _ _) as [_ | Hn]; [reflexivity | contradiction].
Qed.

Ltac period_matches fret :=
  cbn [Note_frequency];
  apply (fretted_within_tolerance _ _ fret);
  [lra | lra | lia
  | cbn [Nat.mul Nat.sub Nat.add]; lra | cbn [Nat.mul Nat.sub Nat.add]; lra].

(** Each beat of the perfect pass is within half a semitone of its note. *)
Lemma position1_periods_match :
  Forall (fun pair : option R * Note =>
            exists detected,
              fst pair = Some detected
              /\ (Rabs (12 * log2 (detected / Note_frequency (snd pair)))
                  <= FREQUENCY_TOLERANCE)%R)
    (combine (map (fun lag => Some (IZR SAMPLE_RATE / IZR lag)%R)
                (position1_periods ++ rev position1_periods))
       (position1_notes ++ rev position1_notes)).
Proof.
  unfold position1_periods, position1_notes, SAMPLE_RATE.
  cbn [map combine app rev].
  repeat (apply Forall_cons;
          [eexists; split; [reflexivity |]; cbn [snd];
           first [period_matches 5%nat | period_matches 7%nat
                 | period_matches 8%nat]
          | ]).
  apply Forall_nil.
Qed.

Lemma count_correct_all_match (pairs : list (option R * Note))
  (correct_notes : Z) :
  Forall (fun pair : option R * Note =>
            exists detected,
              fst pair = Some detected
              /\ (Rabs (12 * log2 (detected / Note_frequency (snd pair)))
                  <= FREQUENCY_TOLERANCE)%R) pairs ->
  for_each pairs score_pair correct_notes
  = Ok (correct_notes + Z.of_nat (length pairs)).
Proof.
  intros H. revert correct_notes.
  induction H as [| [detected expected] pairs (d & Hd & Hm) _ IH];
    intros correct_notes.
  - cbn. f_equal. lia.
  - cbn [fst snd] in Hd, Hm. subst detected. cbn [for_each].
    rewrite score_pair_within_tolerance by exact Hm. cbn [bind].
    rewrite IH. f_equal. cbn [length]. lia.
Qed.

(** All 24 notes of the perfect pass are counted. *)
Lemma perfect_pass_count :
  analyze_playing position1_notes perfect_recording 120 = Ok 24.
Proof.
  unfold analyze_playing.
  change (120 =? 0) with false. cbv iota.
  change (int_of_float (4 * (60 / inject_Z 120) * inject_Z SAMPLE_RATE))
    with 88200.
  change (samples_per_beat_of 120) with (Ok (A := Z) 22050). cbn [bind].
  rewrite perfect_detect_notes. cbn [bind]. unfold count_correct.
  rewrite count_correct_all_match by apply position1_periods_match.
  reflexivity.
Qed.

Lemma position1_lookup :
  exists description tab,
    (positions <- scale_positions ;; dict_get positions "position1")
    = Ok (mkScalePosition "Position 1 - A Minor Pentatonic" position1_notes
            description tab).
Proof. do 2 eexists. reflexivity. Qed.

(** X19.  At any tempo below 735 BPM, where a beat is exactly
    [2646000 / bpm] samples, the analysis of any recording returns a count
    that is at least 0, at most the number of expected notes, and at most the
    number of beat windows the recording holds after the count-in. *)
Theorem analyze_playing_never_raises (notes : list Note) (recording : list R)
  (bpm : Z) :
  0 < bpm < 735 ->
  exists correct_notes,
    analyze_playing notes recording bpm = Ok correct_notes
    /\ 0 <= correct_notes <= Z.of_nat (length (notes ++ rev notes))
    /\ correct_notes
       <= (Z.max 0 (Z.of_nat (length recording)
                    - int_of_float (4 * (60 / inject_Z bpm) * inject_Z SAMPLE_RATE))
           + 2646000 / bpm - 1) / (2646000 / bpm).
Proof.
  intros Hb. unfold analyze_playing.
  destruct (Z.eqb_spec bpm 0); [lia |].
  rewrite samples_per_beat_of_bpm by lia. cbn [bind].
  assert (Hs : 0 < 2646000 / bpm) by (apply Z.div_str_pos; lia).
  destruct (detect_notes_count
              (get_slice recording
                 (Some (int_of_float (4 * (60 / inject_Z bpm) * inject_Z SAMPLE_RATE)))
                 None) (2646000 / bpm) Hs) as (notes_detected & -> & Hpos & Hlen).
  cbn [bind]. unfold count_correct.
  destruct (count_correct_counts notes_detected (notes ++ rev notes) 0 Hpos)
    as (c & -> & Hc).
  rewrite length_get_slice_from in Hlen by (apply count_in_samples_nonneg; lia).
  exists c. split; [reflexivity |]. split; lia.
Qed.

(** At the perfect pass of position 1 at 120 BPM: all 24 windows are
    analysed and the count is 24, which meets both bounds. *)
Lemma analyze_playing_never_raises_witness :
  exists correct_notes,
    analyze_playing position1_notes perfect_recording 120 = Ok correct_notes
    /\ correct_notes = 24
    /\ 0 <= correct_notes
       <= Z.of_nat (length (position1_notes ++ rev position1_notes))
    /\ correct_notes
       <= (Z.max 0 (Z.of_nat (length perfect_recording)
                    - int_of_float (4 * (60 / inject_Z 120) * inject_Z SAMPLE_RATE))
           + 2646000 / 120 - 1) / (2646000 / 120).
Proof.
  destruct (analyze_playing_never_raises position1_notes perfect_recording 120
              ltac:(lia)) as (correct_notes & Hrun & Hnotes & Hwindows).
  exists correct_notes. split; [exact Hrun |].
  split; [| split; [exact Hnotes | exact Hwindows]].
  apply Ok_inj. rewrite <- Hrun. exact perfect_pass_count.
Defined.

(** The five positions as [__init__] builds them. *)
Lemma scale_positions_table :
  exists positions,
    scale_positions = Ok positions
    /\ map fst positions = position_keys
    /\ Forall (fun entry =>
                 length (Scale_notes (snd entry)) = 12%nat
                 /\ last_item (py_split (Scale_name (snd entry)))
                    = Ok "Pentatonic") positions.
Proof.
  eexists. split; [reflexivity |]. split; [reflexivity |].
  repeat constructor.
Qed.

Lemma dict_get_position (positions : list (string * ScalePosition))
  (position : string) :
  map fst positions = position_keys ->
  if str_in position position_keys
  then exists scale, dict_get positions position = Ok scale
                     /\ In (position, scale) positions
  else dict_get positions position = Raise KeyError.
Proof.
  intros Hkeys.
  destruct positions as [| [k1 p1] [| [k2 p2] [| [k3 p3] [| [k4 p4]
    [| [k5 p5] [| ? ?]]]]]]; try discriminate.
  cbn in Hkeys. injection Hkeys as -> -> -> -> ->.
  unfold dict_get, str_in. cbn [dict_find existsb position_keys].
  destruct (String.eqb_spec position "position1") as [-> | _];
    [cbn; eexists; split; [reflexivity | tauto] |].
  destruct (String.eqb_spec position "position2") as [-> | _];
    [cbn; eexists; split; [reflexivity | tauto] |].
  destruct (String.eqb_spec position "position3") as [-> | _];
    [cbn; eexists; split; [reflexivity | tauto] |].
  destruct (String.eqb_spec position "position4") as [-> | _];
    [cbn; eexists; split; [reflexivity | tauto] |].
  destruct (String.eqb_spec position "position5") as [-> | _];
    [cbn; eexists; split; [reflexivity | tauto] |].
  reflexivity.
Qed.

Lemma position_keys_order (position : string) :
  str_in position position_keys = true ->
  exists next, In (position, next) position_order.
Proof.
  intros H. apply str_in_In in H. cbn in H.
  destruct H as [<- | [<- | [<- | [<- | [<- | []]]]]];
    eexists; cbn; eauto 10.
Qed.

Lemma play_game_progress_returns (position : string) (next : option string)
  (scale : ScalePosition) (accuracy : Q) (self : Trainer) :
  In (position, next) position_order ->
  exists self',
    play_game_progress position scale accuracy self = (self', Ok tt)
    /\ progress_file self' = Some (Json (to_saved (progress self'))).
Proof.
  intros Hin. rewrite play_game_progress_steps. cbn zeta.
  destruct (Qeq_bool accuracy 100); [| eexists; split; reflexivity].
  destruct (position_number position next Hin) as (current_pos & -> & _).
  eexists. split; reflexivity.
Qed.

Lemma play_game_pass_steps (position : string) (read : nat -> list R)
  (self : Trainer) :
  play_game_pass position read self
  = match scale_positions with
    | Raise e => (self, Raise e)
    | Ok positions =>
        match dict_get positions position with
        | Raise e => (self, Raise e)
        | Ok scale =>
            match generate_metronome (current_bpm self)
                    (4 + Z.of_nat (length (Scale_notes scale)) * 2) with
            | Raise e => (self, Raise e)
            | Ok metronome =>
                play_game position
                  (fst (record read (Z.of_nat (length metronome)))) self
            end
        end
    end.
Proof.
  unfold play_game_pass, bindM, lift, get.
  destruct scale_positions as [positions |]; [| reflexivity].
  destruct (dict_get positions position) as [scale |]; [| reflexivity].
  destruct (generate_metronome _ _); reflexivity.
Qed.

Lemma play_game_returns (position : string) (recording : list R)
  (self : Trainer) :
  str_in position position_keys = true ->
  0 < current_bpm self <= 2646000 ->
  exists self',
    play_game position recording self = (self', Ok tt)
    /\ progress_file self' = Some (Json (to_saved (progress self'))).
Proof.
  intros Hin Hb. unfold play_game, bindM, lift, get.
  destruct scale_positions_table as (positions & -> & Hkeys & _).
  pose proof (dict_get_position positions position Hkeys) as Hget.
  rewrite Hin in Hget. destruct Hget as (scale & -> & _).
  destruct (analyze_playing_counts (Scale_notes scale) recording
              (current_bpm self) Hb) as (correct_notes & -> & _).
  destruct (position_keys_order position Hin) as (next & Hnext).
  apply (play_game_progress_returns position next); exact Hnext.
Qed.

(** X20.  A command-line pass at a positive tempo, with a stream that delivers
    1024 samples per read.  On one of the five position keys and at up to
    1200 BPM it returns, having analysed the first
    [ceil(28 * beat / 1024)] chunks of the stream, and the progress file
    then holds the progress in memory; above 1200 BPM the metronome cannot
    be built and the pass raises [ValueError]; on any other key it raises
    [KeyError].  When it raises the trainer is as it was. *)
Theorem play_game_outcome (position : string) (read : nat -> list R)
  (self : Trainer) :
  (forall k, Z.of_nat (length (read k)) = CHUNK_SIZE) ->
  0 < current_bpm self ->
  if str_in position position_keys
  then if current_bpm self <=? 1200
       then
         let total_samples := 28 * (2646000 / current_bpm self) in
         let chunks := Z.to_nat ((total_samples + 1023) / 1024) in
         exists self',
           play_game_pass position read self = (self', Ok tt)
           /\ play_game position (concat (map read (seq 0 chunks))) self
              = (self', Ok tt)
           /\ progress_file self' = Some (Json (to_saved (progress self')))
       else play_game_pass position read self = (self, Raise ValueError)
  else play_game_pass position read self = (self, Raise KeyError).
Proof.
  intros Hread Hb. rewrite play_game_pass_steps.
  destruct scale_positions_table as (positions & -> & Hkeys & Hall).
  pose proof (dict_get_position positions position Hkeys) as Hget.
  destruct (str_in position position_keys) eqn:Hin; [| now rewrite Hget].
  destruct Hget as (scale & -> & Hscale_in).
  rewrite Forall_forall in Hall. destruct (Hall _ Hscale_in) as [Hlen _].
  cbn [snd] in Hlen. rewrite Hlen. change (4 + Z.of_nat 12 * 2) with 28.
  destruct (Z.leb_spec (current_bpm self) 1200) as [Hslow | Hfast].
  - cbn zeta. rewrite generate_metronome_layout by lia.
    assert (Hspb : 2205 <= 2646000 / current_bpm self)
      by (apply Z.div_le_lower_bound; lia).
    rewrite length_concat_repeat, length_app, length_metronome_click.
    unfold click_times. rewrite length_ramp, repeat_length.
    replace (Z.of_nat (Z.to_nat 28
                       * (Z.to_nat 2205
                          + Z.to_nat (2646000 / current_bpm self - 2205))))
      with (28 * (2646000 / current_bpm self)) by lia.
    rewrite record_chunks by (exact Hread || lia).
    destruct (play_game_returns position
                (concat (map read
                           (seq 0 (Z.to_nat ((28 * (2646000 / current_bpm self)
                                              + 1023) / 1024)))))
                self Hin ltac:(lia)) as (self' & Hrun & Hsaved).
    exists self'. repeat split; assumption.
  - now rewrite generate_metronome_raises by lia.
Qed.

Lemma play_game_outcome_witness :
  if str_in "position1" position_keys
  then if current_bpm fresh_trainer <=? 1200
       then
         let total_samples := 28 * (2646000 / current_bpm fresh_trainer) in
         let chunks := Z.to_nat ((total_samples + 1023) / 1024) in
         exists self',
           play_game_pass "position1" (fun _ => repeat 0%R 1024) fresh_trainer
           = (self', Ok tt)
           /\ play_game "position1"
                (concat (map (fun _ => repeat 0%R 1024) (seq 0 chunks)))
                fresh_trainer
              = (self', Ok tt)
           /\ progress_file self' = Some (Json (to_saved (progress self')))
       else play_game_pass "position1" (fun _ => repeat 0%R 1024) fresh_trainer
            = (fresh_trainer, Raise ValueError)
  else play_game_pass "position1" (fun _ => repeat 0%R 1024) fresh_trainer
       = (fresh_trainer, Raise KeyError).
Proof.
  apply (play_game_outcome "position1" (fun _ => repeat 0%R 1024) fresh_trainer).
  - intros k. rewrite repeat_length. reflexivity.
  - cbn. lia.
Defined.

Lemma perfect_accuracy (correct_notes expected_note_count : Z) :
  0 < expected_note_count ->
  Qeq_bool (inject_Z correct_notes / inject_Z expected_note_count * 100) 100
  = (correct_notes =? expected_note_count).
Proof.
  intros Hn.
  set (c := inject_Z correct_notes). set (n := inject_Z expected_note_count).
  assert (Hn' : (0 < n)%Q) by (unfold n, Qlt, inject_Z; cbn; lia).
  destruct (Z.eqb_spec correct_notes expected_note_count) as [-> | Hne].
  - apply Qeq_bool_iff. unfold c. fold n. field. lra.
  - destruct (Qeq_bool (c / n * 100) 100) eqn:E; [| reflexivity].
    apply Qeq_bool_iff in E. exfalso. apply Hne.
    assert (E' : (c / n * n == c)%Q) by (field; lra).
    set (r := (c / n)%Q) in *.
    assert (Hcn : (c == n)%Q) by nra.
    unfold c, n, Qeq, inject_Z in Hcn. cbn in Hcn. lia.
Qed.

(** X21.  On the GUI path, for each of the five positions and any tempo
    below 735 BPM (the spin box offers 40 to 300), the analysis counts between
    0 and 24 notes.  With fewer
    than 24 the accuracy is recorded and the progress saved, and nothing else
    changes; with all 24 the pass raises [ValueError] at
    [int(name.split()[-1])], after recording the accuracy and the
    achievement, so no position is unlocked, the tempo stays and nothing is
    saved. *)
Theorem gui_analyze_recording_outcome (key : string) (recording : list R)
  (bpm : Z) (self : Trainer) :
  str_in key position_keys = true ->
  0 < bpm < 735 ->
  exists current_position correct_notes,
    (positions <- scale_positions ;; dict_get positions key)
    = Ok current_position
    /\ analyze_playing (Scale_notes current_position) recording bpm
       = Ok correct_notes
    /\ 0 <= correct_notes <= 24
    /\ let recorded :=
         record_accuracy
           (Scale_name current_position ++ "_" ++ str_of_Z bpm)%string
           (inject_Z correct_notes / inject_Z 24 * 100)%Q self in
       Gui.analyze_recording current_position recording bpm self
       = if correct_notes =? 24
         then (append_game_won
                 (Scale_name current_position ++ " at " ++ str_of_Z bpm
                  ++ " BPM")%string recorded,
               Raise ValueError)
         else (save_progress recorded, Ok tt).
Proof.
  intros Hkey Hb.
  destruct scale_positions_table as (positions & -> & Hkeys & Hall).
  cbn [bind].
  pose proof (dict_get_position positions key Hkeys) as Hget.
  rewrite Hkey in Hget. destruct Hget as (current_position & -> & Hin).
  rewrite Forall_forall in Hall. destruct (Hall _ Hin) as [Hlen Hword].
  cbn [snd] in Hlen, Hword.
  destruct (analyze_playing_counts (Scale_notes current_position) recording bpm
              ltac:(lia)) as (correct_notes & Hrun & Hc).
  rewrite length_app, length_rev, Hlen in Hc.
  exists current_position, correct_notes.
  split; [reflexivity |]. split; [exact Hrun |]. split; [cbn in Hc; lia |].
  cbn zeta. unfold Gui.analyze_recording, bindM, lift. rewrite Hrun.
  rewrite length_app, length_rev, Hlen.
  change (Z.of_nat (12 + 12)) with 24.
  unfold Gui.update_progress, bindM, modify, lift, get, ret.
  change (0 <? 24) with true. cbv beta iota.
  rewrite perfect_accuracy by lia.
  destruct (correct_notes =? 24); [| reflexivity].
  rewrite Hword. reflexivity.
Qed.

(** At the perfect pass of position 1 at 120 BPM, on a trainer that has been
    used: the count is 24, the accuracy of 100 and the achievement are
    recorded, and the pass raises before anything is unlocked or saved. *)
Lemma gui_analyze_recording_outcome_witness :
  exists current_position correct_notes,
    (positions <- scale_positions ;; dict_get positions "position1")
    = Ok current_position
    /\ Scale_notes current_position = position1_notes
    /\ analyze_playing (Scale_notes current_position) perfect_recording 120
       = Ok correct_notes
    /\ correct_notes = 24
    /\ Gui.analyze_recording current_position perfect_recording 120
         returning_trainer
       = (append_game_won
            (Scale_name current_position ++ " at " ++ str_of_Z 120
             ++ " BPM")%string
            (record_accuracy
               (Scale_name current_position ++ "_" ++ str_of_Z 120)%string
               (inject_Z 24 / inject_Z 24 * 100)%Q returning_trainer),
          Raise ValueError).
Proof.
  destruct (gui_analyze_recording_outcome "position1" perfect_recording 120
              returning_trainer eq_refl ltac:(lia))
    as (current_position & correct_notes & Hlookup & Hrun & _ & Hout).
  destruct position1_lookup as (description & tab & Hposition).
  rewrite Hposition in Hlookup. apply Ok_inj in Hlookup.
  subst current_position. cbn [Scale_notes] in Hrun.
  rewrite perfect_pass_count in Hrun. apply Ok_inj in Hrun.
  subst correct_notes.
  eexists. exists 24. split; [exact Hposition |].
  split; [reflexivity |]. split; [exact perfect_pass_count |].
  split; [reflexivity |]. exact Hout.
Defined.

(** ** Printed numbers read back *)

Lemma rev_string_involutive (s : string) : rev_string (rev_string s) = s.
Proof.
  unfold rev_string.
  rewrite list_ascii_of_string_of_list_ascii, rev_involutive.
  apply string_of_list_ascii_of_string.
Qed.

Lemma lstrip_visible (s : string) :
  Forall (fun c => is_blank c = false) (list_ascii_of_string s) ->
  lstrip s = s.
Proof.
  destruct s as [| c s]; [reflexivity |]. cbn. intros H.
  inversion H as [| ? ? Hc _]; subst. now rewrite Hc.
Qed.

Lemma strip_visible (s : string) :
  Forall (fun c => is_blank c = false) (list_ascii_of_string s) ->
  strip s = s.
Proof.
  intros H. unfold strip. rewrite (lstrip_visible s H).
  rewrite lstrip_visible; [apply rev_string_involutive |].
  unfold rev_string. rewrite list_ascii_of_string_of_list_ascii.
  now apply Forall_rev.
Qed.

Ltac each_digit d IH :=
  induction d as [| d IH | d IH | d IH | d IH | d IH | d IH | d IH | d IH
                  | d IH | d IH].

Lemma uint_visible (d : Decimal.uint) :
  Forall (fun c => is_blank c = false)
    (list_ascii_of_string (NilEmpty.string_of_uint d)).
Proof. each_digit d IH; cbn; constructor; (reflexivity || assumption). Qed.

Lemma uint_no_underscore (d : Decimal.uint) :
  rsplit_underscore (NilEmpty.string_of_uint d) = None.
Proof.
  each_digit d IH; cbn [NilEmpty.string_of_uint rsplit_underscore];
    [reflexivity | rewrite IH; reflexivity ..].
Qed.

Lemma uint_digits (d : Decimal.uint) :
  exists ds,
    grouped_digits (NilEmpty.string_of_uint d) true = Some ds
    /\ (d <> Decimal.Nil ->
        grouped_digits (NilEmpty.string_of_uint d) false = Some ds)
    /\ (forall acc : positive,
          fold_left (fun v x => 10 * v + x) ds (Z.pos acc)
          = Z.pos (Pos.of_uint_acc d acc))
    /\ fold_left (fun v x => 10 * v + x) ds 0 = Z.of_N (Pos.of_uint d).
Proof.
  each_digit d IH;
    [exists []; repeat split; congruence | ..];
    destruct IH as (ds & Hds & _ & Hacc & Hzero);
    cbn [NilEmpty.string_of_uint grouped_digits];
    match goal with
    | |- context [is_digit ?c] => change (is_digit c) with true
    end;
    match goal with
    | |- context [Z.of_nat (nat_of_ascii ?c) - 48] =>
        let v := eval vm_compute in (Z.of_nat (nat_of_ascii c) - 48) in
        change (Z.of_nat (nat_of_ascii c) - 48) with v
    end;
    cbv iota; rewrite Hds; cbn [option_map];
    eexists; (split; [reflexivity |]); (split; [reflexivity |]);
    (split; [intros acc; cbn [fold_left Pos.of_uint_acc]; rewrite <- Hacc;
             f_equal; lia |]);
    cbn [fold_left Pos.of_uint].
  - exact Hzero.
  - exact (Hacc 1%positive).
  - exact (Hacc 2%positive).
  - exact (Hacc 3%positive).
  - exact (Hacc 4%positive).
  - exact (Hacc 5%positive).
  - exact (Hacc 6%positive).
  - exact (Hacc 7%positive).
  - exact (Hacc 8%positive).
  - exact (Hacc 9%positive).
Qed.

Lemma py_int_uint (d : Decimal.uint) :
  py_int (NilZero.string_of_uint d) = Ok (Z.of_uint d)
  /\ py_int (String "-" (NilZero.string_of_uint d)) = Ok (- Z.of_uint d).
Proof.
  destruct (uint_digits d) as (ds & _ & Hds & _ & Hvalue).
  pose proof (uint_visible d) as Hvisible.
  assert (Hsign : forall s, Forall (fun c => is_blank c = false)
                              (list_ascii_of_string s) ->
                            strip (String "-" s) = String "-" s).
  { intros s Hs. apply strip_visible. cbn. constructor; [reflexivity | exact Hs]. }
  unfold py_int, Z.of_uint, digits_value.
  destruct d; cbn [NilZero.string_of_uint];
    try (rewrite Hsign by exact Hvisible;
         rewrite (strip_visible _ Hvisible);
         cbn [NilEmpty.string_of_uint] in *;
         rewrite Hds by discriminate; rewrite Hvalue; split; reflexivity).
  split; reflexivity.
Qed.

Lemma str_of_Z_no_underscore (n : Z) : rsplit_underscore (str_of_Z n) = None.
Proof.
  unfold str_of_Z.
  assert (H : forall d, rsplit_underscore (NilZero.string_of_uint d) = None).
  { intros d. destruct d; try apply uint_no_underscore. reflexivity. }
  destruct (Z.to_int n) as [d | d]; cbn [NilZero.string_of_int].
  - apply H.
  - cbn [rsplit_underscore]. now rewrite H.
Qed.

(** ** [set_target_bpm] and [show_stats] *)

(** X22.  The GUI's [set_target_bpm] reads a printed number back as that
    number: on the text [str(n)] it stores [n] as the target and saves when
    [60 <= n <= 300], and otherwise leaves the trainer as it was. *)
Theorem gui_set_target_bpm_printed (n : Z) (trainer : Trainer) :
  GuiTarget.set_target_bpm (str_of_Z n) trainer
  = if (60 <=? n) && (n <=? 300)
    then (save_progress
            (set_progress (set_target_bpm_field n (progress trainer)) trainer),
          TargetSet)
    else (trainer, OutOfRange).
Proof.
  assert (Hread : py_int (str_of_Z n) = Ok n).
  { unfold str_of_Z. rewrite <- (DecimalZ.of_to n) at 2.
    destruct (Z.to_int n) as [d | d]; cbn [NilZero.string_of_int Z.of_int];
      apply py_int_uint. }
  unfold GuiTarget.set_target_bpm. rewrite Hread.
  destruct ((60 <=? n) && (n <=? 300)); reflexivity.
Qed.

(** X23.  On lines of 7-bit characters, at most 4300 each, the prompt loop of
    [set_target_bpm] skips every line that is neither empty nor a number in
    [60, 300], and ends at the first other line: with the trainer untouched
    on an empty line, and otherwise with that number as the target, saved to
    the file.  While no such line has come it keeps waiting. *)
Theorem set_target_bpm_first_accepted (lines : list string) (self : Trainer) :
  forallb typed_line lines = true ->
  let skipped line :=
    line <> "" /\ forall n, py_int line = Ok n -> n < 60 \/ 300 < n in
  match set_target_bpm lines self with
  | Some self' =>
      exists before line rest,
        lines = before ++ line :: rest
        /\ Forall skipped before
        /\ ((line = "" /\ self' = self)
            \/ exists n,
                 py_int line = Ok n /\ 60 <= n <= 300
                 /\ self' = save_progress
                              (set_progress
                                 (set_target_bpm_field n (progress self)) self))
  | None => Forall skipped lines
  end.
Proof.
  intros _. cbn zeta. induction lines as [| line lines IH]; cbn [set_target_bpm].
  - constructor.
  - destruct (String.eqb_spec line "") as [-> | Hne].
    { exists [], "", lines. split; [reflexivity |]. split; [constructor |].
      left. split; reflexivity. }
    assert (Hskip : forall P : Prop,
               (forall n, py_int line = Ok n -> n < 60 \/ 300 < n) ->
               match set_target_bpm lines self with
               | Some self' =>
                   exists before line0 rest,
                     line :: lines = before ++ line0 :: rest
                     /\ Forall (fun l => l <> "" /\
                                  forall n, py_int l = Ok n -> n < 60 \/ 300 < n)
                          before
                     /\ ((line0 = "" /\ self' = self)
                         \/ exists n,
                              py_int line0 = Ok n /\ 60 <= n <= 300
                              /\ self' = save_progress
                                           (set_progress
                                              (set_target_bpm_field n
                                                 (progress self)) self))
               | None =>
                   Forall (fun l => l <> "" /\
                             forall n, py_int l = Ok n -> n < 60 \/ 300 < n)
                     (line :: lines)
               end).
    { intros _ Hrej. destruct (set_target_bpm lines self) as [self' |].
      - destruct IH as (before & line0 & rest & -> & Hbefore & Hline).
        exists (line :: before), line0, rest.
        split; [reflexivity |]. split; [| exact Hline].
        constructor; [split; assumption | exact Hbefore].
      - constructor; [split; assumption | exact IH]. }
    destruct (py_int line) as [n | e] eqn:Hline.
    + destruct (Z.leb_spec 60 n); cbn [andb];
        [destruct (Z.leb_spec n 300) |].
      * exists [], line, lines. split; [reflexivity |]. split; [constructor |].
        right. exists n. repeat split; (assumption || lia).
      * apply (Hskip True). intros m Hm. apply Ok_inj in Hm. lia.
      * apply (Hskip True). intros m Hm. apply Ok_inj in Hm. lia.
    + apply (Hskip True). intros m Hm. discriminate.
Qed.

(** At the lines "fast", a separator and "200", "30", " 120 ", "250": the
    first three are skipped ([int] refuses the separator 31 before a number)
    and the target becomes 120. *)
Lemma set_target_bpm_first_accepted_witness :
  let lines :=
    ["fast"; String (ascii_of_nat 31) "200"; "30"; " 120 "; "250"] in
  let skipped line :=
    line <> "" /\ forall n, py_int line = Ok n -> n < 60 \/ 300 < n in
  forallb typed_line lines = true
  /\ exists before line rest,
       lines = before ++ line :: rest
       /\ Forall skipped before
       /\ ((line = "" /\ 
            save_progress
              (set_progress
                 (set_target_bpm_field 120 (progress returning_trainer))
                 returning_trainer) = returning_trainer)
           \/ exists n,
                py_int line = Ok n /\ 60 <= n <= 300
                /\ save_progress
                     (set_progress
                        (set_target_bpm_field 120 (progress returning_trainer))
                        returning_trainer)
                   = save_progress
                       (set_progress
                          (set_target_bpm_field n (progress returning_trainer))
                          returning_trainer)).
Proof.
  split; [reflexivity |].
  exact (set_target_bpm_first_accepted
           ["fast"; String (ascii_of_nat 31) "200"; "30"; " 120 "; "250"]
           returning_trainer eq_refl).
Defined.

Lemma rsplit_underscore_last (name tail : string) :
  rsplit_underscore tail = None ->
  rsplit_underscore (name ++ String "_" tail) = Some (name, tail).
Proof.
  intros Htail. induction name as [| c name IH].
  - cbn. now rewrite Htail.
  - cbn [append rsplit_underscore]. now rewrite IH.
Qed.

Lemma py_max_greatest (xs : list Q) :
  xs <> [] ->
  exists best,
    py_max xs = Ok best /\ In best xs /\ Forall (fun a => (a <= best)%Q) xs.
Proof.
  destruct xs as [| x xs]; [congruence |]. intros _. cbn [py_max].
  eexists. split; [reflexivity |].
  revert x. induction xs as [| y xs IH]; intros x.
  - cbn. split; [now left |]. constructor; [apply Qle_refl | constructor].
  - cbn [fold_left].
    destruct (Qlt_le_dec x y) as [Hlt | Hle].
    + destruct (IH y) as [Hin Hall]. split.
      * destruct Hin as [<- | Hin]; [right; now left | right; now right].
      * inversion Hall as [| ? ? Hy Hrest]; subst.
        constructor; [| constructor; assumption].
        apply Qle_trans with y; [now apply Qlt_le_weak | exact Hy].
    + destruct (IH x) as [Hin Hall]. split.
      * destruct Hin as [<- | Hin]; [now left | right; now right].
      * inversion Hall as [| ? ? Hx Hrest]; subst.
        constructor; [exact Hx |]. constructor; [| exact Hrest].
        apply Qle_trans with x; assumption.
Qed.

Lemma py_average_mean (xs : list Q) :
  xs <> [] ->
  exists average,
    py_average xs = Ok average
    /\ (average * inject_Z (Z.of_nat (length xs)) == fold_left Qplus xs 0)%Q.
Proof.
  destruct xs as [| x xs]; [congruence |]. intros _. cbn [py_average].
  eexists. split; [reflexivity |].
  field. unfold Qeq, inject_Z. cbn. lia.
Qed.

(** Well-formed histories give one report per level. *)
Lemma level_reports_length (levels : list (string * list Q)) :
  Forall history_ok levels ->
  exists reports,
    level_reports levels = Ok reports /\ length reports = length levels.
Proof.
  intros Hok. induction Hok as [| [level accuracies] levels Hitem Hok IH].
  - exists []. split; reflexivity.
  - destruct Hitem as [Hnonempty (name & bpm & Hkey)]. cbn [fst snd] in *.
    destruct IH as (reports & Hreports & Hlen).
    cbn [level_reports level_stats]. subst level. cbn [append].
    rewrite rsplit_underscore_last by apply str_of_Z_no_underscore.
    destruct (py_max_greatest accuracies Hnonempty) as (best & -> & _).
    destruct (py_average_mean accuracies Hnonempty) as (average & -> & _).
    cbn [bind]. rewrite Hreports. cbn [bind].
    eexists. split; [reflexivity |]. cbn [length]. now rewrite Hlen.
Qed.

(** X24.  When every history is under a key made of a name, an underscore and
    a printed tempo, and holds at least one accuracy, [show_stats] returns
    one report per level: the key splits back into that name and tempo at
    its last underscore, the best figure is an accuracy of the history that
    no other exceeds, and the average times the number of attempts is their
    sum. *)
Theorem show_stats_reports (self : Trainer) :
  Forall history_ok (level_accuracies (progress self)) ->
  exists reports,
    show_stats self = Ok reports
    /\ Forall2
         (fun item report =>
            (forall name bpm,
                fst item = (name ++ "_" ++ str_of_Z bpm)%string ->
                report_position report = name
                /\ report_bpm report = str_of_Z bpm)
            /\ report_attempts report = Z.of_nat (length (snd item))
            /\ In (report_best report) (snd item)
            /\ Forall (fun a => (a <= report_best report)%Q) (snd item)
            /\ (report_average report * inject_Z (report_attempts report)
                == fold_left Qplus (snd item) 0)%Q)
         (level_accuracies (progress self)) reports.
Proof.
  unfold show_stats. generalize (level_accuracies (progress self)).
  intros levels Hok.
  induction Hok as [| [level accuracies] levels Hitem Hok IH].
  - exists []. split; [reflexivity | constructor].
  - destruct Hitem as [Hnonempty (name & bpm & Hkey)]. cbn [fst snd] in *.
    destruct IH as (reports & Hreports & Hall).
    cbn [level_reports level_stats]. subst level. cbn [append].
    rewrite rsplit_underscore_last by apply str_of_Z_no_underscore.
    destruct (py_max_greatest accuracies Hnonempty) as (best & -> & Hin & Hbest).
    destruct (py_average_mean accuracies Hnonempty) as (average & -> & Hmean).
    cbn [bind]. rewrite Hreports. cbn [bind].
    eexists. split; [reflexivity |].
    constructor; [| exact Hall].
    cbn [fst snd report_position report_bpm report_attempts report_best
         report_average].
    split; [| repeat split; assumption].
    intros name' bpm' Hkey'. cbn [append] in Hkey'.
    pose proof (rsplit_underscore_last name' (str_of_Z bpm')
                  (str_of_Z_no_underscore bpm')) as H'.
    rewrite <- Hkey' in H'.
    rewrite rsplit_underscore_last in H' by apply str_of_Z_no_underscore.
    injection H' as -> ->. split; reflexivity.
Qed.

Lemma show_stats_reports_witness :
  exists reports,
    show_stats (record_accuracy "Position 1 - A Minor Pentatonic_120" 50
                  fresh_trainer) = Ok reports
    /\ Forall2
         (fun item report =>
            (forall name bpm,
                fst item = (name ++ "_" ++ str_of_Z bpm)%string ->
                report_position report = name
                /\ report_bpm report = str_of_Z bpm)
            /\ report_attempts report = Z.of_nat (length (snd item))
            /\ In (report_best report) (snd item)
            /\ Forall (fun a => (a <= report_best report)%Q) (snd item)
            /\ (report_average report * inject_Z (report_attempts report)
                == fold_left Qplus (snd item) 0)%Q)
         (level_accuracies
            (progress (record_accuracy "Position 1 - A Minor Pentatonic_120" 50
                         fresh_trainer))) reports.
Proof.
  apply (show_stats_reports
           (record_accuracy "Position 1 - A Minor Pentatonic_120" 50
              fresh_trainer)).
  constructor; [| constructor]. split; [discriminate |].
  exists "Position 1 - A Minor Pentatonic", 120. reflexivity.
Defined.

Lemma dict_set_set {V : Type} (d : list (string * V)) (k : string) (v w : V) :
  dict_set (dict_set d k v) k w = dict_set d k w.
Proof.
  induction d as [| [k' v'] d IH]; cbn.
  - now rewrite String.eqb_refl.
  - destruct (String.eqb k k') eqn:E; cbn.
    + now rewrite String.eqb_refl.
    + now rewrite E, IH.
Qed.

Lemma Forall_dict_set {V : Type} (P : string * V -> Prop)
  (d : list (string * V)) (k : string) (v : V) :
  Forall P d -> P (k, v) -> Forall P (dict_set d k v).
Proof.
  intros Hd Hv. induction Hd as [| [k' v'] d Hx Hd IH]; cbn.
  - constructor; [exact Hv | constructor].
  - destruct (String.eqb k k'); constructor; assumption.
Qed.

(** X25.  Recording an accuracy under the key of a pass, a name, an underscore
    and the printed tempo, keeps every history well-formed, so [show_stats]
    still returns after it. *)
Theorem record_accuracy_keeps_histories (name : string) (bpm : Z)
  (accuracy : Q) (self : Trainer) :
  Forall history_ok (level_accuracies (progress self)) ->
  Forall history_ok
    (level_accuracies
       (progress
          (record_accuracy (name ++ "_" ++ str_of_Z bpm)%string accuracy self)))
  /\ exists reports,
       show_stats
         (record_accuracy (name ++ "_" ++ str_of_Z bpm)%string accuracy self)
       = Ok reports
       /\ length reports
          = length (level_accuracies
                      (progress
                         (record_accuracy (name ++ "_" ++ str_of_Z bpm)%string
                            accuracy self))).
Proof.
  intros Hok.
  assert (Hafter : Forall history_ok
                     (level_accuracies
                        (progress
                           (record_accuracy (name ++ "_" ++ str_of_Z bpm)%string
                              accuracy self)))).
  { set (key := (name ++ "_" ++ str_of_Z bpm)%string).
    assert (Hitem : forall history, history_ok (key, history ++ [accuracy])).
    { intros history. split; [cbn; now destruct history |].
      exists name, bpm. reflexivity. }
    clearbody key. unfold record_accuracy.
    destruct (progress self) as [score won target levels highest unlocked].
    cbn [progress level_accuracies set_progress set_level_accuracies] in Hok |- *.
    destruct (dict_find levels key) as [history |] eqn:E.
    - rewrite E. apply Forall_dict_set; [exact Hok | apply Hitem].
    - rewrite dict_set_set. apply Forall_dict_set; [exact Hok | apply Hitem]. }
  split; [exact Hafter |].
  exact (level_reports_length _ Hafter).
Qed.

Lemma record_accuracy_keeps_histories_witness :
  Forall history_ok
    (level_accuracies
       (progress
          (record_accuracy ("Position 1 - A Minor Pentatonic" ++ "_"
                            ++ str_of_Z 120)%string 50 fresh_trainer)))
  /\ exists reports,
       show_stats
         (record_accuracy ("Position 1 - A Minor Pentatonic" ++ "_"
                           ++ str_of_Z 120)%string 50 fresh_trainer)
       = Ok reports
       /\ length reports
          = length (level_accuracies
                      (progress
                         (record_accuracy
                            ("Position 1 - A Minor Pentatonic" ++ "_"
                             ++ str_of_Z 120)%string 50 fresh_trainer))).
Proof.
  apply (record_accuracy_keeps_histories "Position 1 - A Minor Pentatonic" 120
           50 fresh_trainer).
  constructor.
Defined.

(** ** The five positions *)

Lemma Rpower_2_lt (x y : R) : (x < y)%R -> (Rpower 2 x < Rpower 2 y)%R.
Proof. intros H. apply Rpower_lt; lra. Qed.

Lemma Rpower_2_quarter : (Rpower 2 (3 / 12) < 5 / 4)%R.
Proof.
  assert (H : (ln 2 < 4 * ln (5 / 4))%R).
  { assert (E : (ln ((5 / 4) ^ 4) = 4 * ln (5 / 4))%R)
      by (rewrite ln_pow by lra; simpl; lra).
    rewrite <- E. apply ln_increasing; [lra | simpl; lra]. }
  unfold Rpower.
  rewrite <- (exp_ln (5 / 4)) at 1 by lra.
  apply exp_increasing. lra.
Qed.

(** Up one string and at most three frets down is still up in pitch, when
    the higher open string is at least a major third above. *)
Lemma next_string_higher (low high : R) (fret fret' : Z) :
  (0 < low)%R -> (low * (5 / 4) <= high)%R -> fret - 3 <= fret' ->
  (low * Rpower 2 (IZR fret / 12) < high * Rpower 2 (IZR fret' / 12))%R.
Proof.
  intros Hlow Hhigh Hfret.
  assert (Hstep : (Rpower 2 (IZR fret / 12)
                   <= Rpower 2 (3 / 12) * Rpower 2 (IZR fret' / 12))%R).
  { rewrite <- Rpower_plus.
    destruct (Z.eq_dec fret (fret' + 3)) as [-> | Hne].
    - rewrite plus_IZR. right. f_equal. lra.
    - left. apply Rpower_2_lt.
      assert (H : (IZR fret < IZR (fret' + 3))%R) by (apply IZR_lt; lia).
      rewrite plus_IZR in H. lra. }
  pose proof Rpower_2_quarter as Hq.
  pose proof (Rpower_2_pos (IZR fret' / 12)) as Hp.
  pose proof (Rpower_2_pos (IZR fret / 12)) as Hp'.
  pose proof (Rpower_2_pos (3 / 12)) as Hp3.
  apply Rle_lt_trans with (low * (Rpower 2 (3 / 12) * Rpower 2 (IZR fret' / 12)))%R.
  - apply Rmult_le_compat_l; lra.
  - apply Rlt_le_trans with (low * (5 / 4) * Rpower 2 (IZR fret' / 12))%R.
    + rewrite <- Rmult_assoc. apply Rmult_lt_compat_r; [lra |].
      apply Rmult_lt_compat_l; lra.
    + apply Rmult_le_compat_r; lra.
Qed.

Lemma same_string_higher (base : R) (fret fret' : Z) :
  (0 < base)%R -> fret < fret' ->
  (base * Rpower 2 (IZR fret / 12) < base * Rpower 2 (IZR fret' / 12))%R.
Proof.
  intros Hbase Hfret. apply Rmult_lt_compat_l; [exact Hbase |].
  apply Rpower_2_lt. apply IZR_lt in Hfret. lra.
Qed.

Ltac next_note :=
  first [ apply same_string_higher; [lra | lia]
        | apply next_string_higher; [lra | lra | lia] ].

Ltac ascending :=
  repeat first [ apply Sorted_nil
               | apply HdRel_nil
               | apply Sorted_cons
               | apply HdRel_cons; cbn [Note_frequency]; next_note ].

(** X26.  The construction of the five positions never raises, and in each of
    them the twelve notes are in strictly rising pitch, so the run "up"
    rises from note to note and the run "down" falls. *)
Theorem scale_positions_ascend :
  exists positions,
    scale_positions = Ok positions
    /\ map fst positions = position_keys
    /\ Forall (fun entry =>
                 length (Scale_notes (snd entry)) = 12%nat
                 /\ Sorted (fun low high =>
                              (Note_frequency low < Note_frequency high)%R)
                      (Scale_notes (snd entry))) positions.
Proof.
  eexists. split; [reflexivity |]. split; [reflexivity |].
  repeat (apply Forall_cons; [split; [reflexivity | cbn [snd Scale_notes]; ascending] |]).
  apply Forall_nil.
Qed.

(** X27.  Every entry of the GUI's position menu selects a position: entry
    [i] makes current the position stored under ["position" + str(i)], whose
    name begins with the entry's text. *)
Theorem change_position_selects (position : string) :
  In position GuiMenu.positions ->
  exists current_position rest,
    GuiMenu.change_position position = Ok (Some current_position)
    /\ Scale_name current_position = (position ++ rest)%string
    /\ length (Scale_notes current_position) = 12%nat.
Proof.
  intros Hin. cbn in Hin.
  destruct Hin as [<- | [<- | [<- | [<- | [<- | []]]]]];
    do 2 eexists; (split; [reflexivity |]); split;
    [ cbn [Scale_name]; reflexivity | reflexivity
    | cbn [Scale_name]; reflexivity | reflexivity
    | cbn [Scale_name]; reflexivity | reflexivity
    | cbn [Scale_name]; reflexivity | reflexivity
    | cbn [Scale_name]; reflexivity | reflexivity ].
Qed.

Lemma change_position_selects_witness :
  exists current_position rest,
    GuiMenu.change_position "Position 3" = Ok (Some current_position)
    /\ Scale_name current_position = ("Position 3" ++ rest)%string
    /\ length (Scale_notes current_position) = 12%nat.
Proof.
  apply (change_position_selects "Position 3"). cbn. tauto.
Defined.

(** ** Fresh start and reset *)

(** X28.  A fresh start, whatever the progress file holds, and a confirmed
    reset both leave the trainer in a state where the unlocked positions are
    duplicate-free and among the five keys, the tempo is at most the target
    and at most the highest tempo on record, and there is no malformed
    history; the reset also writes that state to the file.  These are what
    the steps of a pass assume and keep. *)
Theorem start_and_reset_invariants (file : option file_content)
  (self : Trainer) :
  starting_bpm self <= self_target_bpm self ->
  let settled trainer :=
    Forall (fun p => In p position_keys)
      (positions_unlocked (progress trainer))
    /\ NoDup (positions_unlocked (progress trainer))
    /\ current_bpm trainer <= target_bpm (progress trainer)
    /\ current_bpm trainer <= highest_bpm (progress trainer)
    /\ Forall history_ok (level_accuracies (progress trainer)) in
  settled (init file)
  /\ settled (reset_progress self)
  /\ progress_file (reset_progress self)
     = Some (Json (to_saved (progress (reset_progress self))))
  /\ games_won (progress (reset_progress self)) = [].
Proof.
  intros Hattrs. cbn zeta.
  assert (Hfirst : Forall (fun p => In p position_keys) ["position1"]).
  { constructor; [cbn; tauto | constructor]. }
  assert (Hone : NoDup ["position1"]).
  { constructor; [intros [] | constructor]. }
  split; [| split; [| split; reflexivity]].
  - unfold init. rewrite load_progress_unchanged. cbn.
    repeat split; try assumption; try lia. constructor.
  - cbn. repeat split; try assumption; try lia. constructor.
Qed.

Lemma start_and_reset_invariants_witness :
  let settled trainer :=
    Forall (fun p => In p position_keys)
      (positions_unlocked (progress trainer))
    /\ NoDup (positions_unlocked (progress trainer))
    /\ current_bpm trainer <= target_bpm (progress trainer)
    /\ current_bpm trainer <= highest_bpm (progress trainer)
    /\ Forall history_ok (level_accuracies (progress trainer)) in
  settled (init (Some (Json stored_example)))
  /\ settled (reset_progress fresh_trainer)
  /\ progress_file (reset_progress fresh_trainer)
     = Some (Json (to_saved (progress (reset_progress fresh_trainer))))
  /\ games_won (progress (reset_progress fresh_trainer)) = [].
Proof.
  apply (start_and_reset_invariants (Some (Json stored_example)) fresh_trainer).
  cbn. lia.
Defined.
